(** * Verification of the workspace plugin's plan parser, session
      resolution, plan store and project identity.

    The development embeds [src/plugin/workspace-plugin.ts] and the project
    identity helper shallowly: JavaScript strings are lists of UTF-16 code
    units, regular expressions are run by a backtracking matcher written in
    continuation-passing style (the shape of the ECMAScript matcher), the
    schema library's checks are written out, and the host (sessions, file
    system, git) is an explicit environment. *)

From Stdlib Require Import ZArith NArith List Bool Lia String Ascii.
From stdpp Require Import base tactics option list gmap.

Set Default Proof Using "Type".
Local Open Scope N_scope.

(* ================================================================== *)
(** * JavaScript strings *)
(* ================================================================== *)

(** A JavaScript string is a sequence of 16-bit code units. *)
Abbreviation jsstring := (list N).

(** ** Literals

    Source literals are written as Rocq strings (UTF-8 bytes) and decoded
    into code units; code points above 0xFFFF become surrogate pairs. *)

Definition cont (b : N) : N := b mod 64.

Definition utf16_of_point (cp : N) : jsstring :=
  if cp <? 0x10000 then [cp]
  else let v := cp - 0x10000 in [0xD800 + v / 1024; 0xDC00 + v mod 1024].

Fixpoint utf16_of_utf8 (bs : list N) : jsstring :=
  match bs with
  | [] => []
  | b :: r =>
    if b <? 0x80 then b :: utf16_of_utf8 r
    else if b <? 0xE0 then
      match r with
      | b1 :: r' => ((b mod 32) * 64 + cont b1) :: utf16_of_utf8 r'
      | _ => []
      end
    else if b <? 0xF0 then
      match r with
      | b1 :: b2 :: r' =>
        ((b mod 16) * 4096 + cont b1 * 64 + cont b2) :: utf16_of_utf8 r'
      | _ => []
      end
    else
      match r with
      | b1 :: b2 :: b3 :: r' =>
        utf16_of_point ((b mod 8) * 262144 + cont b1 * 4096 + cont b2 * 64 + cont b3)
          ++ utf16_of_utf8 r'
      | _ => []
      end
  end.

Definition u (s : string) : jsstring :=
  utf16_of_utf8 (map N_of_ascii (list_ascii_of_string s)).
Arguments u s%_string.

(** Single characters used by the source. *)
Definition LF : N := 10.
Definition CR : N := 13.
Definition HASH : N := 35.       (* # *)
Definition COLON : N := 58.      (* : *)
Definition LBRACK : N := 91.     (* [ *)
Definition RBRACK : N := 93.     (* ] *)
Definition BACKTICK : N := 96.   (* ` *)
Definition STAR : N := 42.       (* * *)
Definition LARROW : N := 0x2190. (* the leftwards arrow of the CURRENT marker *)

(** ** Character classes *)

(** [\s], and the set removed by [trim]: WhiteSpace and LineTerminator. *)
Definition is_space (c : N) : bool :=
  (c =? 9) || (c =? 10) || (c =? 11) || (c =? 12) || (c =? 13) || (c =? 32)
  || (c =? 0xA0) || (c =? 0x1680) || ((0x2000 <=? c) && (c <=? 0x200A))
  || (c =? 0x2028) || (c =? 0x2029) || (c =? 0x202F) || (c =? 0x205F)
  || (c =? 0x3000) || (c =? 0xFEFF).

(** [\d] *)
Definition is_digit (c : N) : bool := (48 <=? c) && (c <=? 57).

(** [[a-z]] *)
Definition is_lower (c : N) : bool := (97 <=? c) && (c <=? 122).

(** [[a-f0-9]] under the [i] flag. *)
Definition is_hex (c : N) : bool :=
  is_digit c || ((97 <=? c) && (c <=? 102)) || ((65 <=? c) && (c <=? 70)).

(** [.] without the [s] flag: anything but a line terminator. *)
Definition is_line_terminator (c : N) : bool :=
  (c =? 10) || (c =? 13) || (c =? 0x2028) || (c =? 0x2029).

(** ** String.prototype methods used by the source *)

Fixpoint drop_while (p : N -> bool) (s : jsstring) : jsstring :=
  match s with
  | c :: r => if p c then drop_while p r else s
  | [] => []
  end.

Fixpoint take_while (p : N -> bool) (s : jsstring) : jsstring :=
  match s with
  | c :: r => if p c then c :: take_while p r else []
  | [] => []
  end.

Definition trimStart (s : jsstring) : jsstring := drop_while is_space s.
Definition trimEnd (s : jsstring) : jsstring := rev (drop_while is_space (rev s)).
Definition trim (s : jsstring) : jsstring := trimEnd (trimStart s).

(** [s.split(c)] for a one-character separator: never the empty array. *)
Fixpoint split_on (c : N) (s : jsstring) : list jsstring :=
  match s with
  | [] => [[]]
  | x :: r =>
    if x =? c then [] :: split_on c r
    else match split_on c r with
         | p :: ps => (x :: p) :: ps
         | [] => [[x]]
         end
  end.

(** [parts.join(sep)] *)
Fixpoint join_with (sep : jsstring) (parts : list jsstring) : jsstring :=
  match parts with
  | [] => []
  | [p] => p
  | p :: ps => p ++ sep ++ join_with sep ps
  end.

(** [replace] of the global pattern of two escaped stars by the empty
    string: every non-overlapping pair of stars, from the left, is removed. *)
Fixpoint remove_double_star (s : jsstring) : jsstring :=
  match s with
  | a :: r =>
    match r with
    | b :: r' =>
      if (a =? STAR) && (b =? STAR) then remove_double_star r'
      else a :: remove_double_star r
    | [] => [a]
    end
  | [] => []
  end.

(** [replace] of every backtick by the empty string. *)
Definition remove_backticks (s : jsstring) : jsstring :=
  filter (fun c => c ≠ BACKTICK) s.

(** ** Numbers

    The only numbers the plugin computes are results of [parseInt(_, 10)]
    and loop counters.  A number is NaN, an infinity, or a finite double
    with an integer value, kept as that integer ([-0] is not told from
    [0]: no check of the plugin tells them apart). *)
Inductive jsnum := NaN | Num (z : Z) | Infinity (negative : bool).

Definition digit_val (c : N) : Z := Z.of_N (c - 48).

Definition digits_value (ds : jsstring) : Z :=
  fold_left (fun acc c => (acc * 10 + digit_val c)%Z) ds 0%Z.

(** The double nearest to a non-negative integer, ties to the even
    significand: integers below 2^53 are doubles; above, the bits under the
    53 leading ones are rounded away. *)
Definition round_double (m : Z) : Z :=
  let e := (Z.log2 m - 52)%Z in
  if (e <=? 0)%Z then m
  else
    let q := Z.shiftr m e in
    let r := Z.land m (Z.ones e) in
    let half := Z.shiftl 1 (e - 1) in
    let q' := if (half <? r)%Z || ((r =? half)%Z && Z.odd q) then (q + 1)%Z else q in
    Z.shiftl q' e.

(** The Number value of a sign and a magnitude: what rounds to 2^1024 or
    above is an infinity. *)
Definition number_of (negative : bool) (m : Z) : jsnum :=
  let d := round_double m in
  if (2 ^ 1024 <=? d)%Z then Infinity negative
  else Num (if negative then - d else d)%Z.

(** [parseInt(s, 10)]: leading white space is skipped, one sign is read, and
    the longest run of decimal digits is the value, rounded to a double; no
    digit gives NaN. *)
Definition parseInt (s : jsstring) : jsnum :=
  let s1 := trimStart s in
  let '(neg, s2) :=
    match s1 with
    | 45 :: r => (true, r)
    | 43 :: r => (false, r)
    | _ => (false, s1)
    end in
  let ds := take_while is_digit s2 in
  match ds with
  | [] => NaN
  | _ => number_of neg (digits_value ds)
  end.

(** Decimal rendering of a non-negative counter, as in a template literal. *)
Fixpoint uint_chars (d : Decimal.uint) : jsstring :=
  match d with
  | Decimal.Nil => []
  | Decimal.D0 r => 48 :: uint_chars r
  | Decimal.D1 r => 49 :: uint_chars r
  | Decimal.D2 r => 50 :: uint_chars r
  | Decimal.D3 r => 51 :: uint_chars r
  | Decimal.D4 r => 52 :: uint_chars r
  | Decimal.D5 r => 53 :: uint_chars r
  | Decimal.D6 r => 54 :: uint_chars r
  | Decimal.D7 r => 55 :: uint_chars r
  | Decimal.D8 r => 56 :: uint_chars r
  | Decimal.D9 r => 57 :: uint_chars r
  end.

Definition nat_to_string (n : nat) : jsstring := uint_chars (Nat.to_uint n).

(** [prefix.startsWith]-style test returning the remainder. *)
Fixpoint strip_lit (p s : jsstring) : option jsstring :=
  match p with
  | [] => Some s
  | a :: p' =>
    match s with
    | b :: s' => if a =? b then strip_lit p' s' else None
    | [] => None
    end
  end.

(* ================================================================== *)
(** * Regular expressions *)
(* ================================================================== *)

(** The fragment of ECMAScript patterns the source uses. *)
Inductive regex :=
| Empty
| Lit (s : jsstring)                  (* a literal run of characters *)
| Cls (p : N -> bool)                 (* one character of a class *)
| Seq (r1 r2 : regex)
| Alt (r1 r2 : regex)                 (* r1|r2 *)
| Star (greedy : bool) (r : regex)    (* r* and r*? *)
| Opt (r : regex)                     (* r? *)
| Group (i : nat) (r : regex)         (* the i-th capturing group *)
| Look (r : regex)                    (* (?=r) *)
| Bos                                 (* ^ without the m flag *)
| Eos                                 (* $ without the m flag *)
| Bol                                 (* ^ with the m flag *)
| Eol.                                (* $ with the m flag *)

(** r+ *)
Definition Plus (r : regex) : regex := Seq r (Star true r).

(** r{n} *)
Fixpoint Rep (n : nat) (r : regex) : regex :=
  match n with
  | O => Empty
  | S n' => Seq r (Rep n' r)
  end.

(** The state of a match: the input still to read and the captures. *)
Record mstate := MState {
  rest : jsstring;
  caps : nat -> option jsstring
}.

Definition no_caps : nat -> option jsstring := fun _ => None.

Definition set_cap (i : nat) (v : option jsstring) (c : nat -> option jsstring)
  : nat -> option jsstring :=
  fun j => if Nat.eqb j i then v else c j.

(** The capturing groups inside a pattern: a quantifier clears them on
    entry to each iteration. *)
Fixpoint groups (r : regex) : list nat :=
  match r with
  | Seq a b | Alt a b => groups a ++ groups b
  | Star _ a | Opt a | Look a => groups a
  | Group i a => i :: groups a
  | _ => []
  end.

Definition clear_groups (r : regex) (st : mstate) : mstate :=
  MState (rest st) (fold_right (fun i c => set_cap i None c) (caps st) (groups r)).

(** The text consumed between two states of one match. *)
Definition consumed (st st1 : mstate) : jsstring :=
  take (length (rest st) - length (rest st1)) (rest st).

Definition progressed (st st1 : mstate) : bool :=
  (length (rest st1) <? length (rest st))%nat.

Definition is_bol (input r : jsstring) : bool :=
  match last (take (length input - length r) input) with
  | None => true
  | Some c => is_line_terminator c
  end.

Section Matcher.
(** The whole subject string, which the assertions look at. *)
Variable input : jsstring.

Abbreviation cont_t := (mstate -> option mstate).

(** One quantified atom, at most [n] more times.  An iteration that
    consumes nothing is rejected, as in RepeatMatcher; [n] is the length
    of the remaining input plus one, so it is never the limit. *)
Fixpoint star_loop (body : mstate -> cont_t -> option mstate)
    (greedy : bool) (k : cont_t) (n : nat) (st : mstate) : option mstate :=
  match n with
  | O => None
  | S n' =>
    let again st1 :=
      if progressed st st1 then star_loop body greedy k n' st1 else None in
    if greedy then
      match body st again with
      | Some x => Some x
      | None => k st
      end
    else
      match k st with
      | Some x => Some x
      | None => body st again
      end
  end.

(** The backtracking matcher: [rmatch r st k] matches [r] at [st] and
    hands every way of doing so, in priority order, to [k], returning the
    first success. *)
Fixpoint rmatch (r : regex) (st : mstate) (k : cont_t) : option mstate :=
  match r with
  | Empty => k st
  | Lit s =>
    match strip_lit s (rest st) with
    | Some r' => k (MState r' (caps st))
    | None => None
    end
  | Cls p =>
    match rest st with
    | c :: r' => if p c then k (MState r' (caps st)) else None
    | [] => None
    end
  | Seq a b => rmatch a st (fun st1 => rmatch b st1 k)
  | Alt a b =>
    match rmatch a st k with
    | Some x => Some x
    | None => rmatch b st k
    end
  | Star g a =>
    star_loop (fun s => rmatch a (clear_groups a s)) g k (S (length (rest st))) st
  | Opt a =>
    match rmatch a (clear_groups a st)
            (fun st1 => if progressed st st1 then k st1 else None) with
    | Some x => Some x
    | None => k st
    end
  | Group i a =>
    rmatch a st (fun st1 =>
      k (MState (rest st1) (set_cap i (Some (consumed st st1)) (caps st1))))
  | Look a =>
    match rmatch a st Some with
    | Some st1 => k (MState (rest st) (caps st1))
    | None => None
    end
  | Bos => if (length (rest st) =? length input)%nat then k st else None
  | Eos => match rest st with [] => k st | _ => None end
  | Bol => if is_bol input (rest st) then k st else None
  | Eol =>
    match rest st with
    | [] => k st
    | c :: _ => if is_line_terminator c then k st else None
    end
  end.

(** A successful match: where it starts (as the input from there on),
    where it ends and what it captured. *)
Record rmatch_result := MatchResult {
  m_start : jsstring;
  m_end : jsstring;
  m_caps : nat -> option jsstring
}.

(** Group 0. *)
Definition m_text (m : rmatch_result) : jsstring :=
  take (length (m_start m) - length (m_end m)) (m_start m).

(** [lastIndex] after the match. *)
Definition m_lastIndex (m : rmatch_result) : nat :=
  (length input - length (m_end m))%nat.

(** [RegExpBuiltinExec]: the leftmost start position, from [from] on, at
    which the pattern matches. *)
Fixpoint search (r : regex) (from : jsstring) : option rmatch_result :=
  match rmatch r (MState from no_caps) Some with
  | Some st => Some (MatchResult from (rest st) (caps st))
  | None =>
    match from with
    | [] => None
    | _ :: from' => search r from'
    end
  end.

(** [let m = re.exec(s); while (m !== null) { ...; m = re.exec(s) }] for a
    pattern with the g flag: every [exec] resumes at [lastIndex], the end
    of the previous match.  The loop is run for at most [fuel] rounds;
    [None] is a loop that does not end within them. *)
Fixpoint exec_loop (fuel : nat) (r : regex) (from : jsstring)
  : option (list rmatch_result) :=
  match fuel with
  | O => None
  | S f =>
    match search r from with
    | None => Some []
    | Some m =>
      match exec_loop f r (m_end m) with
      | Some ms => Some (m :: ms)
      | None => None
      end
    end
  end.
End Matcher.

(** [s.match(re)] for a pattern without the g flag. *)
Definition str_match (r : regex) (s : jsstring) : option rmatch_result :=
  search s r s.

(** [re.test(s)] *)
Definition regex_test (r : regex) (s : jsstring) : bool :=
  match search s r s with Some _ => true | None => false end.

(** A [while]-[exec] loop over the whole of [s].  A match of at least one
    character per round ends the loop within [length s + 1] rounds. *)
Definition exec_all (r : regex) (s : jsstring) : option (list rmatch_result) :=
  exec_loop s (S (length s)) r s.

(** Concatenation of a list of patterns. *)
Fixpoint seqs (rs : list regex) : regex :=
  match rs with
  | [] => Empty
  | [r] => r
  | r :: rs' => Seq r (seqs rs')
  end.

(** A capture that takes part in every match of its pattern. *)
Definition group (m : rmatch_result) (i : nat) : jsstring :=
  default [] (m_caps m i).

(* ================================================================== *)
(** * Plan extraction: [extractMarkdownParts] *)
(* ================================================================== *)

Definition any_char (c : N) : bool := true.                       (* [\s\S] *)
Definition not_nl_hash (c : N) : bool :=                          (* [^\n#] *)
  negb ((c =? LF) || (c =? HASH)).
Definition not_lbrack (c : N) : bool := negb (c =? LBRACK).       (* [^[] *)
Definition not_rbrack (c : N) : bool := negb (c =? RBRACK).       (* [^\]] *)
Definition not_arrow_nl (c : N) : bool :=                         (* [^←\n] *)
  negb ((c =? LARROW) || (c =? LF)).
Definition space_or_x (c : N) : bool := (c =? 32) || (c =? 120).  (* [ x] *)
Definition dot_char (c : N) : bool := negb (is_line_terminator c). (* . *)

(** [/^---\n([\s\S]*?)\n---/] *)
Definition frontmatterRegex : regex :=
  seqs [Bos; Lit (u "---
"); Group 1 (Star false (Cls any_char)); Lit (u "
---")].

(** [/## Goal\n([^\n#]+)/] *)
Definition goalRegex : regex :=
  seqs [Lit (u "## Goal
"); Group 1 (Plus (Cls not_nl_hash))].

(** [/## Phase (\d+): ([^[]+)\[([^\]]+)\]\n([\s\S]*?)(?=## Phase \d+:|## Notes|## Blockers|$)/g] *)
Definition phaseRegex : regex :=
  seqs [Lit (u "## Phase "); Group 1 (Plus (Cls is_digit)); Lit (u ": ");
        Group 2 (Plus (Cls not_lbrack)); Lit (u "[");
        Group 3 (Plus (Cls not_rbrack)); Lit (u "]
");
        Group 4 (Star false (Cls any_char));
        Look (Alt (seqs [Lit (u "## Phase "); Plus (Cls is_digit); Lit (u ":")])
             (Alt (Lit (u "## Notes"))
             (Alt (Lit (u "## Blockers"))
                  Eos)))].

(** The task pattern, with the g flag:
    [- \[([ x])\] (BOLD)?(\d+\.\d+) ([^←\n]+)(← CURRENT)?.*?(`ref:[a-z]+-[a-z]+-[a-z]+`)?]
    where BOLD is two escaped stars. *)
Definition taskRegex : regex :=
  seqs [Lit (u "- ["); Group 1 (Cls space_or_x); Lit (u "] ");
        Opt (Group 2 (Lit (u "**")));
        Group 3 (seqs [Plus (Cls is_digit); Lit (u "."); Plus (Cls is_digit)]);
        Lit (u " ");
        Group 4 (Plus (Cls not_arrow_nl));
        Opt (Group 5 (Lit (u "← CURRENT")));
        Star false (Cls dot_char);
        Opt (Group 6 (seqs [Lit (u "`ref:"); Plus (Cls is_lower); Lit (u "-");
                            Plus (Cls is_lower); Lit (u "-");
                            Plus (Cls is_lower); Lit (u "`")]))].

(** A frontmatter value: a string, or the number [parseInt] made of the
    [phase] line. *)
Inductive fmvalue := FStr (s : jsstring) | FNum (n : jsnum).

(** [ExtractedParts]: the raw parts, before validation. *)
Record RawTask := mkRawTask {
  x_id : jsstring;
  x_checked : bool;
  x_content : jsstring;
  x_isCurrent : bool;
  x_citation : option jsstring
}.

Record RawPhase := mkRawPhase {
  x_number : jsnum;
  x_name : jsstring;
  x_status : jsstring;
  x_tasks : list RawTask
}.

Record ExtractedParts := mkParts {
  x_frontmatter : option (gmap jsstring fmvalue);
  x_goal : option jsstring;
  x_phases : list RawPhase
}.

(** The body of [for (const line of fmLines)]: the line is cut at its
    colons; a line with a non-empty first piece and at least one colon sets
    the key (trimmed) to the trimmed remainder, the [phase] key to its
    [parseInt].  Assigning a string to [__proto__] leaves a plain object
    unchanged. *)
Definition frontmatter_add_line (fm : gmap jsstring fmvalue) (line : jsstring)
  : gmap jsstring fmvalue :=
  match split_on COLON line with
  | key :: valueParts =>
    if bool_decide (key ≠ []) && bool_decide (valueParts ≠ []) then
      let value := trim (join_with [COLON] valueParts) in
      let k := trim key in
      if bool_decide (k = u "__proto__") then fm
      else <[k := if bool_decide (k = u "phase") then FNum (parseInt value)
                  else FStr value]> fm
    else fm
  | [] => fm
  end.

Definition frontmatter_of_lines (lines : list jsstring) : gmap jsstring fmvalue :=
  fold_left frontmatter_add_line lines ∅.

Definition extract_frontmatter (content : jsstring)
  : option (gmap jsstring fmvalue) :=
  match str_match frontmatterRegex content with
  | Some fmMatch => Some (frontmatter_of_lines (split_on LF (group fmMatch 1)))
  | None => None
  end.

(** [goalMatch?.[1]?.trim() || null] *)
Definition extract_goal (content : jsstring) : option jsstring :=
  match str_match goalRegex content with
  | Some goalMatch =>
    match trim (group goalMatch 1) with
    | [] => None
    | g => Some g
    end
  | None => None
  end.

(** The object pushed for one match of the task pattern. *)
Definition task_of_match (taskMatch : rmatch_result) : RawTask :=
  {| x_id := group taskMatch 3;
     x_checked := bool_decide (m_caps taskMatch 1 = Some (u "x"));
     x_content := remove_double_star (trim (group taskMatch 4));
     x_isCurrent :=
       match m_caps taskMatch 5 with
       | Some (_ :: _) => true
       | _ => false
       end;
     x_citation := remove_backticks <$> m_caps taskMatch 6 |}.

(** The inner [while]: the tasks of one phase body. *)
Definition extract_tasks (phaseContent : jsstring) : option (list RawTask) :=
  map task_of_match <$> exec_all taskRegex phaseContent.

(** The object pushed for one match of the phase pattern. *)
Definition phase_of_match (phaseMatch : rmatch_result) : option RawPhase :=
  tasks ← extract_tasks (group phaseMatch 4);
  Some {| x_number := parseInt (group phaseMatch 1);
          x_name := trim (group phaseMatch 2);
          x_status := trim (group phaseMatch 3);
          x_tasks := tasks |}.

(** The outer [while]. *)
Definition extract_phases (content : jsstring) : option (list RawPhase) :=
  ms ← exec_all phaseRegex content;
  mapM phase_of_match ms.

(** [extractMarkdownParts]; [None] stands for a scan that does not end. *)
Definition extractMarkdownParts (content : jsstring) : option ExtractedParts :=
  phases ← extract_phases content;
  Some (mkParts (extract_frontmatter content) (extract_goal content) phases).

(* ================================================================== *)
(** * The plan schema *)
(* ================================================================== *)

(** Values as far as [typeof] and string conversion tell them apart. *)
Inductive jsval :=
| VUndefined
| VNull
| VBoolean (b : bool)
| VNumber (n : jsnum)
| VString (s : jsstring)
| VObject
| VFunction
| VSymbol
| VBigInt.

Definition typeof (v : jsval) : jsstring :=
  match v with
  | VUndefined => u "undefined"
  | VNull | VObject => u "object"
  | VBoolean _ => u "boolean"
  | VNumber _ => u "number"
  | VString _ => u "string"
  | VFunction => u "function"
  | VSymbol => u "symbol"
  | VBigInt => u "bigint"
  end.

Inductive issue_code :=
| invalid_type | invalid_value | too_small | too_big | invalid_format.

Inductive path_elem := PKey (k : jsstring) | PIndex (i : nat).

(** What [formatZodErrors] reads of an issue.  [i_input] is [None] for an
    issue without the property: the schema library leaves the input out of
    the issues it reports unless asked to include it. *)
Record ZodIssue := mkIssue {
  i_path : list path_elem;
  i_code : issue_code;
  i_message : jsstring;
  i_values : option (list jsstring);
  i_input : option jsval
}.

(** The validated plan, [z.infer<typeof PlanSchema>]. *)
Record Task := mkTask {
  t_id : jsstring;
  t_checked : bool;
  t_content : jsstring;
  t_isCurrent : option bool;
  t_citation : option jsstring
}.

Record Phase := mkPhase {
  p_number : Z;
  p_name : jsstring;
  p_status : jsstring;
  p_tasks : list Task
}.

Record Plan := mkPlan {
  frontmatter : gmap jsstring fmvalue;
  goal : jsstring;
  context : option (list (jsstring * jsstring * jsstring));
  phases : list Phase
}.

Inductive SafeParseResult :=
| ParseSuccess (data : Plan)
| ParseFailure (issues : list ZodIssue).

(** [ParseResult] *)
Inductive ParseResult :=
| ParseOk (data : Plan) (warnings : list jsstring)
| ParseError (error hint : jsstring).

Definition PhaseStatus : list jsstring :=
  [u "PENDING"; u "IN PROGRESS"; u "COMPLETE"; u "BLOCKED"].

Definition PlanStatus : list jsstring :=
  [u "not-started"; u "in-progress"; u "complete"; u "blocked"].

(** [/^\d+\.\d+$/] *)
Definition taskIdRegex : regex :=
  seqs [Bos; Plus (Cls is_digit); Lit (u "."); Plus (Cls is_digit); Eos].

(** [/^ref:[a-z]+-[a-z]+-[a-z]+$/] *)
Definition citationRegex : regex :=
  seqs [Bos; Lit (u "ref:"); Plus (Cls is_lower); Lit (u "-");
        Plus (Cls is_lower); Lit (u "-"); Plus (Cls is_lower); Eos].

(** [/^\d{4}-\d{2}-\d{2}$/] *)
Definition dateRegex : regex :=
  seqs [Bos; Rep 4 (Cls is_digit); Lit (u "-"); Rep 2 (Cls is_digit);
        Lit (u "-"); Rep 2 (Cls is_digit); Eos].

Definition MAX_SAFE_INTEGER : Z := 9007199254740991.

Definition QUOTE : N := 34.

Definition skillHint : jsstring :=
  u "Load skill('plan-protocol') for the full format spec.".

Section Schema.
(** The text the schema library gives an issue of a built-in check that
    the source attaches no message to; it depends on the library's locale
    and is left open. *)
Variable defaultMessage : issue_code -> jsstring.

Definition builtin (path : list path_elem) (code : issue_code) : ZodIssue :=
  mkIssue path code (defaultMessage code) None None.

Definition custom (path : list path_elem) (code : issue_code)
    (message : jsstring) : ZodIssue :=
  mkIssue path code message None None.

(** [z.enum(values)] *)
Definition enum_issues (values : list jsstring) (path : list path_elem)
    (v : option fmvalue) : list ZodIssue :=
  match v with
  | Some (FStr s) =>
    if bool_decide (s ∈ values) then []
    else [mkIssue path invalid_value (defaultMessage invalid_value) (Some values) None]
  | _ => [mkIssue path invalid_value (defaultMessage invalid_value) (Some values) None]
  end.

(** [z.number().int().positive()]: a finite number, within the safe
    integers, and above zero; the last two checks both report. *)
Definition positive_int_issues (path : list path_elem) (v : option fmvalue)
  : list ZodIssue :=
  match v with
  | Some (FNum (Num z)) =>
    (if (MAX_SAFE_INTEGER <? z)%Z then [builtin path too_big]
     else if (z <? - MAX_SAFE_INTEGER)%Z then [builtin path too_small]
     else [])
    ++ (if (0 <? z)%Z then [] else [builtin path too_small])
  | _ => [builtin path invalid_type]
  end.

(** [z.string().regex(re, message)] *)
Definition string_regex_issues (re : regex) (message : jsstring)
    (path : list path_elem) (v : option fmvalue) : list ZodIssue :=
  match v with
  | Some (FStr s) =>
    if regex_test re s then [] else [custom path invalid_format message]
  | _ => [builtin path invalid_type]
  end.

(** [z.string().min(n, message)] *)
Definition string_min_issues (n : nat) (message : jsstring)
    (path : list path_elem) (v : option jsstring) : list ZodIssue :=
  match v with
  | Some s =>
    if (n <=? length s)%nat then [] else [custom path too_small message]
  | None => [builtin path invalid_type]
  end.

Definition TaskSchema_issues (path : list path_elem) (t : RawTask)
  : list ZodIssue :=
  string_regex_issues taskIdRegex
    (u "Task ID must be hierarchical (e.g., '2.1')")
    (path ++ [PKey (u "id")]) (Some (FStr (x_id t)))
  ++ string_min_issues 1 (u "Task content cannot be empty")
       (path ++ [PKey (u "content")]) (Some (x_content t))
  ++ match x_citation t with
     | Some c =>
       string_regex_issues citationRegex
         (u "Citation must be ref:word-word-word format")
         (path ++ [PKey (u "citation")]) (Some (FStr c))
     | None => []
     end.

Definition TaskSchema_data (t : RawTask) : Task :=
  mkTask (x_id t) (x_checked t) (x_content t) (Some (x_isCurrent t))
         (x_citation t).

(** The issues of the elements of an array, each under its index. *)
Definition array_issues {A} (f : list path_elem -> A -> list ZodIssue)
    (path : list path_elem) (xs : list A) : list ZodIssue :=
  concat (imap (fun i x => f (path ++ [PIndex i]) x) xs).

(** [z.array(_).min(1, message)] *)
Definition min1_issues {A} (message : jsstring) (path : list path_elem)
    (xs : list A) : list ZodIssue :=
  match xs with
  | [] => [custom path too_small message]
  | _ => []
  end.

Definition PhaseSchema_issues (path : list path_elem) (p : RawPhase)
  : list ZodIssue :=
  positive_int_issues (path ++ [PKey (u "number")]) (Some (FNum (x_number p)))
  ++ string_min_issues 1 (u "Phase name cannot be empty")
       (path ++ [PKey (u "name")]) (Some (x_name p))
  ++ enum_issues PhaseStatus (path ++ [PKey (u "status")])
       (Some (FStr (x_status p)))
  ++ array_issues TaskSchema_issues (path ++ [PKey (u "tasks")]) (x_tasks p)
  ++ min1_issues (u "Phase must have at least one task")
       (path ++ [PKey (u "tasks")]) (x_tasks p).

Definition PhaseSchema_data (p : RawPhase) : Phase :=
  mkPhase (match x_number p with Num z => z | _ => 0%Z end)
          (x_name p) (x_status p) (map TaskSchema_data (x_tasks p)).

Definition FrontmatterSchema_keys : list jsstring :=
  [u "status"; u "phase"; u "updated"].

Definition FrontmatterSchema_issues (path : list path_elem)
    (fm : option (gmap jsstring fmvalue)) : list ZodIssue :=
  match fm with
  | None => [builtin path invalid_type]
  | Some o =>
    enum_issues PlanStatus (path ++ [PKey (u "status")]) (o !! u "status")
    ++ positive_int_issues (path ++ [PKey (u "phase")]) (o !! u "phase")
    ++ string_regex_issues dateRegex (u "Date must be YYYY-MM-DD")
         (path ++ [PKey (u "updated")]) (o !! u "updated")
  end.

(** An object schema copies the keys of its shape and nothing else. *)
Definition FrontmatterSchema_data (fm : option (gmap jsstring fmvalue))
  : gmap jsstring fmvalue :=
  filter (fun kv => kv.1 ∈ FrontmatterSchema_keys) (default ∅ fm).

Definition PlanSchema_issues (candidate : ExtractedParts) : list ZodIssue :=
  FrontmatterSchema_issues [PKey (u "frontmatter")] (x_frontmatter candidate)
  ++ string_min_issues 10 (u "Goal must be at least 10 characters")
       [PKey (u "goal")] (x_goal candidate)
  ++ array_issues PhaseSchema_issues [PKey (u "phases")] (x_phases candidate)
  ++ min1_issues (u "Plan must have at least one phase")
       [PKey (u "phases")] (x_phases candidate).

Definition PlanSchema_data (candidate : ExtractedParts) : Plan :=
  mkPlan (FrontmatterSchema_data (x_frontmatter candidate))
         (default [] (x_goal candidate))
         None
         (map PhaseSchema_data (x_phases candidate)).

(** [PlanSchema.safeParse(candidate)] *)
Definition PlanSchema_safeParse (candidate : ExtractedParts) : SafeParseResult :=
  match PlanSchema_issues candidate with
  | [] => ParseSuccess (PlanSchema_data candidate)
  | issues => ParseFailure issues
  end.

(** ** [formatZodErrors] *)

Definition path_elem_string (e : path_elem) : jsstring :=
  match e with
  | PKey k => k
  | PIndex i => nat_to_string i
  end.

Definition jsval_string (v : option jsval) : jsstring :=
  match v with
  | None | Some VUndefined => u "undefined"
  | Some VNull => u "null"
  | Some (VBoolean b) => if b then u "true" else u "false"
  | Some (VNumber NaN) => u "NaN"
  | Some (VNumber (Infinity negative)) =>
    (if negative then u "-" else []) ++ u "Infinity"
  | Some (VNumber (Num z)) =>
    (if (z <? 0)%Z then u "-" else []) ++ nat_to_string (Z.abs_nat z)
  | Some (VString s) => s
  | Some VObject => u "[object Object]"
  | Some VFunction => u "function"
  | Some VSymbol => u "Symbol()"
  | Some VBigInt => u "0"
  end.

Definition format_issue (issue : ZodIssue) : jsstring :=
  let path :=
    match i_path issue with
    | [] => u "[root]"
    | p => u "[" ++ join_with (u ".") (map path_elem_string p) ++ u "]"
    end in
  let message :=
    match i_code issue with
    | invalid_value =>
      u "Invalid value " ++ [QUOTE] ++ jsval_string (i_input issue)
        ++ [QUOTE] ++ u ". Expected: "
        ++ match i_values issue with
           | Some values => join_with (u " | ") values
           | None => u "valid value"
           end
    | invalid_type =>
      match i_input issue with
      | Some VNull => u "Required field missing"
      | _ => i_message issue
      end
    | _ => i_message issue
    end in
  path ++ u ": " ++ message.

Definition formatZodErrors (issues : list ZodIssue) : jsstring :=
  join_with [LF] (map format_issue issues).

(** ** [parsePlanMarkdown] *)

(** The tasks flagged current, over all phases. *)
Definition currentCount (data : Plan) : nat :=
  length (filter (fun t => t_isCurrent t = Some true)
                 (concat (map p_tasks (phases data)))).

Definition inProgressCount (data : Plan) : nat :=
  length (filter (fun p => p_status p = u "IN PROGRESS") (phases data)).

Definition multipleCurrentError (n : nat) : jsstring :=
  u "Multiple tasks marked ← CURRENT (found " ++ nat_to_string n
    ++ u "). Only one task may be current.".

(** The function with its extraction step as a parameter: a result that
    does not depend on [extract] is one returned before the call. *)
Definition parsePlanMarkdown_with
    (extract : jsstring -> option ExtractedParts) (content : jsval)
  : option ParseResult :=
  match content with
  | VString content =>
    if bool_decide (trim content = []) then
      Some (ParseError (u "Empty content provided") skillHint)
    else
      parts ← extract content;
      let candidate :=
        mkParts (x_frontmatter parts) (x_goal parts) (x_phases parts) in
      match PlanSchema_safeParse candidate with
      | ParseFailure issues =>
        Some (ParseError (formatZodErrors issues) skillHint)
      | ParseSuccess data =>
        if (1 <? currentCount data)%nat then
          Some (ParseError (multipleCurrentError (currentCount data)) skillHint)
        else
          Some (ParseOk data
                  (if (1 <? inProgressCount data)%nat
                   then [u "Multiple phases marked IN PROGRESS. Consider focusing on one phase at a time."]
                   else []))
      end
  | other =>
    Some (ParseError (u "Expected markdown string, received " ++ typeof other)
                     skillHint)
  end.

Definition parsePlanMarkdown (content : jsval) : option ParseResult :=
  parsePlanMarkdown_with extractMarkdownParts content.

(** [formatParseError] *)
Definition formatParseError (error hint : jsstring) : jsstring :=
  u "❌ Plan validation failed:

" ++ error ++ u "

💡 " ++ hint.
End Schema.

(* ================================================================== *)
(** * The host: errors, sessions, files *)
(* ================================================================== *)

(** A thrown value: whether it is an [Error] instance, and its [code]
    property when it has one. *)
Record js_error := mkError {
  e_is_Error : bool;
  e_code : option jsstring;
  e_message : jsstring
}.

Definition Error (message : jsstring) : js_error := mkError true None message.

(** How an [async] function ends; [Diverge] is a scan that does not end. *)
Inductive outcome (A : Type) :=
| Return (a : A)
| Throw (e : js_error)
| Diverge.
Arguments Return {A} a.
Arguments Throw {A} e.
Arguments Diverge {A}.

(** [isNodeError] *)
Definition isNodeError (error : js_error) : bool :=
  e_is_Error error && bool_decide (is_Some (e_code error)).

(** The answer of [ctx.client.session.get]: a rejection, or a response
    whose [data], when present, has an optional [parentID]. *)
Inductive session_response :=
| SessionRejects (e : js_error)
| SessionResponse (data : option (option jsstring)).

(** [!session.data?.parentID]: no data, no parent, or the empty string. *)
Definition parentID_of (r : option (option jsstring)) : option jsstring :=
  match r with
  | Some (Some (c :: p)) => Some (c :: p)
  | _ => None
  end.

Section Sessions.
Variable session_get : jsstring -> session_response.

(** The [for] loop of [getRootSessionID] with [remaining = 10 - depth]
    rounds to go. *)
Fixpoint getRootSessionID_loop (remaining : nat) (currentID : jsstring)
  : outcome jsstring :=
  match remaining with
  | O => Throw (Error (u "Failed to resolve root session: maximum traversal depth exceeded"))
  | S remaining' =>
    match session_get currentID with
    | SessionRejects e => Throw e
    | SessionResponse data =>
      match parentID_of data with
      | None => Return currentID
      | Some parent => getRootSessionID_loop remaining' parent
      end
    end
  end.

Definition getRootSessionID (sessionID : option jsstring) : outcome jsstring :=
  match sessionID with
  | Some (c :: s) => getRootSessionID_loop 10 (c :: s)
  | _ => Throw (Error (u "sessionID is required to resolve root session scope"))
  end.
End Sessions.

(** ** Text written and read as utf8

    A file is written and read with the [utf8] encoding.  A surrogate pair
    is stored as one code point and read back as the pair; a surrogate
    without its partner has no encoding and is stored as U+FFFD.  What is
    read back is the text made well formed. *)
Definition is_high_surrogate (c : N) : bool := (0xD800 <=? c) && (c <=? 0xDBFF).
Definition is_low_surrogate (c : N) : bool := (0xDC00 <=? c) && (c <=? 0xDFFF).

Definition REPLACEMENT : N := 0xFFFD.

(** [s.toWellFormed()] *)
Fixpoint toWellFormed (s : jsstring) : jsstring :=
  match s with
  | [] => []
  | c :: r =>
    if is_high_surrogate c then
      match r with
      | d :: r' =>
        if is_low_surrogate d then c :: d :: toWellFormed r'
        else REPLACEMENT :: toWellFormed r
      | [] => [REPLACEMENT]
      end
    else if is_low_surrogate c then REPLACEMENT :: toWellFormed r
    else c :: toWellFormed r
  end.

(** [s.isWellFormed()] *)
Fixpoint isWellFormed (s : jsstring) : bool :=
  match s with
  | [] => true
  | c :: r =>
    if is_high_surrogate c then
      match r with
      | d :: r' => is_low_surrogate d && isWellFormed r'
      | [] => false
      end
    else negb (is_low_surrogate c) && isWellFormed r
  end.

(** ** The file system

    The files hold the text their bytes decode to; the directories that
    exist are kept by path, and a file can be written only into one of
    them.  [fs_mkdir_error], [fs_write_error] and [fs_read_error] are the
    errors the system raises for a path from any other cause (permissions,
    a full disk, a directory in the way). *)
Record filesystem := mkFs {
  fs_files : gmap jsstring jsstring;
  fs_dirs : gset jsstring;
  fs_mkdir_error : jsstring -> option js_error;
  fs_write_error : jsstring -> option js_error;
  fs_read_error : jsstring -> option js_error
}.

Definition ENOENT (path : jsstring) : js_error :=
  mkError true (Some (u "ENOENT"))
          (u "ENOENT: no such file or directory, open '" ++ path ++ u "'").

Definition SLASH : N := 47.

(** The directory a path lies in, for a path in the form [path.join]
    gives: the text before the last slash; the root for a path right under
    it, and [.] for a path without a slash. *)
Definition dirname (path : jsstring) : jsstring :=
  match rev (drop 1 (drop_while (fun c => negb (c =? SLASH)) (rev path))) with
  | [] => if bool_decide (head path = Some SLASH) then [SLASH] else u "."
  | d => d
  end.

(** A directory and the directories above it, nearest first. *)
Fixpoint dir_chain (fuel : nat) (dir : jsstring) : list jsstring :=
  match fuel with
  | O => [dir]
  | S fuel' =>
    if bool_decide (dirname dir = dir) then [dir]
    else dir :: dir_chain fuel' (dirname dir)
  end.

(** [fs.mkdir(dir, { recursive: true })]: the directory and those above it
    exist afterwards. *)
Definition fs_mkdir (fs : filesystem) (dir : jsstring) : filesystem * outcome unit :=
  match fs_mkdir_error fs dir with
  | Some e => (fs, Throw e)
  | None =>
    (mkFs (fs_files fs) (list_to_set (dir_chain (length dir) dir) ∪ fs_dirs fs)
          (fs_mkdir_error fs) (fs_write_error fs) (fs_read_error fs), Return tt)
  end.

(** [fs.writeFile(path, text, "utf8")]: without the directory of the path
    the write fails with ENOENT. *)
Definition fs_writeFile (fs : filesystem) (path text : jsstring)
  : filesystem * outcome unit :=
  match fs_write_error fs path with
  | Some e => (fs, Throw e)
  | None =>
    if bool_decide (dirname path ∈ fs_dirs fs) then
      (mkFs (<[path := toWellFormed text]> (fs_files fs)) (fs_dirs fs)
            (fs_mkdir_error fs) (fs_write_error fs) (fs_read_error fs), Return tt)
    else (fs, Throw (ENOENT path))
  end.

(** [fs.readFile(path, "utf8")] *)
Definition fs_readFile (fs : filesystem) (path : jsstring) : outcome jsstring :=
  match fs_read_error fs path with
  | Some e => Throw e
  | None =>
    match fs_files fs !! path with
    | Some text => Return text
    | None => Throw (ENOENT path)
    end
  end.

(* ================================================================== *)
(** * The plan tools *)
(* ================================================================== *)

Section Plugin.
Variable defaultMessage : issue_code -> jsstring.
(** [path.join] and [os.homedir()] of the platform. *)
Variable path_join : list jsstring -> jsstring.
Variable homedir : jsstring.
Variable session_get : jsstring -> session_response.
(** The identity [getProjectId(directory)] gave when the plugin started. *)
Variable projectId : jsstring.

Definition baseDir : jsstring :=
  path_join [homedir; u ".local"; u "share"; u "opencode"; u "workspace"; projectId].

Definition planPath_save (rootID : jsstring) : jsstring :=
  path_join [path_join [baseDir; rootID]; u "plan.md"].

Definition planPath_read (rootID : jsstring) : jsstring :=
  path_join [baseDir; rootID; u "plan.md"].

Definition falsy (sessionID : option jsstring) : bool :=
  match sessionID with
  | Some (_ :: _) => false
  | _ => true
  end.

Definition planSavedMessage (warnings : list jsstring) : jsstring :=
  u "Plan saved."
  ++ match warnings with
     | [] => []
     | _ => u " (" ++ nat_to_string (length warnings) ++ u " warnings: "
              ++ join_with (u ", ") warnings ++ u ")"
     end.

(** [plan_save.execute(args, toolCtx)] *)
Definition plan_save (fs : filesystem) (content : jsstring)
    (sessionID : option jsstring) : filesystem * outcome jsstring :=
  if falsy sessionID then
    (fs, Return (u "❌ plan_save requires sessionID. This is a system error."))
  else
    match getRootSessionID session_get sessionID with
    | Throw e => (fs, Throw e)
    | Diverge => (fs, Diverge)
    | Return rootID =>
      let sessionDir := path_join [baseDir; rootID] in
      match fs_mkdir fs sessionDir with
      | (fs1, Throw e) => (fs1, Throw e)
      | (fs1, Diverge) => (fs1, Diverge)
      | (fs1, Return _) =>
        match parsePlanMarkdown defaultMessage (VString content) with
        | None => (fs1, Diverge)
        | Some (ParseError error hint) =>
          (fs1, Return (formatParseError error hint))
        | Some (ParseOk _ warnings) =>
          match fs_writeFile fs1 (path_join [sessionDir; u "plan.md"]) content with
          | (fs2, Throw e) => (fs2, Throw e)
          | (fs2, Diverge) => (fs2, Diverge)
          | (fs2, Return _) => (fs2, Return (planSavedMessage warnings))
          end
        end
      end
    end.

(** [plan_read.execute(_args, toolCtx)] *)
Definition plan_read (fs : filesystem) (sessionID : option jsstring)
  : outcome jsstring :=
  if falsy sessionID then
    Return (u "❌ plan_read requires sessionID. This is a system error.")
  else
    match getRootSessionID session_get sessionID with
    | Throw e => Throw e
    | Diverge => Diverge
    | Return rootID =>
      match fs_readFile fs (planPath_read rootID) with
      | Throw error =>
        if isNodeError error && bool_decide (e_code error = Some (u "ENOENT"))
        then Return (u "No plan found.")
        else Throw error
      | r => r
      end
    end.
End Plugin.

(* ================================================================== *)
(** * The hooks of the plugin *)
(* ================================================================== *)

(** [activeCoderCalls]: the coder tasks in flight, by call id, each with
    the time it started at, in milliseconds. *)
Abbreviation coder_calls := (gmap jsstring Z).

Definition STALE_CALL_TIMEOUT_MS : Z := 15 * 60 * 1000.

(** The body of the loop of the periodic sweep, for one entry. *)
Definition sweep_entry (now : Z) (calls : coder_calls) (entry : jsstring * Z)
  : coder_calls :=
  if (STALE_CALL_TIMEOUT_MS <? now - entry.2)%Z then delete entry.1 calls else calls.

(** The callback of [cleanupInterval]: the entries of the map are visited
    one by one, and the visited one is deleted when it is stale. *)
Definition cleanupInterval_callback (now : Z) (calls : coder_calls) : coder_calls :=
  fold_left (sweep_entry now) (map_to_list calls) calls.

(** The hook [tool.execute.before]; [subagent_type] is
    [output.args?.subagent_type]. *)
Definition tool_execute_before (now : Z) (tool : jsstring)
    (callID subagent_type : option jsstring) (calls : coder_calls) : coder_calls :=
  if bool_decide (tool ≠ u "task") then calls
  else if falsy callID then calls
  else if bool_decide (subagent_type ≠ Some (u "coder")) then calls
  else <[default [] callID := now]> calls.

Definition planSavedReminder : jsstring := u "

<system-reminder>
Plan saved successfully. You MUST now delegate to the reviewer:
1. Use the `delegate` tool to send the plan to the `reviewer` agent
2. The reviewer will load `plan-review` and `code-philosophy` skills
3. Use `plan_read` to get the plan content for the delegation prompt
4. This is NON-BLOCKING - continue work while review runs in background
</system-reminder>".

Definition coderCompleteReminder : jsstring := u "

<system-reminder>
Coder task complete. Proceed to code review:
1. Delegate to `reviewer` agent with the changed files
2. Include findings in your completion report
3. Offer to fix any critical/major issues found
</system-reminder>".

(** The hook [tool.execute.after]: the table of calls and [output.output]
    after it. *)
Definition tool_execute_after (tool : jsstring) (callID : option jsstring)
    (calls : coder_calls) (output : jsstring) : coder_calls * jsstring :=
  if bool_decide (tool = u "plan_save") then (calls, output ++ planSavedReminder)
  else if falsy callID then (calls, output)
  else
    let call := default [] callID in
    if bool_decide (is_Some (calls !! call)) then
      let calls' := delete call calls in
      (calls', if bool_decide (size calls' = 0%nat)
               then output ++ coderCompleteReminder else output)
    else (calls, output).

(** [/← CURRENT/] *)
Definition currentRegex : regex := Lit (u "← CURRENT").

(** [/\d+\.\d+ [^\n←]+/] *)
Definition resumeRegex : regex :=
  seqs [Plus (Cls is_digit); Lit (u "."); Plus (Cls is_digit); Lit (u " ");
        Plus (Cls not_arrow_nl)].

(** [match.index] *)
Definition m_index (input : jsstring) (m : rmatch_result) : nat :=
  (length input - length (m_start m))%nat.

(** [s.slice(start, end)] for indices that are not negative. *)
Definition slice (s : jsstring) (start end_ : Z) : jsstring :=
  take (Z.to_nat end_ - Z.to_nat start) (drop (Z.to_nat start) s).

(** The task the compaction hook reports: the first text of the shape of
    a task in the 100 code units before the first marker and the 50 from
    it on. *)
Definition currentTask (planContent : jsstring) : option jsstring :=
  match str_match currentRegex planContent with
  | Some currentMatch =>
    let index := Z.of_nat (m_index planContent currentMatch) in
    let start := Z.max 0 (index - 100) in
    let end_ := (index + 50)%Z in
    m_text <$> str_match resumeRegex (slice planContent start end_)
  | None => None
  end.

(** The entry pushed to [output.context]. *)
Definition workspaceContext (planContent : jsstring) (task : option jsstring)
  : jsstring :=
  u "<workspace-context>
## Current Plan
" ++ planContent ++ u "

## Resume Point
" ++ match task with
     | Some (c :: t) => u "Current task: " ++ c :: t
     | _ => u "No task marked as CURRENT"
     end ++ u "

## Verification
To verify any cited decision, use `delegation_read(" ++ [QUOTE] ++ u "ref:id"
  ++ [QUOTE] ++ u ")`.
</workspace-context>".

Section Hooks.
Variable path_join : list jsstring -> jsstring.
Variable homedir : jsstring.
Variable session_get : jsstring -> session_response.
Variable projectId : jsstring.

(** The hook [experimental.session.compacting]: [output.context] after it. *)
Definition session_compacting (fs : filesystem) (sessionID : option jsstring)
    (context : list jsstring) : outcome (list jsstring) :=
  match getRootSessionID session_get sessionID with
  | Throw e => Throw e
  | Diverge => Diverge
  | Return rootID =>
    match fs_readFile fs (planPath_read path_join homedir projectId rootID) with
    | Throw error =>
      if negb (isNodeError error) || bool_decide (e_code error ≠ Some (u "ENOENT"))
      then Throw error
      else Return context
    | Diverge => Diverge
    | Return [] => Return context
    | Return planContent =>
      Return (context ++ [workspaceContext planContent (currentTask planContent)])
    end
  end.
End Hooks.

Section SystemTransform.
(** The two rule texts, constants of the source. *)
Variable PLAN_RULES BUILD_RULES : jsstring.

Definition dateAwareness (today year : jsstring) : jsstring :=
  u "<date-awareness>
Today is " ++ today ++ u ". When searching for documentation, APIs, or external resources, use the current year (" ++ year ++ u "). Do not default to outdated years from training data.
</date-awareness>".

(** The hook [experimental.chat.system.transform]: [output.system] after
    it.  [isoString] is [new Date().toISOString()] and [fullYear] is
    [new Date().getFullYear()] at the call. *)
Definition system_transform (isoString : jsstring) (fullYear : nat)
    (agent : option jsstring) (system : list jsstring) : list jsstring :=
  let today := default [] (head (split_on 84 isoString)) in
  system ++ [dateAwareness today (nat_to_string fullYear)]
    ++ (if bool_decide (agent = Some (u "plan")) then [PLAN_RULES]
        else if bool_decide (agent = Some (u "build")) then [BUILD_RULES]
        else []).
End SystemTransform.

(* ================================================================== *)
(** * Project identity: [getProjectId] *)
(* ================================================================== *)

Inductive stat_kind := IsFile | IsDirectory | IsOther.

(** How the bounded run of [git rev-list --max-parents=0 --all] ends. *)
Inductive git_run :=
| SpawnThrows (e : js_error)
| TimedOut
| Exited (exitCode : Z) (stdout stderr : jsstring).

(** What [getProjectId] sees of the machine: [stat] (with its failure
    turned into null), the files [Bun.file] reads, the git run for a
    working directory, and the errors [Bun.write] raises. *)
Record repo := mkRepo {
  r_stat : jsstring -> option stat_kind;
  r_files : gmap jsstring jsstring;
  r_git : jsstring -> git_run;
  r_write_error : jsstring -> option js_error
}.

(** [/^gitdir:\s*(.+)$/m] *)
Definition gitdirRegex : regex :=
  seqs [Bol; Lit (u "gitdir:"); Star true (Cls is_space);
        Group 1 (Plus (Cls dot_char)); Eol].

(** [/^[a-f0-9]{40}$/i] and [/^[a-f0-9]{16}$/i] *)
Definition hex40Regex : regex := seqs [Bos; Rep 40 (Cls is_hex); Eos].
Definition hex16Regex : regex := seqs [Bos; Rep 16 (Cls is_hex); Eos].

(** The default order of [Array.prototype.sort]: strings by code units. *)
Fixpoint str_ltb (a b : jsstring) : bool :=
  match a, b with
  | _, [] => false
  | [], _ :: _ => true
  | x :: a', y :: b' =>
    if x <? y then true else if y <? x then false else str_ltb a' b'
  end.

Fixpoint insert_sorted (x : jsstring) (l : list jsstring) : list jsstring :=
  match l with
  | [] => [x]
  | y :: l' => if str_ltb x y then x :: l else y :: insert_sorted x l'
  end.

(** [xs.sort()]; the order is total on strings, so every sorting method
    gives this list. *)
Definition sort_strings (l : list jsstring) : list jsstring :=
  fold_right insert_sorted [] l.

(** [output.split("\n").filter(Boolean).map((x) => x.trim()).sort()] *)
Definition roots_of_output (output : jsstring) : list jsstring :=
  sort_strings (map trim (filter (fun x => x ≠ []) (split_on LF output))).

Section ProjectId.
Variable path_join : list jsstring -> jsstring.
Variable path_resolve : jsstring -> jsstring -> jsstring.
(** [crypto.createHash("sha256").update(s).digest("hex")] *)
Variable sha256_hex : jsstring -> jsstring.

(** [hashPath] *)
Definition hashPath (projectRoot : jsstring) : jsstring :=
  take 16 (sha256_hex projectRoot).

(** The worktree branch: the directory the [.git] file points to. *)
Definition resolve_worktree (r : repo) (projectRoot gitPath : jsstring)
  : outcome jsstring :=
  match r_files r !! gitPath with
  | None => Throw (ENOENT gitPath)
  | Some content =>
    match str_match gitdirRegex content with
    | None =>
      Throw (Error (u "getProjectId: .git file exists but has invalid format at "
                      ++ gitPath))
    | Some m =>
      let gitdirPath := trim (group m 1) in
      let resolvedGitdir := path_resolve projectRoot gitdirPath in
      let commondirPath := path_join [resolvedGitdir; u "commondir"] in
      let gitDir :=
        match r_files r !! commondirPath with
        | Some commondirContent => path_resolve resolvedGitdir (trim commondirContent)
        | None => path_resolve resolvedGitdir (u "../..")
        end in
      match r_stat r gitDir with
      | Some IsDirectory => Return gitDir
      | _ =>
        Throw (Error (u "getProjectId: Resolved gitdir " ++ gitDir
                        ++ u " is not a directory"))
      end
    end
  end.

(** [Bun.write(cacheFile, projectId)] inside its [try]: a failure is
    logged and the files stay as they are. *)
Definition write_cache (r : repo) (cacheFile projectId : jsstring) : repo :=
  match r_write_error r cacheFile with
  | Some _ => r
  | None =>
    mkRepo (r_stat r) (<[cacheFile := projectId]> (r_files r)) (r_git r)
           (r_write_error r)
  end.

(** From the [try] around the git run to the end of the function. *)
Definition generate_id (r : repo) (projectRoot cacheFile : jsstring)
  : repo * outcome jsstring :=
  match r_git r projectRoot with
  | Exited 0 output _ =>
    match roots_of_output output with
    | projectId :: _ =>
      if regex_test hex40Regex projectId
      then (write_cache r cacheFile projectId, Return projectId)
      else (r, Return (hashPath projectRoot))
    | [] => (r, Return (hashPath projectRoot))
    end
  | _ => (r, Return (hashPath projectRoot))
  end.

(** From [// Check cache] on. *)
Definition cached_or_generate (r : repo) (projectRoot gitDir : jsstring)
  : repo * outcome jsstring :=
  let cacheFile := path_join [gitDir; u "opencode"] in
  match r_files r !! cacheFile with
  | Some text =>
    let cached := trim text in
    if regex_test hex40Regex cached || regex_test hex16Regex cached
    then (r, Return cached)
    else generate_id r projectRoot cacheFile
  | None => generate_id r projectRoot cacheFile
  end.

(** Up to [// Check cache]: the metadata directory, when there is a
    [.git] entry; anything but a file is taken as the directory. *)
Definition locate_gitDir (r : repo) (projectRoot : jsstring)
  : option (outcome jsstring) :=
  let gitPath := path_join [projectRoot; u ".git"] in
  match r_stat r gitPath with
  | None => None
  | Some IsFile => Some (resolve_worktree r projectRoot gitPath)
  | Some _ => Some (Return gitPath)
  end.

Definition getProjectId (r : repo) (projectRoot : jsstring)
  : repo * outcome jsstring :=
  match projectRoot with
  | [] =>
    (r, Throw (Error (u "getProjectId: projectRoot is required and must be a string")))
  | _ =>
    match locate_gitDir r projectRoot with
    | None => (r, Return (hashPath projectRoot))
    | Some (Return gitDir) => cached_or_generate r projectRoot gitDir
    | Some (Throw e) => (r, Throw e)
    | Some Diverge => (r, Diverge)
    end
  end.
End ProjectId.

(* ================================================================== *)
(** * The canonical plan format *)
(* ================================================================== *)

(** A plan document as its author lays it out: the frontmatter, the goal
    line and the phase blocks with their task lines. *)
Record CanonTask := mkCanonTask {
  ct_checked : bool;
  ct_major : jsstring;
  ct_minor : jsstring;
  ct_text : jsstring;
  ct_current : bool
}.

Record CanonPhase := mkCanonPhase {
  cp_number : jsstring;
  cp_name : jsstring;
  cp_status : jsstring;
  cp_tasks : list CanonTask
}.

Record CanonPlan := mkCanonPlan {
  c_status : jsstring;
  c_phase : jsstring;
  c_updated : jsstring;
  c_goal : jsstring;
  c_phases : list CanonPhase
}.

(** [- [ ] a.b text] or [- [x] a.b text], marked or not. *)
Definition task_line (t : CanonTask) : jsstring :=
  u "- [" ++ [if ct_checked t then 120 else 32] ++ u "] "
    ++ ct_major t ++ u "." ++ ct_minor t ++ u " " ++ ct_text t
    ++ (if ct_current t then u " ← CURRENT" else []).

Definition render_task (t : CanonTask) : jsstring := task_line t ++ [LF].

Definition render_tasks (ts : list CanonTask) : jsstring :=
  concat (map render_task ts).

(** [## Phase N: name [STATUS]] and the task lines. *)
Definition render_phase (p : CanonPhase) : jsstring :=
  u "## Phase " ++ cp_number p ++ u ": " ++ cp_name p ++ u " [" ++ cp_status p
    ++ u "]
" ++ render_tasks (cp_tasks p).

Definition render_phases (ps : list CanonPhase) : jsstring :=
  concat (map render_phase ps).

Definition render_plan (c : CanonPlan) : jsstring :=
  u "---
status: " ++ c_status c ++ u "
phase: " ++ c_phase c ++ u "
updated: " ++ c_updated c ++ u "
---
## Goal
" ++ c_goal c ++ [LF] ++ render_phases (c_phases c).

(** The conditions on the parts. *)
Definition nonempty {A} (l : list A) : bool :=
  match l with [] => false | _ => true end.

Definition is_digits (s : jsstring) : bool := nonempty s && forallb is_digit s.


(** [YYYY-MM-DD] *)
Definition date_shape (d : jsstring) : bool :=
  match d with
  | [y1; y2; y3; y4; h1; m1; m2; h2; d1; d2] =>
    forallb is_digit [y1; y2; y3; y4; m1; m2; d1; d2] && (h1 =? 45) && (h2 =? 45)
  | _ => false
  end.

Definition task_text_char (c : N) : bool :=
  negb ((c =? LF) || (c =? LARROW)).

(** A task line the task pattern reads whole: an id of two numerals, and a
    text without line break or arrow that is not empty once trimmed and rid
    of its bold marks. *)
Definition task_ok (t : CanonTask) : bool :=
  is_digits (ct_major t) && is_digits (ct_minor t)
  && forallb task_text_char (ct_text t)
  && nonempty (remove_double_star (trim (ct_text t))).







(** The plan such a document stands for, in document order. *)
Definition plan_task (t : CanonTask) : Task :=
  mkTask (ct_major t ++ u "." ++ ct_minor t) (ct_checked t)
         (remove_double_star (trim (ct_text t))) (Some (ct_current t)) None.

Definition plan_phase (p : CanonPhase) : Phase :=
  mkPhase (digits_value (cp_number p)) (trim (cp_name p)) (cp_status p)
          (map plan_task (cp_tasks p)).

Definition plan_of (c : CanonPlan) : Plan :=
  mkPlan (<[u "updated" := FStr (c_updated c)]>
            (<[u "phase" := FNum (Num (digits_value (c_phase c)))]>
               (<[u "status" := FStr (c_status c)]> ∅)))
         (trim (c_goal c)) None (map plan_phase (c_phases c)).


(* ================================================================== *)
(** * Properties of matches, of session graphs and of repositories *)
(* ================================================================== *)

(** A matcher moves forward: whatever comes back is the continuation's
    answer at a state further along the input. *)
Definition forward (body : mstate -> (mstate -> option mstate) -> option mstate) : Prop :=
  forall st k x, body st k = Some x ->
    exists st1, rest st1 `suffix_of` rest st /\ k st1 = Some x.

(** A matcher that asks its continuation about states further along the
    input only: two continuations that agree there give the same result. *)
Definition local_cont (body : mstate -> (mstate -> option mstate) -> option mstate) : Prop :=
  forall st k1 k2,
    (forall st1, (length (rest st1) <= length (rest st))%nat -> k1 st1 = k2 st1) ->
    body st k1 = body st k2.

(** Matches in the order of the text: each starts at or after [from], ends
    at or after its start, and the next ones come after its end. *)
Inductive in_order : jsstring -> list rmatch_result -> Prop :=
| in_order_nil from : in_order from []
| in_order_cons from m ms :
    m_start m `suffix_of` from ->
    m_end m `suffix_of` m_start m ->
    in_order (m_end m) ms ->
    in_order from (m :: ms).

(** A pattern every match of which takes at least one character. *)
Definition consuming (input : jsstring) (r : regex) : Prop :=
  forall st k x, rmatch input r st k = Some x ->
    exists st1, (length (rest st1) < length (rest st))%nat /\ k st1 = Some x.

(** The end of a run of a class: no more of it follows. *)
Definition run_ends (p : N -> bool) (r : jsstring) : Prop :=
  match r with
  | [] => True
  | x :: _ => p x = false
  end.

(** The tasks the extraction flagged current, over all phases. *)
Definition marked_tasks (parts : ExtractedParts) : list RawTask :=
  filter (fun t => x_isCurrent t = true) (concat (map x_tasks (x_phases parts))).

(** A frontmatter line that sets one of the keys of the schema. *)
Definition is_schema_line (line : jsstring) : bool :=
  match split_on COLON line with
  | key :: _ => bool_decide (trim key ∈ FrontmatterSchema_keys)
  | [] => false
  end.

Definition agree_on_schema (fm1 fm2 : gmap jsstring fmvalue) : Prop :=
  forall k, k ∈ FrontmatterSchema_keys -> fm1 !! k = fm2 !! k.

(** [top] is reached from [s] by exactly [n] parent links, and has none. *)
Fixpoint parent_chain (session_get : jsstring -> session_response)
    (n : nat) (s top : jsstring) : Prop :=
  match n with
  | O => (exists data, session_get s = SessionResponse data /\ parentID_of data = None)
         /\ top = s
  | S n' => exists p, (exists data, session_get s = SessionResponse data
                         /\ parentID_of data = Some p)
                      /\ parent_chain session_get n' p top
  end.

(** At least [n] parent links can be followed from [s]; a cycle has any
    number of them. *)
Fixpoint has_links (session_get : jsstring -> session_response)
    (n : nat) (s : jsstring) : Prop :=
  match n with
  | O => True
  | S n' => exists p, (exists data, session_get s = SessionResponse data
                         /\ parentID_of data = Some p)
                      /\ has_links session_get n' p
  end.

Definition depthExceeded : js_error :=
  Error (u "Failed to resolve root session: maximum traversal depth exceeded").

(** [m] is the least element of [l] in the order of [sort]. *)
Definition least (l : list jsstring) (m : jsstring) : Prop :=
  In m l /\ forall x, In x l -> str_ltb x m = false.

(** What git prints for a list of commits: one hash per line. *)
Definition git_output (hashes : list jsstring) : jsstring :=
  concat (map (fun h => h ++ [LF]) hashes).

(** A full commit hash: forty hexadecimal digits. *)
Definition is_hash (h : jsstring) : Prop :=
  length h = 40%nat /\ Forall (fun c => is_hex c = true) h.

(** A cache content of neither accepted shape. *)
Definition malformed (cached : jsstring) : Prop :=
  regex_test hex40Regex cached = false /\ regex_test hex16Regex cached = false.

(** No cache file, or one with malformed content. *)
Definition cache_unusable (r : repo) (file : jsstring) : Prop :=
  match r_files r !! file with
  | None => True
  | Some text => malformed (trim text)
  end.

(** ** What a canonical document is read as *)

Definition raw_task (t : CanonTask) : RawTask :=
  mkRawTask (ct_major t ++ u "." ++ ct_minor t) (ct_checked t)
            (remove_double_star (trim (ct_text t))) (ct_current t) None.






Definition no_hash (x : N) : bool := negb (x =? HASH).



(** No closing fence starts inside [w] when [r] follows it. *)
Definition fence_free (w r : jsstring) : Prop :=
  forall w1 w2, w = w1 ++ w2 -> w2 <> [] -> strip_lit (u "
---") (w2 ++ r) = None.

(* ================================================================== *)
(** * Properties of sessions, stores, plans and hooks *)
(* ================================================================== *)

(** [a] is reached from [s] by [m] parent links. *)
Fixpoint ancestor (session_get : jsstring -> session_response)
    (m : nat) (s a : jsstring) : Prop :=
  match m with
  | O => a = s
  | S m' => exists p, (exists data, session_get s = SessionResponse data
                         /\ parentID_of data = Some p)
                      /\ ancestor session_get m' p a
  end.

Section StoreRuns.
Variable defaultMessage : issue_code -> jsstring.
Variable path_join : list jsstring -> jsstring.
Variable homedir : jsstring.
Variable session_get : jsstring -> session_response.
Variable projectId : jsstring.

(** The content validates. *)
Definition accepted (content : jsstring) : bool :=
  match parsePlanMarkdown defaultMessage (VString content) with
  | Some (ParseOk _ _) => true
  | _ => false
  end.

(** The file system after the [plan_save] calls of [calls], in order: each
    is the session that calls and the content it gives. *)
Definition save_all (fs : filesystem) (calls : list (option jsstring * jsstring))
  : filesystem :=
  fold_left
    (fun fs call =>
       (plan_save defaultMessage path_join homedir session_get projectId
                  fs call.2 call.1).1)
    calls fs.
End StoreRuns.

(** ** What the schema promises of a plan it passes *)

(** [N.M], both decimal numerals. *)
Definition task_id_shape (id : jsstring) : Prop :=
  exists a b, is_digits a = true /\ is_digits b = true /\ id = a ++ u "." ++ b.

Definition is_word (w : jsstring) : Prop :=
  w <> [] /\ Forall (fun c => is_lower c = true) w.

(** [ref:word-word-word] *)
Definition citation_shape (c : jsstring) : Prop :=
  exists w1 w2 w3, is_word w1 /\ is_word w2 /\ is_word w3
    /\ c = u "ref:" ++ w1 ++ u "-" ++ w2 ++ u "-" ++ w3.

Definition valid_task (t : Task) : Prop :=
  task_id_shape (t_id t)
  /\ t_content t <> []
  /\ forall c, t_citation t = Some c -> citation_shape c.

Definition valid_phase (p : Phase) : Prop :=
  (0 < p_number p <= MAX_SAFE_INTEGER)%Z
  /\ p_name p <> []
  /\ p_status p ∈ PhaseStatus
  /\ p_tasks p <> []
  /\ Forall valid_task (p_tasks p).

Definition valid_frontmatter (fm : gmap jsstring fmvalue) : Prop :=
  (exists s, fm !! u "status" = Some (FStr s) /\ s ∈ PlanStatus)
  /\ (exists z, fm !! u "phase" = Some (FNum (Num z))
                /\ (0 < z <= MAX_SAFE_INTEGER)%Z)
  /\ (exists d, fm !! u "updated" = Some (FStr d) /\ date_shape d = true)
  /\ forall k, is_Some (fm !! k) -> k ∈ FrontmatterSchema_keys.

Definition valid_plan (data : Plan) : Prop :=
  valid_frontmatter (frontmatter data)
  /\ (10 <= length (goal data))%nat
  /\ phases data <> []
  /\ Forall valid_phase (phases data)
  /\ (currentCount data <= 1)%nat.

(** [lit] occurs in [s]. *)
Definition occurs (lit s : jsstring) : Prop :=
  exists pre post, s = pre ++ lit ++ post.

(** [occurs], computed. *)
Fixpoint occursb (lit s : jsstring) : bool :=
  match strip_lit lit s with
  | Some _ => true
  | None =>
    match s with
    | [] => false
    | _ :: s' => occursb lit s'
    end
  end.

(** ** Runs of the hooks *)

(** The before-hook at the start of each coder task of [starts] (call id
    and time), in order. *)
Definition start_coder_tasks (starts : list (jsstring * Z)) (calls : coder_calls)
  : coder_calls :=
  fold_left
    (fun calls start =>
       tool_execute_before start.2 (u "task") (Some start.1) (Some (u "coder")) calls)
    starts calls.

(** The after-hook at the completion of each call of [ids], in order, each
    with an empty output: the table at the end and the outputs. *)
Fixpoint complete_tasks (ids : list jsstring) (calls : coder_calls)
  : coder_calls * list jsstring :=
  match ids with
  | [] => (calls, [])
  | call :: ids' =>
    let r := tool_execute_after (u "task") (Some call) calls [] in
    let rs := complete_tasks ids' r.1 in
    (rs.1, r.2 :: rs.2)
  end.

(** ** Task lines of a phase body *)

(** [- [ ] **a.b text**], marked or not, as the README writes the current
    task. *)
Definition bold_task_line (t : CanonTask) : jsstring :=
  u "- [" ++ [if ct_checked t then 120 else 32] ++ u "] " ++ u "**"
    ++ ct_major t ++ u "." ++ ct_minor t ++ u " " ++ ct_text t ++ u "**"
    ++ (if ct_current t then u " ← CURRENT" else []).

(** A task that may be written in bold: the text has no star and neither
    begins nor ends with white space. *)
Definition bold_task_ok (t : CanonTask) : bool :=
  task_ok t
  && forallb (fun x => negb (x =? STAR)) (ct_text t)
  && bool_decide (trimStart (ct_text t) = ct_text t)
  && bool_decide (trimEnd (ct_text t) = ct_text t).

(** A task line in one of the two styles, after free text without a
    hyphen: blank lines, notes. *)
Record TaskItem := mkTaskItem {
  ti_before : jsstring;
  ti_bold : bool;
  ti_task : CanonTask
}.

Definition HYPHEN : N := 45.

Definition task_item_text (item : TaskItem) : jsstring :=
  ti_before item
    ++ (if ti_bold item then bold_task_line (ti_task item)
        else task_line (ti_task item))
    ++ [LF].

Definition task_item_ok (item : TaskItem) : bool :=
  forallb (fun x => negb (x =? HYPHEN)) (ti_before item)
  && (if ti_bold item then bold_task_ok (ti_task item)
      else task_ok (ti_task item)).

(** A phase body: the items, and free text after the last. *)
Definition render_task_items (items : list TaskItem) (after : jsstring) : jsstring :=
  concat (map task_item_text items) ++ after.

(** ** Lines between the fences *)

(** A pattern without [^]: it never looks at what lies before. *)
Fixpoint anchor_free (r : regex) : bool :=
  match r with
  | Bos | Bol => false
  | Seq a b | Alt a b => anchor_free a && anchor_free b
  | Star _ a | Opt a | Group _ a | Look a => anchor_free a
  | _ => true
  end.

(** A document: the lines between the fences, and what follows the
    closing fence. *)
Definition fm_doc (lines : list jsstring) (after : jsstring) : jsstring :=
  u "---
" ++ join_with [LF] lines ++ u "
---" ++ after.

(** A line that may stand between the fences without being taken for a
    fence or for the start of the goal or of a phase. *)
Definition fm_line_ok (line : jsstring) : bool :=
  forallb (fun x => negb (x =? LF)) line
  && negb (bool_decide (is_Some (strip_lit (u "---") line)))
  && negb (occursb (u "## Goal") line)
  && negb (occursb (u "## Phase ") line).

(** [lit] starts nowhere in [s]. *)
Definition starts_nowhere (lit s : jsstring) : Prop :=
  forall s1 s2, s = s1 ++ s2 -> strip_lit lit s2 = None.

(** ** Error texts *)

(** A text of one line. *)
Definition one_line (s : jsstring) : Prop := Forall (fun c => c <> LF) s.

(** An issue all of whose texts are of one line, and without the input. *)
Definition clean_issue (issue : ZodIssue) : Prop :=
  Forall (fun e => one_line (path_elem_string e)) (i_path issue)
  /\ one_line (i_message issue)
  /\ (forall values, i_values issue = Some values -> Forall one_line values)
  /\ i_input issue = None.

(** A path all of whose elements are of one line. *)
Definition clean_path (path : list path_elem) : Prop :=
  Forall (fun e => one_line (path_elem_string e)) path.

(* ================================================================== *)
(** * Concrete inputs *)
(* ================================================================== *)

(** The library's fallback text for every built-in issue. *)
Definition plainMessages (code : issue_code) : jsstring := u "Invalid input".

(** Scenario A of the specification, as a layout and as text. *)
Definition scenarioA_plan : CanonPlan :=
  mkCanonPlan (u "in-progress") (u "1") (u "2025-01-01") (u "Ship the thing")
    [mkCanonPhase (u "1") (u "Setup") (u "IN PROGRESS")
       [mkCanonTask false (u "1") (u "1") (u "Do it") true]].

Definition scenarioA : jsstring := u "---
status: in-progress
phase: 1
updated: 2025-01-01
---
## Goal
Ship the thing
## Phase 1: Setup [IN PROGRESS]
- [ ] 1.1 Do it ← CURRENT
".

(** Scenario B: a second task is marked current too. *)
Definition scenarioB : jsstring := u "---
status: in-progress
phase: 1
updated: 2025-01-01
---
## Goal
Ship the thing
## Phase 1: Setup [IN PROGRESS]
- [ ] 1.1 Do it ← CURRENT
- [ ] 1.2 Do more ← CURRENT
".

Definition no_parts : ExtractedParts := mkParts None None [].

Definition scenarioB_parts : ExtractedParts :=
  Eval vm_compute in default no_parts (extractMarkdownParts scenarioB).

(** Scenario C: the date has the wrong shape. *)
Definition scenarioC : jsstring := u "---
status: in-progress
phase: 1
updated: 01-01-2025
---
## Goal
Ship the thing
## Phase 1: Setup [IN PROGRESS]
- [ ] 1.1 Do it ← CURRENT
".

(** A plan in the canonical layout whose goal line mentions an issue
    number. *)
Definition issue_plan : CanonPlan :=
  mkCanonPlan (u "in-progress") (u "1") (u "2025-01-01") (u "Fix bug #7 in the parser")
    [mkCanonPhase (u "1") (u "Setup") (u "PENDING")
       [mkCanonTask false (u "1") (u "1") (u "Do it") false]].

Definition issue_plan_text : jsstring := u "---
status: in-progress
phase: 1
updated: 2025-01-01
---
## Goal
Fix bug #7 in the parser
## Phase 1: Setup [PENDING]
- [ ] 1.1 Do it
".


(** Two phases of two tasks each; a task text mentions an issue number. *)
Definition ordered_plan : CanonPlan :=
  mkCanonPlan (u "in-progress") (u "2") (u "2026-01-07")
    (u "Add dark mode support")
    [mkCanonPhase (u "1") (u "Research") (u "COMPLETE")
       [mkCanonTask true (u "1") (u "1") (u "Fix issue #12 first") false;
        mkCanonTask true (u "1") (u "2") (u "Audit existing color usage") false];
     mkCanonPhase (u "2") (u "Implementation") (u "IN PROGRESS")
       [mkCanonTask false (u "2") (u "1") (u "Create the theme context") true;
        mkCanonTask false (u "2") (u "2") (u "Add the toggle") false]].

Definition ordered_plan_text : jsstring := u "---
status: in-progress
phase: 2
updated: 2026-01-07
---
## Goal
Add dark mode support
## Phase 1: Research [COMPLETE]
- [x] 1.1 Fix issue #12 first
- [x] 1.2 Audit existing color usage
## Phase 2: Implementation [IN PROGRESS]
- [ ] 2.1 Create the theme context ← CURRENT
- [ ] 2.2 Add the toggle
".

(** Scenario A with half of a surrogate pair at the end of its task text. *)
Definition lone_surrogate_text : jsstring := u "---
status: in-progress
phase: 1
updated: 2025-01-01
---
## Goal
Ship the thing
## Phase 1: Setup [IN PROGRESS]
- [ ] 1.1 Do it " ++ [0xD83D] ++ u "
".

(** A plan whose tasks cite research the way the README shows. *)
Definition cited_plan_text : jsstring := u "---
status: in-progress
phase: 1
updated: 2026-01-07
---
## Goal
Add dark mode support with system preference detection.
## Phase 1: Research [IN PROGRESS]
- [x] 1.1 Research dark mode best practices `ref:swift-tiger-moon`
- [x] 1.2 Audit existing color usage ← CURRENT `ref:bold-eagle-star`
".

(** A frontmatter with keys the schema does not know. *)
Definition extra_keys_text : jsstring := u "---
owner: planner
status: in-progress
phase: 2
tags: dark-mode: css
updated: 2026-01-07
---
## Goal
Add dark mode support with system preference detection.
## Phase 1: Research [COMPLETE]
- [x] 1.1 Research dark mode best practices
".

(** The same document as its lines between the fences and what follows
    the closing fence. *)
Definition extra_keys_lines : list jsstring :=
  [u "owner: planner"; u "status: in-progress"; u "phase: 2";
   u "tags: dark-mode: css"; u "updated: 2026-01-07"].

Definition extra_keys_after : jsstring := u "
## Goal
Add dark mode support with system preference detection.
## Phase 1: Research [COMPLETE]
- [x] 1.1 Research dark mode best practices
".

(** The frontmatter of scenario A with a line of another key, whose value
    writes a phase heading; and what follows the fence in scenario A. *)
Definition noted_lines : list jsstring :=
  [u "status: in-progress"; u "note: ## Phase 9: x [PENDING]"; u "phase: 1";
   u "updated: 2025-01-01"].

Definition scenarioA_after : jsstring := u "
## Goal
Ship the thing
## Phase 1: Setup [IN PROGRESS]
- [ ] 1.1 Do it ← CURRENT
".

(** Session graphs: a chain [s0 -> s1 -> ...] with [links] parent links, a
    cycle, and a child with its root. *)
Definition digit_session (i : N) : jsstring := [115; 48 + i].

Definition chain_get (links : N) (s : jsstring) : session_response :=
  match s with
  | [115; d] =>
    if d - 48 <? links then SessionResponse (Some (Some (digit_session (d - 48 + 1))))
    else SessionResponse (Some None)
  | _ => SessionResponse None
  end.

Definition cycle_get (s : jsstring) : session_response :=
  SessionResponse (Some (Some (u "loop"))).

Definition family_get (s : jsstring) : session_response :=
  if bool_decide (s = u "ses_child") then SessionResponse (Some (Some (u "ses_root")))
  else SessionResponse (Some None).

(** A platform: segments joined by a slash.  *)
Definition slash_join (segments : list jsstring) : jsstring :=
  join_with (u "/") segments.

Definition slash_resolve (from to : jsstring) : jsstring := slash_join [from; to].

Definition home : jsstring := u "/home/dev".

Definition some_project : jsstring := u "0123456789abcdef".

Definition quiet (path : jsstring) : option js_error := None.

Definition empty_fs : filesystem := mkFs ∅ ∅ quiet quiet quiet.

Definition stored_path : jsstring :=
  planPath_read slash_join home some_project (u "ses_root").

(** The session directory of the root session and the directories above. *)
Definition stored_dirs : gset jsstring :=
  list_to_set (dir_chain (length stored_path) (dirname stored_path)).

(** A file system that holds an earlier plan of the root session. *)
Definition fs_with_plan : filesystem :=
  mkFs {[ stored_path := scenarioA ]} stored_dirs quiet quiet quiet.

Definition unreadable : js_error := mkError true (Some (u "EACCES")) (u "permission denied").

(** A file system on which the plan file cannot be read. *)
Definition fs_unreadable : filesystem :=
  mkFs {[ stored_path := scenarioA ]} stored_dirs quiet quiet (fun _ => Some unreadable).

(** Repositories: two root commits listed in either order, and a cache file
    with text of no accepted shape. *)
Definition hash_a : jsstring := repeat 97 40.
Definition hash_b : jsstring := repeat 98 40.

Definition zero_digest (s : jsstring) : jsstring := repeat 48 64.

Definition plain_stat (path : jsstring) : option stat_kind := Some IsDirectory.

Definition repo_two_roots : repo :=
  mkRepo plain_stat ∅ (fun _ => Exited 0 (git_output [hash_b; hash_a]) []) quiet.

Definition repo_bad_cache : repo :=
  mkRepo plain_stat {[ u "/repo/.git/opencode" := u "not-a-hash
" ]}
         (fun _ => Exited 0 (git_output [hash_b; hash_a]) []) quiet.

(** A plan with two phases in progress. *)
Definition two_in_progress_text : jsstring := u "---
status: in-progress
phase: 1
updated: 2026-01-07
---
## Goal
Add dark mode support with system preference detection.
## Phase 1: Research [IN PROGRESS]
- [x] 1.1 Research dark mode best practices
## Phase 2: Implementation [IN PROGRESS]
- [ ] 2.1 Create the theme context ← CURRENT
".

(** Scenario A after a blank first line, and scenario A cut before its
    phase. *)
Definition late_fence_text : jsstring := LF :: scenarioA.

Definition no_phase_text : jsstring := u "---
status: in-progress
phase: 1
updated: 2025-01-01
---
## Goal
Ship the thing
".

(** The example plan of the README. *)
Definition readme_plan : jsstring := u "---
status: in-progress
phase: 2
updated: 2026-01-07
---

# Implementation Plan

## Goal
Add dark mode support with system preference detection.

## Context & Decisions
| Decision | Rationale | Source |
|----------|-----------|--------|
| Use CSS custom properties | Better performance than class toggling | `ref:swift-tiger-moon` |
| Prefer prefers-color-scheme | Native, no JS required for initial load | `ref:bold-eagle-star` |

## Phase 1: Research [COMPLETE]
- [x] 1.1 Research dark mode best practices → `ref:swift-tiger-moon`
- [x] 1.2 Audit existing color usage in codebase

## Phase 2: Implementation [IN PROGRESS]
- [x] 2.1 Create CSS custom property system
- [ ] **2.2 Add theme toggle component** ← CURRENT
- [ ] 2.3 Implement system preference detection

## Phase 3: Polish [PENDING]
- [ ] 3.1 Add transition animations
- [ ] 3.2 Persist user preference to localStorage
".

(** A file system that holds a plan without a marker. *)
Definition fs_unmarked_plan : filesystem :=
  mkFs {[ stored_path := issue_plan_text ]} stored_dirs quiet quiet quiet.

(** The body of a phase: a blank line, a plain task line, a note, the
    bold line of the README, and a blank line at the end. *)
Definition styled_items : list TaskItem :=
  [mkTaskItem [LF] false
     (mkCanonTask true (u "2") (u "1") (u "Create CSS custom property system") false);
   mkTaskItem (u "(toggle next)
") true
     (mkCanonTask false (u "2") (u "2") (u "Add theme toggle component") true)].

Definition styled_items_text : jsstring := u "
- [x] 2.1 Create CSS custom property system
(toggle next)
- [ ] **2.2 Add theme toggle component** ← CURRENT

".

(** Three coder tasks and their start times. *)
Definition three_starts : list (jsstring * Z) :=
  [(u "call_a", 1000%Z); (u "call_b", 2000%Z); (u "call_c", 3000%Z)].

(** A table with one call that started at time 0. *)
Definition one_old_call : coder_calls := {[ u "call_a" := 0%Z ]}.

(** A platform on which an absolute path resolves to itself. *)
Definition abs_resolve (from to : jsstring) : jsstring :=
  match to with
  | 47 :: _ => to
  | _ => slash_join [from; to]
  end.

(** A main checkout at [/main] and a linked worktree of it at [/tree]. *)
Definition worktree_stat (path : jsstring) : option stat_kind :=
  if bool_decide (path = u "/tree/.git") then Some IsFile
  else if bool_decide (path = u "/main/.git") then Some IsDirectory
  else None.

Definition repo_worktree : repo :=
  mkRepo worktree_stat
         {[ u "/tree/.git" := u "gitdir: /main/.git/worktrees/tree
";
            u "/main/.git/worktrees/tree/commondir" := u "/main/.git
" ]}
         (fun _ => Exited 0 (git_output [hash_b; hash_a]) []) quiet.

(** A repository whose cache holds a commit hash, and a directory that is
    no repository. *)
Definition repo_cached : repo :=
  mkRepo plain_stat {[ u "/repo/.git/opencode" := hash_b ++ [LF] ]}
         (fun _ => TimedOut) quiet.

Definition no_repo : repo :=
  mkRepo (fun _ => None) ∅ (fun _ => TimedOut) quiet.

(** A worktree whose [.git] file is broken. *)
Definition repo_broken_worktree : repo :=
  mkRepo (fun _ => Some IsFile) {[ u "/tree/.git" := u "not a git file
" ]} (fun _ => TimedOut) quiet.

(** Scenario A with an unknown status and a date of the wrong shape, and
    the two issues of it. *)
Definition two_issues_text : jsstring := u "---
status: started
phase: 1
updated: 01-01-2025
---
## Goal
Ship the thing
## Phase 1: Setup [IN PROGRESS]
- [ ] 1.1 Do it ← CURRENT
".

Definition status_issue : ZodIssue :=
  mkIssue [PKey (u "frontmatter"); PKey (u "status")] invalid_value
          (plainMessages invalid_value) (Some PlanStatus) None.

Definition updated_issue : ZodIssue :=
  mkIssue [PKey (u "frontmatter"); PKey (u "updated")] invalid_format
          (u "Date must be YYYY-MM-DD") None None.

(* ================================================================== *)
(** * Proof tools *)
(* ================================================================== *)

Ltac eval_lits :=
  repeat match goal with
  | |- context [u ?s] => let v := eval vm_compute in (u s) in change (u s) with v
  end.

Ltac class_facts :=
  unfold is_hex, is_digit, is_lower, is_space, is_line_terminator, not_nl_hash,
    not_lbrack, not_rbrack, not_arrow_nl, space_or_x, dot_char,
    LF, HASH, LBRACK, RBRACK, LARROW, COLON in *;
  rewrite ?orb_true_iff, ?andb_true_iff, ?orb_false_iff, ?andb_false_iff,
    ?negb_true_iff, ?negb_false_iff, ?orb_true_iff, ?andb_true_iff,
    ?orb_false_iff, ?andb_false_iff, ?N.eqb_eq, ?N.eqb_neq, ?N.leb_le, ?N.leb_gt in *;
  try lia.

(* ================================================================== *)
(** * Lemmas *)
(* ================================================================== *)

Lemma strip_lit_app p s : strip_lit p (p ++ s) = Some s.
Proof. induction p as [|a p IH]; simpl; [reflexivity|]. rewrite N.eqb_refl. exact IH. Qed.

Lemma strip_lit_Some p : forall s r, strip_lit p s = Some r -> s = p ++ r.
Proof.
  induction p as [|a p IH]; simpl; intros s r H; [congruence|].
  destruct s as [|b s]; [discriminate|].
  destruct (N.eqb_spec a b) as [->|]; [|discriminate].
  f_equal. apply IH, H.
Qed.

Lemma strip_lit_head a p b s : a <> b -> strip_lit (a :: p) (b :: s) = None.
Proof. intros H. simpl. destruct (N.eqb_spec a b); [contradiction|reflexivity]. Qed.

Section MatcherFacts.
Variable input : jsstring.

Lemma clear_groups_rest r st : rest (clear_groups r st) = rest st.
Proof. reflexivity. Qed.

Lemma star_loop_forward body g :
  forward body ->
  forall n k st x, star_loop body g k n st = Some x ->
    exists st1, rest st1 `suffix_of` rest st /\ k st1 = Some x.
Proof.
  intros Hb n. induction n as [|n IH]; intros k st x H; [discriminate|].
  simpl in H.
  assert (Hit : forall y,
    body st (fun st1 => if progressed st st1 then star_loop body g k n st1 else None) = Some y ->
    exists st1, rest st1 `suffix_of` rest st /\ k st1 = Some y).
  { intros y Hy. apply Hb in Hy as (st1 & Hs & Hy).
    destruct (progressed st st1); [|discriminate].
    apply IH in Hy as (st2 & Hs2 & Hy). exists st2. split; [|exact Hy].
    etrans; eassumption. }
  destruct g.
  - destruct (body st _) as [y|] eqn:Hy.
    + inversion H; subst y. apply (Hit x eq_refl).
    + exists st. split; [reflexivity | exact H].
  - destruct (k st) as [y|] eqn:Hk.
    + inversion H; subst y. exists st. split; [reflexivity | exact Hk].
    + apply Hit. exact H.
Qed.

Lemma rmatch_forward r : forward (rmatch input r).
Proof.
  induction r as [|s|p|a IHa b IHb|a IHa b IHb|g a IHa|a IHa|i a IHa|a IHa| | | |];
    intros st k x H; cbn [rmatch] in H.
  - exists st. split; [reflexivity | exact H].
  - destruct (strip_lit s (rest st)) as [r'|] eqn:Hp; [|discriminate].
    apply strip_lit_Some in Hp. eexists. split; [|exact H].
    simpl. rewrite Hp. apply suffix_app_r. reflexivity.
  - destruct (rest st) as [|c r'] eqn:Hr; [discriminate|].
    destruct (p c); [|discriminate]. eexists. split; [|exact H].
    simpl. apply suffix_cons_r. reflexivity.
  - apply IHa in H as (st1 & Hs1 & H). apply IHb in H as (st2 & Hs2 & H).
    exists st2. split; [etrans; eassumption | exact H].
  - destruct (rmatch input a st k) as [y|] eqn:Hy.
    + inversion H; subst y. apply IHa, Hy.
    + apply IHb, H.
  - apply star_loop_forward in H; [exact H|].
    intros s k' y Hy. apply IHa in Hy as (st1 & Hs & Hy). exists st1. split; assumption.
  - destruct (rmatch input a (clear_groups a st) _) as [y|] eqn:Hy.
    + inversion H; subst y. apply IHa in Hy as (st1 & Hs & Hy).
      destruct (progressed st st1); [|discriminate]. exists st1. split; assumption.
    + exists st. split; [reflexivity | exact H].
  - apply IHa in H as (st1 & Hs & H). eexists. split; [|exact H]. exact Hs.
  - destruct (rmatch input a st Some) as [st1|]; [|discriminate].
    eexists. split; [|exact H]. reflexivity.
  - destruct (_ =? _)%nat; [|discriminate]. exists st. split; [reflexivity | exact H].
  - destruct (rest st) eqn:Hr; [|discriminate]. exists st. rewrite Hr. split; [reflexivity | exact H].
  - destruct (is_bol _ _); [|discriminate]. exists st. split; [reflexivity | exact H].
  - destruct (rest st) as [|c ?] eqn:Hr.
    + exists st. rewrite Hr. split; [reflexivity | exact H].
    + destruct (is_line_terminator c); [|discriminate].
      exists st. rewrite Hr. split; [reflexivity | exact H].
Qed.

(** A pattern that opens with a literal character consumes input. *)
Lemma rmatch_lit_consumes c s r st k x :
  rmatch input (Seq (Lit (c :: s)) r) st k = Some x ->
  exists st1, (length (rest st1) < length (rest st))%nat /\ k st1 = Some x.
Proof.
  intros H. simpl in H.
  change (match rest st with [] => None | b :: s' => if c =? b then strip_lit s s' else None end)
    with (strip_lit (c :: s) (rest st)) in H.
  destruct (strip_lit (c :: s) (rest st)) as [r'|] eqn:Hp; [|discriminate].
  apply strip_lit_Some in Hp.
  apply rmatch_forward in H as (st1 & Hs & H). exists st1. split; [|exact H].
  apply suffix_length in Hs. simpl in Hs. rewrite Hp. simpl. rewrite length_app. lia.
Qed.

Lemma search_inv r : forall from m,
  search input r from = Some m ->
  m_start m `suffix_of` from
  /\ rmatch input r (MState (m_start m) no_caps) Some = Some (MState (m_end m) (m_caps m)).
Proof.
  induction from as [|c from IH]; intros m H; simpl in H.
  - destruct (rmatch input r _ Some) as [st|] eqn:Hm; [|discriminate].
    inversion H; subst m; simpl. split; [reflexivity|]. rewrite Hm. by destruct st.
  - destruct (rmatch input r _ Some) as [st|] eqn:Hm.
    + inversion H; subst m; simpl. split; [reflexivity|]. rewrite Hm. by destruct st.
    + apply IH in H as [Hs Hr]. split; [|exact Hr]. apply suffix_cons_r, Hs.
Qed.

Lemma search_end_shorter r from m :
  consuming input r -> search input r from = Some m ->
  (length (m_end m) < length from)%nat.
Proof.
  intros Hc H. apply search_inv in H as [Hs Hr].
  apply Hc in Hr as (st1 & Hlt & Heq). inversion Heq; subst st1. simpl in Hlt.
  apply suffix_length in Hs. lia.
Qed.

(** A [while]-[exec] loop over a consuming pattern ends. *)
Lemma exec_loop_total r :
  consuming input r ->
  forall fuel from, (length from < fuel)%nat ->
    exists ms, exec_loop input fuel r from = Some ms.
Proof.
  intros Hc fuel. induction fuel as [|fuel IH]; intros from Hlt; [lia|].
  simpl. destruct (search input r from) as [m|] eqn:Hs; [|eauto].
  pose proof (search_end_shorter _ _ _ Hc Hs) as Hlen.
  destruct (IH (m_end m)) as (ms & ->); [lia|]. eauto.
Qed.
Lemma star_loop_fuel body g :
  local_cont body ->
  forall n m k1 k2 st,
    (length (rest st) < n)%nat -> (length (rest st) < m)%nat ->
    (forall st1, (length (rest st1) <= length (rest st))%nat -> k1 st1 = k2 st1) ->
    star_loop body g k1 n st = star_loop body g k2 m st.
Proof.
  intros Hb n. induction n as [|n IH]; intros m k1 k2 st Hn Hm Hk; [lia|].
  destruct m as [|m]; [lia|].
  cbn [star_loop].
  rewrite (Hk st) by lia.
  rewrite (Hb st _ (fun st1 => if progressed st st1 then star_loop body g k2 m st1 else None)).
  - reflexivity.
  - intros st1 Hle. unfold progressed.
    destruct (Nat.ltb_spec (length (rest st1)) (length (rest st))) as [Hlt|]; [|reflexivity].
    apply IH; [lia|lia|]. intros st2 H2. apply Hk. lia.
Qed.

Lemma rmatch_local r : local_cont (rmatch input r).
Proof.
  induction r as [|s|p|a IHa b IHb|a IHa b IHb|g a IHa|a IHa|i a IHa|a IHa| | | |];
    intros st k1 k2 Hk; cbn [rmatch].
  - apply Hk. lia.
  - destruct (strip_lit s (rest st)) as [r'|] eqn:Hs; [|reflexivity].
    apply Hk. cbn [rest]. apply strip_lit_Some in Hs. rewrite Hs, length_app. lia.
  - destruct (rest st) as [|c r'] eqn:Hr; [reflexivity|].
    destruct (p c); [|reflexivity]. apply Hk. cbn [rest length]. lia.
  - apply IHa. intros st1 H1. apply IHb. intros st2 H2. apply Hk. lia.
  - rewrite (IHa st k1 k2 Hk), (IHb st k1 k2 Hk). reflexivity.
  - apply star_loop_fuel; [|lia|lia|exact Hk].
    intros s j1 j2 Hj. apply IHa. intros st1 H1. apply Hj. exact H1.
  - rewrite (Hk st) by lia.
    rewrite (IHa (clear_groups a st) _ (fun st1 => if progressed st st1 then k2 st1 else None)).
    + reflexivity.
    + intros st1 H1. destruct (progressed st st1); [|reflexivity]. apply Hk. exact H1.
  - apply IHa. intros st1 H1. apply Hk. exact H1.
  - destruct (rmatch input a st Some) as [st1|]; [|reflexivity]. apply Hk. cbn [rest]. lia.
  - destruct (length (rest st) =? length input)%nat; [|reflexivity]. apply Hk. lia.
  - destruct (rest st) eqn:Hr; [|reflexivity]. apply Hk. rewrite Hr. reflexivity.
  - destruct (is_bol input (rest st)); [|reflexivity]. apply Hk. lia.
  - destruct (rest st) as [|c r'] eqn:Hr; [apply Hk; rewrite Hr; reflexivity|].
    destruct (is_line_terminator c); [|reflexivity]. apply Hk. rewrite Hr. reflexivity.
Qed.

(** The bound on the iterations of a quantifier is never what ends them:
    any two bounds above the length of the remaining input give the same
    result. *)
Lemma star_fuel_irrelevant a g k n m st :
  (length (rest st) < n)%nat -> (length (rest st) < m)%nat ->
  star_loop (fun s => rmatch input a (clear_groups a s)) g k n st =
  star_loop (fun s => rmatch input a (clear_groups a s)) g k m st.
Proof.
  intros Hn Hm. apply star_loop_fuel; [|exact Hn|exact Hm|reflexivity].
  intros s j1 j2 Hj. apply rmatch_local. exact Hj.
Qed.

Lemma search_ends_after_start r from m :
  search input r from = Some m -> m_end m `suffix_of` m_start m.
Proof.
  intros H. apply search_inv in H as [_ Hr].
  apply rmatch_forward in Hr as (st1 & Hs & Hx). inversion Hx; subst st1. exact Hs.
Qed.

(** The matches of a [while]-[exec] loop come in the order of their
    positions in the text, each starting where the one before ended or
    later. *)
Lemma exec_loop_in_order r : forall fuel from ms,
  exec_loop input fuel r from = Some ms -> in_order from ms.
Proof.
  induction fuel as [|f IH]; intros from ms H; [discriminate|].
  cbn [exec_loop] in H.
  destruct (search input r from) as [m|] eqn:Hs.
  - destruct (exec_loop input f r (m_end m)) as [ms'|] eqn:He; [|discriminate].
    inversion H; subst ms. constructor.
    + eapply search_inv, Hs.
    + eapply search_ends_after_start, Hs.
    + apply IH, He.
  - inversion H; subst ms. constructor.
Qed.
End MatcherFacts.

Lemma phaseRegex_consuming input : consuming input phaseRegex.
Proof. intros st k x H. eapply rmatch_lit_consumes. exact H. Qed.

Lemma taskRegex_consuming input : consuming input taskRegex.
Proof. intros st k x H. eapply rmatch_lit_consumes. exact H. Qed.

Lemma exec_all_total r s :
  consuming s r -> exists ms, exec_all r s = Some ms.
Proof. intros Hc. apply exec_loop_total; [exact Hc | lia]. Qed.

Lemma extract_tasks_total body : exists ts, extract_tasks body = Some ts.
Proof.
  unfold extract_tasks.
  destruct (exec_all_total taskRegex body (taskRegex_consuming body)) as (ms & ->).
  eauto.
Qed.

Lemma mapM_phase_total ms : exists ps, mapM phase_of_match ms = Some ps.
Proof.
  induction ms as [|m ms (ps & IH)]; [by exists []|].
  destruct (extract_tasks_total (group m 4)) as (ts & Hts).
  eexists. apply mapM_Some. constructor.
  - unfold phase_of_match. rewrite Hts. reflexivity.
  - apply mapM_Some. exact IH.
Qed.

Theorem extractMarkdownParts_total content :
  exists parts, extractMarkdownParts content = Some parts.
Proof.
  unfold extractMarkdownParts, extract_phases.
  destruct (exec_all_total phaseRegex content (phaseRegex_consuming content)) as (ms & ->).
  simpl. destruct (mapM_phase_total ms) as (ps & ->). simpl. eauto.
Qed.

(** ** trim *)
Lemma drop_while_all p s : Forall (fun c => p c = true) s -> drop_while p s = [].
Proof. induction 1 as [|c s Hc _ IH]; simpl; [reflexivity|]. rewrite Hc. exact IH. Qed.

Lemma drop_while_nil_all p s : drop_while p s = [] -> Forall (fun c => p c = true) s.
Proof.
  induction s as [|c s IH]; simpl; intros H; [constructor|].
  destruct (p c) eqn:Hc; [|discriminate]. constructor; auto.
Qed.

Lemma drop_while_head p s c r : drop_while p s = c :: r -> p c = false.
Proof.
  induction s as [|d s IH]; simpl; intros H; [discriminate|].
  destruct (p d) eqn:Hd; [auto|]. inversion H; subst. exact Hd.
Qed.

Lemma trim_blank s : Forall (fun c => is_space c = true) s -> trim s = [].
Proof. intros H. unfold trim, trimStart, trimEnd. rewrite (drop_while_all is_space s H). reflexivity. Qed.

Lemma trim_nil_blank s : trim s = [] -> Forall (fun c => is_space c = true) s.
Proof.
  unfold trim, trimEnd, trimStart. intros H.
  apply (f_equal (@rev N)) in H. rewrite rev_involutive in H. simpl in H.
  apply drop_while_nil_all in H.
  destruct (drop_while is_space s) as [|c r] eqn:Hd.
  - apply drop_while_nil_all, Hd.
  - apply drop_while_head in Hd as Hc.
    apply List.Forall_rev in H. rewrite rev_involutive in H.
    inversion H; subst. congruence.
Qed.

(** ** anchored patterns *)
Section Anchored.
Variable input : jsstring.

Lemma rmatch_bos_later r from c k :
  length from <> length input ->
  rmatch input (Seq Bos r) (MState from c) k = None.
Proof.
  intros H. cbn [rmatch rest]. apply Nat.eqb_neq in H. rewrite H. reflexivity.
Qed.

Lemma rmatch_bos_start r c k :
  rmatch input (Seq Bos r) (MState input c) k = rmatch input r (MState input c) k.
Proof. cbn [rmatch rest]. rewrite Nat.eqb_refl. reflexivity. Qed.

Lemma search_bos_later r : forall from,
  (length from < length input)%nat -> search input (Seq Bos r) from = None.
Proof.
  induction from as [|c from IH]; intros Hlt; cbn [search];
    rewrite rmatch_bos_later by lia; [reflexivity|].
  apply IH. simpl in Hlt. lia.
Qed.

Lemma search_bos_at r from :
  length from = length input ->
  search input (Seq Bos r) from =
  match rmatch input r (MState from no_caps) Some with
  | Some st => Some (MatchResult from (rest st) (caps st))
  | None => None
  end.
Proof.
  intros Hlen. destruct from as [|c s]; cbn [search rmatch rest];
    rewrite Hlen, Nat.eqb_refl; [reflexivity|].
  destruct (rmatch _ r _ Some); [reflexivity|].
  apply search_bos_later. simpl in Hlen. lia.
Qed.

Lemma search_bos r :
  search input (Seq Bos r) input =
  match rmatch input r (MState input no_caps) Some with
  | Some st => Some (MatchResult input (rest st) (caps st))
  | None => None
  end.
Proof. apply search_bos_at. reflexivity. Qed.
End Anchored.

Lemma extract_frontmatter_blank content :
  trim content = [] -> extract_frontmatter content = None.
Proof.
  intros H. apply trim_nil_blank in H.
  unfold extract_frontmatter, str_match.
  change frontmatterRegex with (Seq Bos (seqs [Lit (u "---
"); Group 1 (Star false (Cls any_char)); Lit (u "
---")])).
  rewrite search_bos. destruct content as [|c s]; [reflexivity|].
  inversion H as [|? ? Hc _]; subst.
  cbn [seqs rmatch rest]. eval_lits.
  rewrite strip_lit_head; [reflexivity|]. intros <-. discriminate Hc.
Qed.

Section ParseFacts.
Variable defaultMessage : issue_code -> jsstring.

(** C8. Blank input is rejected at once: for every string that is empty
    or made of white space only, [parsePlanMarkdown] returns the failure with
    error "Empty content provided" and the fixed hint, whatever the extraction
    step would do (it is not reached); and [parsePlanMarkdown] returns a result
    on every input, string or not. *)
Theorem parsePlanMarkdown_blank content :
  Forall (fun c => is_space c = true) content ->
  (forall extract,
     parsePlanMarkdown_with defaultMessage extract (VString content)
     = Some (ParseError (u "Empty content provided")
               (u "Load skill('plan-protocol') for the full format spec.")))
  /\ (forall v, exists r, parsePlanMarkdown defaultMessage v = Some r).
Proof.
  intros Hb. split.
  - intros extract. unfold parsePlanMarkdown_with.
    rewrite (trim_blank _ Hb). reflexivity.
  - intros v. unfold parsePlanMarkdown, parsePlanMarkdown_with.
    destruct v; eauto.
    destruct (bool_decide _); eauto.
    destruct (extractMarkdownParts_total s) as (parts & ->). simpl.
    destruct (PlanSchema_safeParse _ _); eauto.
    destruct (_ <? _)%nat; eauto.
Qed.

Lemma safeParse_needs_frontmatter goal phases data :
  PlanSchema_safeParse defaultMessage (mkParts None goal phases) <> ParseSuccess data.
Proof. unfold PlanSchema_safeParse, PlanSchema_issues. simpl. discriminate. Qed.

Lemma parts_eta parts :
  mkParts (x_frontmatter parts) (x_goal parts) (x_phases parts) = parts.
Proof. destruct parts; reflexivity. Qed.

Lemma extract_frontmatter_of content parts :
  extractMarkdownParts content = Some parts ->
  x_frontmatter parts = extract_frontmatter content.
Proof.
  unfold extractMarkdownParts. destruct (extract_phases content); simpl; [|discriminate].
  intros H; inversion H; reflexivity.
Qed.

Lemma currentCount_data parts :
  currentCount (PlanSchema_data parts) = length (marked_tasks parts).
Proof.
  unfold currentCount, marked_tasks, PlanSchema_data. simpl.
  induction (x_phases parts) as [|p ps IH]; [reflexivity|].
  simpl. rewrite !filter_app, !length_app, IH. f_equal.
  clear. induction (x_tasks p) as [|t ts IH]; [reflexivity|].
  simpl. rewrite !filter_cons. simpl.
  destruct (x_isCurrent t) eqn:Ht.
  - rewrite !decide_True by reflexivity. simpl. f_equal. exact IH.
  - rewrite !decide_False by discriminate. exact IH.
Qed.

(** C2 (amended). When the extracted candidate passes the schema and n >= 2
    tasks, over all phases, carry the current marker, [parsePlanMarkdown]
    returns the failure whose error is exactly
    "Multiple tasks marked <- CURRENT (found n). Only one task may be current."
    with n in decimal (the arrow being the marker's own), and the fixed hint. *)
Theorem parsePlanMarkdown_multiple_current content parts data :
  extractMarkdownParts content = Some parts ->
  PlanSchema_safeParse defaultMessage parts = ParseSuccess data ->
  (2 <= length (marked_tasks parts))%nat ->
  parsePlanMarkdown defaultMessage (VString content)
  = Some (ParseError
            (u "Multiple tasks marked ← CURRENT (found "
               ++ nat_to_string (length (marked_tasks parts))
               ++ u "). Only one task may be current.")
            skillHint).
Proof.
  intros Hex Hsp Hn. unfold parsePlanMarkdown, parsePlanMarkdown_with.
  destruct (bool_decide (trim content = [])) eqn:Hb.
  { apply bool_decide_eq_true in Hb. apply extract_frontmatter_blank in Hb.
    rewrite <- (extract_frontmatter_of _ _ Hex) in Hb.
    destruct parts as [fm g ps]; simpl in Hb; subst fm.
    exfalso. eapply safeParse_needs_frontmatter, Hsp. }
  rewrite Hex. simpl. rewrite parts_eta, Hsp.
  assert (data = PlanSchema_data parts) as ->.
  { unfold PlanSchema_safeParse in Hsp. destruct (PlanSchema_issues _ _); congruence. }
  rewrite currentCount_data.
  destruct (Nat.ltb_spec 1 (length (marked_tasks parts))); [reflexivity | lia].
Qed.
End ParseFacts.

Lemma add_line_agree fm1 fm2 line :
  agree_on_schema fm1 fm2 ->
  agree_on_schema (frontmatter_add_line fm1 line) (frontmatter_add_line fm2 line).
Proof.
  intros Ha k Hk. unfold frontmatter_add_line.
  destruct (split_on COLON line) as [|key vs]; [auto|].
  destruct (_ && _); [|auto].
  destruct (bool_decide (trim key = u "__proto__")); [auto|].
  destruct (decide (trim key = k)) as [->|Hne].
  - rewrite !lookup_insert_eq. reflexivity.
  - rewrite !lookup_insert_ne by exact Hne. auto.
Qed.

Lemma add_line_extra fm1 fm2 line :
  is_schema_line line = false ->
  agree_on_schema fm1 fm2 ->
  agree_on_schema (frontmatter_add_line fm1 line) fm2.
Proof.
  intros Hx Ha k Hk. unfold frontmatter_add_line, is_schema_line in *.
  destruct (split_on COLON line) as [|key vs]; [auto|].
  destruct (_ && _); [|auto].
  destruct (bool_decide (trim key = u "__proto__")); [auto|].
  apply bool_decide_eq_false in Hx.
  rewrite lookup_insert_ne; [auto|]. intros Heq. subst k. contradiction.
Qed.

Lemma fold_lines_agree lines : forall fm1 fm2,
  agree_on_schema fm1 fm2 ->
  agree_on_schema (fold_left frontmatter_add_line lines fm1)
                  (fold_left frontmatter_add_line (List.filter is_schema_line lines) fm2).
Proof.
  induction lines as [|l lines IH]; intros fm1 fm2 Ha; simpl; [exact Ha|].
  destruct (is_schema_line l) eqn:Hl; simpl; apply IH.
  - apply add_line_agree, Ha.
  - apply add_line_extra; assumption.
Qed.

Lemma frontmatter_of_lines_agree lines :
  agree_on_schema (frontmatter_of_lines lines)
                  (frontmatter_of_lines (List.filter is_schema_line lines)).
Proof. apply fold_lines_agree. intros k _. reflexivity. Qed.

Section FrontmatterFacts.
Variable defaultMessage : issue_code -> jsstring.

Lemma FrontmatterSchema_issues_agree path fm1 fm2 :
  agree_on_schema fm1 fm2 ->
  FrontmatterSchema_issues defaultMessage path (Some fm1)
  = FrontmatterSchema_issues defaultMessage path (Some fm2).
Proof.
  intros Ha. unfold FrontmatterSchema_issues.
  rewrite !(Ha (u "status")), !(Ha (u "phase")), !(Ha (u "updated")); [reflexivity|..];
    unfold FrontmatterSchema_keys; rewrite !elem_of_cons; auto.
Qed.

Lemma FrontmatterSchema_data_agree fm1 fm2 :
  agree_on_schema fm1 fm2 ->
  FrontmatterSchema_data (Some fm1) = FrontmatterSchema_data (Some fm2).
Proof.
  intros Ha. unfold FrontmatterSchema_data. simpl. apply map_eq. intros k.
  rewrite !map_lookup_filter.
  destruct (decide (k ∈ FrontmatterSchema_keys)) as [Hk|Hk].
  - rewrite (Ha k Hk). reflexivity.
  - destruct (fm1 !! k), (fm2 !! k); simpl; rewrite ?option_guard_False by exact Hk; reflexivity.
Qed.

(** A frontmatter without issues has the three keys. *)
Lemma FrontmatterSchema_issues_nil path fm :
  FrontmatterSchema_issues defaultMessage path fm = [] ->
  exists o s p d, fm = Some o /\ o !! u "status" = Some s
    /\ o !! u "phase" = Some p /\ o !! u "updated" = Some d.
Proof.
  destruct fm as [o|]; [|discriminate]. unfold FrontmatterSchema_issues.
  intros H. apply app_eq_nil in H as [H1 H]. apply app_eq_nil in H as [H2 H3].
  destruct (o !! u "status") as [s|] eqn:Hs; [|discriminate].
  destruct (o !! u "phase") as [p|] eqn:Hp; [|discriminate].
  destruct (o !! u "updated") as [d|] eqn:Hd; [|discriminate].
  exists o, s, p, d. auto.
Qed.

Lemma FrontmatterSchema_data_dom o s p d :
  o !! u "status" = Some s -> o !! u "phase" = Some p -> o !! u "updated" = Some d ->
  dom (FrontmatterSchema_data (Some o))
  = ({[ u "status"; u "phase"; u "updated" ]} : gset jsstring).
Proof.
  intros Hs Hp Hd. unfold FrontmatterSchema_data. simpl.
  apply set_eq. intros k. rewrite elem_of_dom.
  unfold is_Some. setoid_rewrite map_lookup_filter_Some. simpl.
  unfold FrontmatterSchema_keys. split.
  - intros (x & _ & Hk). rewrite !elem_of_union, !elem_of_singleton.
    rewrite !elem_of_cons, elem_of_nil in Hk. tauto.
  - rewrite !elem_of_union, !elem_of_singleton.
    intros [ [ Hk | Hk ] | Hk ]; subst k; eexists;
      (split; [eassumption|]); rewrite !elem_of_cons; auto.
Qed.

Lemma parse_ok_inv content data warnings :
  parsePlanMarkdown defaultMessage (VString content) = Some (ParseOk data warnings) ->
  exists parts, extractMarkdownParts content = Some parts
    /\ PlanSchema_issues defaultMessage parts = []
    /\ data = PlanSchema_data parts.
Proof.
  unfold parsePlanMarkdown, parsePlanMarkdown_with.
  destruct (bool_decide _); [discriminate|].
  destruct (extractMarkdownParts content) as [parts|]; [|discriminate]. simpl.
  rewrite parts_eta. unfold PlanSchema_safeParse.
  destruct (PlanSchema_issues defaultMessage parts) eqn:Hi; [|discriminate].
  destruct (_ <? _)%nat; [discriminate|]. intros H; inversion H; subst. eauto.
Qed.

(** The issues of a plan are those of the same plan with only the
    [status], [phase] and [updated] lines in its frontmatter block; the
    frontmatter of every validated plan is made of those lines alone and
    has exactly the three keys. *)
Lemma frontmatter_schema_lines_only content fmMatch :
  str_match frontmatterRegex content = Some fmMatch ->
  let lines := split_on LF (group fmMatch 1) in
  let known := List.filter is_schema_line lines in
  (forall parts, extractMarkdownParts content = Some parts ->
     PlanSchema_issues defaultMessage parts
     = PlanSchema_issues defaultMessage
         (mkParts (Some (frontmatter_of_lines known)) (x_goal parts) (x_phases parts)))
  /\ (forall data warnings,
     parsePlanMarkdown defaultMessage (VString content) = Some (ParseOk data warnings) ->
     frontmatter data = FrontmatterSchema_data (Some (frontmatter_of_lines known))
     /\ dom (frontmatter data) = {[ u "status"; u "phase"; u "updated" ]}).
Proof.
  intros Hm lines known.
  assert (Hfm : extract_frontmatter content = Some (frontmatter_of_lines lines)).
  { unfold extract_frontmatter. rewrite Hm. reflexivity. }
  split.
  - intros parts Hex. rewrite <- (parts_eta parts) at 1.
    unfold PlanSchema_issues. simpl.
    rewrite (extract_frontmatter_of _ _ Hex), Hfm.
    rewrite (FrontmatterSchema_issues_agree _ _ _ (frontmatter_of_lines_agree lines)).
    reflexivity.
  - intros data warnings Hok. apply parse_ok_inv in Hok as (parts & Hex & Hi & ->).
    pose proof (extract_frontmatter_of _ _ Hex) as Hx. rewrite Hfm in Hx.
    unfold PlanSchema_data. simpl. rewrite Hx. split.
    + apply FrontmatterSchema_data_agree, frontmatter_of_lines_agree.
    + unfold PlanSchema_issues in Hi. apply app_eq_nil in Hi as [Hi _].
      rewrite Hx in Hi. apply FrontmatterSchema_issues_nil in Hi as (o & s & p & d & Ho & Hs & Hp & Hd).
      inversion Ho; subst o.
      apply (FrontmatterSchema_data_dom _ _ _ _ Hs Hp Hd).
Qed.
End FrontmatterFacts.

(** ** The order of [sort] *)
Lemma str_ltb_irrefl a : str_ltb a a = false.
Proof. induction a as [|x a IH]; simpl; [reflexivity|]. rewrite N.ltb_irrefl. exact IH. Qed.

Lemma str_ltb_trans a : forall b c,
  str_ltb a b = true -> str_ltb b c = true -> str_ltb a c = true.
Proof.
  induction a as [|x a IH]; intros [|y b] [|z c]; simpl; try congruence.
  destruct (N.ltb_spec x y), (N.ltb_spec y x), (N.ltb_spec y z), (N.ltb_spec z y),
    (N.ltb_spec x z), (N.ltb_spec z x); try congruence; try lia.
  apply IH.
Qed.

Lemma str_ltb_antisym a : forall b,
  str_ltb a b = false -> str_ltb b a = false -> a = b.
Proof.
  induction a as [|x a IH]; intros [|y b]; simpl; try congruence.
  destruct (N.ltb_spec x y), (N.ltb_spec y x); try congruence; try lia.
  intros H1 H2. assert (x = y) by lia. subst. f_equal. apply IH; assumption.
Qed.

Lemma str_ltb_total a : forall b, str_ltb a b = false -> a = b \/ str_ltb b a = true.
Proof.
  intros b H. destruct (str_ltb b a) eqn:Hb; [right; reflexivity | left].
  apply str_ltb_antisym; assumption.
Qed.

Lemma least_unique l m1 m2 : least l m1 -> least l m2 -> m1 = m2.
Proof. intros [H1 L1] [H2 L2]. apply str_ltb_antisym; auto. Qed.

Lemma least_perm l1 l2 m : Permutation l1 l2 -> least l1 m -> least l2 m.
Proof.
  intros Hp [Hin Hl]. split.
  - eapply Permutation_in; eassumption.
  - intros x Hx. apply Hl. eapply Permutation_in; [symmetry|]; eassumption.
Qed.

Lemma insert_sorted_head x l :
  exists t, insert_sorted x l = match l with
                                | [] => x
                                | y :: _ => if str_ltb x y then x else y
                                end :: t.
Proof.
  destruct l as [|y l]; simpl; [eauto|]. destruct (str_ltb x y); eauto.
Qed.

Lemma sort_strings_head x l : exists m t, sort_strings (x :: l) = m :: t /\ least (x :: l) m.
Proof.
  revert x. induction l as [|y l IH]; intros x.
  - exists x, []. split; [reflexivity|]. split; [left; reflexivity|].
    intros z [<-|[]]. apply str_ltb_irrefl.
  - destruct (IH y) as (m & t & Hs & Hin & Hl).
    change (sort_strings (x :: y :: l)) with (insert_sorted x (sort_strings (y :: l))).
    rewrite Hs. simpl. destruct (str_ltb x m) eqn:Hx.
    + exists x, (m :: t). split; [reflexivity|]. split; [left; reflexivity|].
      intros z [<-|Hz]; [apply str_ltb_irrefl|].
      destruct (str_ltb z x) eqn:Hzx; [|reflexivity].
      rewrite <- (Hl z Hz). symmetry. eapply str_ltb_trans; eassumption.
    + exists m, (insert_sorted x t). split; [reflexivity|]. split; [right; exact Hin|].
      intros z [<-|Hz]; [exact Hx | apply Hl, Hz].
Qed.

(** ** trim is idempotent *)
Lemma drop_while_idem p s : drop_while p (drop_while p s) = drop_while p s.
Proof.
  induction s as [|c s IH]; simpl; [reflexivity|].
  destruct (p c) eqn:Hc; [exact IH|]. simpl. rewrite Hc. reflexivity.
Qed.

Lemma drop_while_snoc p l c : p c = false -> drop_while p (l ++ [c]) = drop_while p l ++ [c].
Proof.
  intros Hc. induction l as [|d l IH]; simpl; [rewrite Hc; reflexivity|].
  destruct (p d); [exact IH | reflexivity].
Qed.

Lemma trimEnd_cons c s : is_space c = false -> trimEnd (c :: s) = c :: trimEnd s.
Proof.
  intros Hc. unfold trimEnd. simpl. rewrite drop_while_snoc by exact Hc.
  rewrite rev_app_distr. reflexivity.
Qed.

Lemma trimEnd_idem s : trimEnd (trimEnd s) = trimEnd s.
Proof. unfold trimEnd. rewrite rev_involutive, drop_while_idem. reflexivity. Qed.

Lemma trim_idem s : trim (trim s) = trim s.
Proof.
  unfold trim. destruct (trimStart s) as [|c x] eqn:Hx; [reflexivity|].
  apply drop_while_head in Hx as Hc.
  rewrite trimEnd_cons by exact Hc. unfold trimStart at 1. simpl. rewrite Hc.
  rewrite <- trimEnd_cons by exact Hc. apply trimEnd_idem.
Qed.

Lemma trimEnd_no_space s : Forall (fun c => is_space c = false) s -> trimEnd s = s.
Proof.
  induction 1 as [|c s Hc _ IH]; [reflexivity|].
  rewrite trimEnd_cons by exact Hc. f_equal. exact IH.
Qed.

Lemma trim_no_space s : Forall (fun c => is_space c = false) s -> trim s = s.
Proof.
  intros H. unfold trim.
  assert (Hs : trimStart s = s).
  { destruct H as [|c s Hc _]; [reflexivity|]. unfold trimStart. simpl. rewrite Hc. reflexivity. }
  rewrite Hs. apply trimEnd_no_space, H.
Qed.

(** ** Character classes *)

Lemma hex_not_space c : is_hex c = true -> is_space c = false.
Proof. intros H. class_facts. Qed.

Lemma hex_not_lf c : is_hex c = true -> c <> LF.
Proof. intros H. class_facts. Qed.

(** ** Lines *)
Lemma split_on_line c l s :
  Forall (fun x => x <> c) l -> split_on c (l ++ c :: s) = l :: split_on c s.
Proof.
  induction 1 as [|x l Hx _ IH]; simpl.
  - rewrite N.eqb_refl. reflexivity.
  - destruct (N.eqb_spec x c); [contradiction|]. rewrite IH. reflexivity.
Qed.

Lemma split_on_no_sep c l : Forall (fun x => x <> c) l -> split_on c l = [l].
Proof.
  induction 1 as [|x l Hx _ IH]; simpl; [reflexivity|].
  destruct (N.eqb_spec x c); [contradiction|]. rewrite IH. reflexivity.
Qed.

(** ** Repetition of a class *)
Section RepFacts.
Variable input : jsstring.

Lemma rmatch_rep_cls p n : forall w r c k,
  length w = n -> Forall (fun x => p x = true) w ->
  rmatch input (Rep n (Cls p)) (MState (w ++ r) c) k = k (MState r c).
Proof.
  induction n as [|n IH]; intros w r c k Hlen Hw.
  - destruct w; [reflexivity | discriminate].
  - destruct w as [|x w]; [discriminate|]. inversion Hw; subst.
    cbn [Rep rmatch rest app]. rewrite H1. cbn [caps]. apply IH; [|assumption].
    simpl in Hlen. lia.
Qed.
End RepFacts.

Lemma hex_test n s :
  length s = n -> Forall (fun x => is_hex x = true) s ->
  regex_test (seqs [Bos; Rep n (Cls is_hex); Eos]) s = true.
Proof.
  intros Hlen Hs. unfold regex_test. cbn [seqs]. rewrite search_bos.
  cbn [rmatch]. rewrite <- (app_nil_r s) at 2.
  rewrite (rmatch_rep_cls s is_hex n s [] no_caps _ Hlen Hs). reflexivity.
Qed.

Lemma split_git_output hashes :
  Forall is_hash hashes ->
  split_on LF (git_output hashes) = hashes ++ [[]].
Proof.
  induction 1 as [|h hs [_ Hh] _ IH]; [reflexivity|].
  unfold git_output in *. simpl. rewrite <- app_assoc. simpl.
  rewrite split_on_line, IH; [reflexivity|].
  eapply Forall_impl; [exact Hh|]. intros c Hc. apply hex_not_lf, Hc.
Qed.

Lemma roots_of_git_output hashes :
  Forall is_hash hashes -> roots_of_output (git_output hashes) = sort_strings hashes.
Proof.
  intros H. unfold roots_of_output. rewrite split_git_output by exact H. f_equal.
  induction H as [|h hs [Hlen Hh] _ IH]; [reflexivity|].
  simpl. rewrite filter_cons. destruct h as [|c h]; [discriminate|].
  rewrite decide_True by discriminate. simpl. f_equal; [|exact IH].
  apply trim_no_space. eapply Forall_impl; [exact Hh|]. intros x Hx. apply hex_not_space, Hx.
Qed.

Section ProjectIdFacts.
Variable path_join : list jsstring -> jsstring.
Variable path_resolve : jsstring -> jsstring -> jsstring.
Variable sha256_hex : jsstring -> jsstring.

Let getId := getProjectId path_join path_resolve sha256_hex.
Let locate := locate_gitDir path_join path_resolve.
Let cacheFile gitDir := path_join [gitDir; u "opencode"].

Lemma cached_or_generate_unusable r root gitDir :
  cache_unusable r (cacheFile gitDir) ->
  cached_or_generate path_join sha256_hex r root gitDir
  = generate_id sha256_hex r root (cacheFile gitDir).
Proof.
  unfold cache_unusable, cached_or_generate. fold (cacheFile gitDir).
  destruct (r_files r !! cacheFile gitDir); [|reflexivity].
  intros [-> ->]. reflexivity.
Qed.

Lemma getId_located r root gitDir :
  root <> [] -> locate r root = Some (Return gitDir) ->
  getId r root = cached_or_generate path_join sha256_hex r root gitDir.
Proof.
  intros Hr Hl. subst getId locate. unfold getProjectId. rewrite Hl.
  destruct root; [contradiction | reflexivity].
Qed.

(** The smallest root commit is chosen, whatever the order of the lines. *)
Lemma getProjectId_least_root r root gitDir hashes lines stderr :
  root <> [] -> locate r root = Some (Return gitDir) ->
  cache_unusable r (cacheFile gitDir) ->
  hashes <> [] -> Forall is_hash hashes -> Permutation lines hashes ->
  r_git r root = Exited 0 (git_output lines) stderr ->
  exists id, (getId r root).2 = Return id /\ least hashes id.
Proof.
  intros Hr Hl Hc Hne Hh Hp Hg.
  rewrite (getId_located _ _ _ Hr Hl), (cached_or_generate_unusable _ _ _ Hc).
  unfold generate_id. rewrite Hg.
  assert (Hlines : Forall is_hash lines).
  { rewrite Forall_forall in *. intros x Hx. apply Hh.
    apply list_elem_of_In. eapply Permutation_in; [exact Hp|]. apply list_elem_of_In, Hx. }
  rewrite roots_of_git_output by exact Hlines.
  destruct lines as [|l lines].
  { apply Permutation_nil in Hp. congruence. }
  destruct (sort_strings_head l lines) as (m & t & -> & Hleast).
  assert (Hm : is_hash m).
  { rewrite Forall_forall in Hlines. apply Hlines, list_elem_of_In, Hleast. }
  destruct Hm as [Hlen Hhex]. unfold hex40Regex. rewrite (hex_test 40 m Hlen Hhex).
  exists m. split; [reflexivity|]. eapply least_perm; eassumption.
Qed.

Lemma generate_id_returns r root file :
  exists r' id, generate_id sha256_hex r root file = (r', Return id)
    /\ (regex_test hex40Regex id = true \/ id = hashPath sha256_hex root)
    /\ (r' = r \/ (regex_test hex40Regex id = true /\ trim id = id /\
                   r' = mkRepo (r_stat r) (<[file := id]> (r_files r)) (r_git r) (r_write_error r))).
Proof.
  unfold generate_id.
  destruct (r_git r root) as [e| |code out err]; [eauto 10..|].
  destruct code as [|?|?]; [|eauto 10..].
  destruct (roots_of_output out) as [|id t] eqn:Hroots; [eauto 10|].
  destruct (regex_test hex40Regex id) eqn:Ht; [|eauto 10].
  exists (write_cache r file id), id. split; [reflexivity|]. split; [auto|].
  unfold write_cache. destruct (r_write_error r file); [auto|]. right.
  split; [exact Ht|]. split; [|reflexivity].
  unfold roots_of_output in Hroots.
  assert (Hin : In id (sort_strings (map trim (filter (fun x => x <> []) (split_on LF out))))).
  { rewrite Hroots. left. reflexivity. }
  assert (Hs : forall l x, In x (sort_strings l) -> In x l).
  { clear. induction l as [|y l IH]; simpl; [auto|]. intros x Hx.
    assert (Hi : forall z l', In x (insert_sorted z l') -> x = z \/ In x l').
    { clear. intros z l'. induction l' as [|w l' IH]; simpl; [intuition|].
      destruct (str_ltb z w); simpl; intuition. }
    apply Hi in Hx as [->|Hx]; auto. }
  apply Hs in Hin. apply in_map_iff in Hin as (x & <- & _). apply trim_idem.
Qed.

(** A malformed cache is passed over: the identity is the one generated
    without any cache, a value is returned, and it is not the cached text. *)
Lemma getProjectId_malformed_cache r root gitDir text :
  (forall s, length (sha256_hex s) = 64%nat /\ Forall (fun c => is_hex c = true) (sha256_hex s)) ->
  root <> [] -> locate r root = Some (Return gitDir) ->
  r_files r !! cacheFile gitDir = Some text -> malformed (trim text) ->
  getId r root = generate_id sha256_hex r root (cacheFile gitDir)
  /\ exists id, (getId r root).2 = Return id /\ id <> trim text.
Proof.
  intros Hsha Hr Hl Hf Hm.
  assert (Hc : cache_unusable r (cacheFile gitDir)).
  { unfold cache_unusable. rewrite Hf. exact Hm. }
  rewrite (getId_located _ _ _ Hr Hl), (cached_or_generate_unusable _ _ _ Hc).
  split; [reflexivity|].
  destruct (generate_id_returns r root (cacheFile gitDir)) as (r' & id & -> & Hid & _).
  exists id. split; [reflexivity|]. intros ->. destruct Hm as [H40 H16].
  destruct Hid as [Hid|Hid]; [congruence|].
  assert (regex_test hex16Regex (trim text) = true); [|congruence].
  rewrite Hid. unfold hashPath, hex16Regex. destruct (Hsha root) as [Hlen Hhex].
  apply hex_test.
  - rewrite length_take. lia.
  - apply Forall_take, Hhex.
Qed.

(** A second call on the repository as the first call left it gives the
    same identity. *)
Lemma getProjectId_repeatable r root r1 id :
  getId r root = (r1, Return id) ->
  locate r1 root = locate r root ->
  (getId r1 root).2 = Return id.
Proof.
  subst getId locate. unfold getProjectId. intros H Hloc.
  destruct root as [|c root]; [discriminate|]. rewrite Hloc.
  destruct (locate_gitDir path_join path_resolve r (c :: root)) as [[gitDir|e|]|];
    [|discriminate..|].
  2: { inversion H; subst. reflexivity. }
  unfold cached_or_generate in *. set (file := path_join [gitDir; u "opencode"]) in *.
  destruct (r_files r !! file) as [text|] eqn:Hf.
  - destruct (regex_test hex40Regex (trim text) || regex_test hex16Regex (trim text)) eqn:Ht.
    + inversion H; subst. rewrite Hf, Ht. reflexivity.
    + destruct (generate_id_returns r (c :: root) file) as (r' & id' & Hg & Hid & Hr').
      rewrite Hg in H. inversion H; subst r' id'. clear H.
      destruct Hr' as [->|(H40 & Htrim & ->)].
      * rewrite Hf, Ht, Hg. reflexivity.
      * simpl. rewrite lookup_insert_eq, Htrim, H40. reflexivity.
  - destruct (generate_id_returns r (c :: root) file) as (r' & id' & Hg & Hid & Hr').
    rewrite Hg in H. inversion H; subst r' id'. clear H.
    destruct Hr' as [->|(H40 & Htrim & ->)].
    * rewrite Hf, Hg. reflexivity.
    * simpl. rewrite lookup_insert_eq, Htrim, H40. reflexivity.
Qed.
(** C3. [getProjectId] is deterministic for a fixed repository: with the
    metadata directory located and no usable cache, the identity is the least
    of the root commit hashes in the order of [sort], whatever the order git
    lists them in; a second call on the repository as the first call left it
    returns the same identity; and a cache file whose trimmed content has
    neither accepted shape is passed over: the call is the one of the same
    repository generating afresh, it returns a value and that value is not
    the cached text. *)
Theorem getProjectId_deterministic r root gitDir :
root <> [] -> locate r root = Some (Return gitDir) ->
(forall hashes lines stderr,
   cache_unusable r (cacheFile gitDir) ->
   hashes <> [] -> Forall is_hash hashes -> Permutation lines hashes ->
   r_git r root = Exited 0 (git_output lines) stderr ->
   exists id, (getId r root).2 = Return id /\ least hashes id
     /\ forall id', least hashes id' -> id' = id)
/\ (forall r1 id,
   getId r root = (r1, Return id) -> locate r1 root = locate r root ->
   (getId r1 root).2 = Return id)
/\ (forall text,
   (forall s, length (sha256_hex s) = 64%nat
              /\ Forall (fun c => is_hex c = true) (sha256_hex s)) ->
   r_files r !! cacheFile gitDir = Some text -> malformed (trim text) ->
   getId r root = generate_id sha256_hex r root (cacheFile gitDir)
   /\ exists id, (getId r root).2 = Return id /\ id <> trim text).
Proof.
intros Hr Hl. split; [|split].
- intros hashes lines stderr Hc Hne Hh Hp Hg.
  destruct (getProjectId_least_root r root gitDir hashes lines stderr
              Hr Hl Hc Hne Hh Hp Hg) as (id & Hid & Hleast).
  exists id. split; [exact Hid|]. split; [exact Hleast|].
  intros id' Hid'. eapply least_unique; eassumption.
- intros r1 id. apply getProjectId_repeatable.
- intros text Hsha Hf Hm.
  apply (getProjectId_malformed_cache r root gitDir text Hsha Hr Hl Hf Hm).
Qed.
End ProjectIdFacts.

(** ** Matching symbolic text *)
Section Symbolic.
Variable input : jsstring.

Lemma rmatch_seq a b st k :
  rmatch input (Seq a b) st k = rmatch input a st (fun st1 => rmatch input b st1 k).
Proof. reflexivity. Qed.

Lemma rmatch_lit_app s r c k :
  rmatch input (Lit s) (MState (s ++ r) c) k = k (MState r c).
Proof. cbn [rmatch rest caps]. rewrite strip_lit_app. reflexivity. Qed.

Lemma rmatch_lit_head a s b r c k :
  a <> b -> rmatch input (Lit (a :: s)) (MState (b :: r) c) k = None.
Proof. intros H. cbn [rmatch rest]. rewrite strip_lit_head by exact H. reflexivity. Qed.

Lemma rmatch_lit_nil a s c k : rmatch input (Lit (a :: s)) (MState [] c) k = None.
Proof. reflexivity. Qed.

Lemma rmatch_cls p x r c k :
  p x = true -> rmatch input (Cls p) (MState (x :: r) c) k = k (MState r c).
Proof. intros H. cbn [rmatch rest caps]. rewrite H. reflexivity. Qed.

(** One step of a starred class. *)
Lemma star_cls_cons g p x r c k :
  rmatch input (Star g (Cls p)) (MState (x :: r) c) k =
  let step := if p x then rmatch input (Star g (Cls p)) (MState r c) k else None in
  if g then match step with Some y => Some y | None => k (MState (x :: r) c) end
  else match k (MState (x :: r) c) with Some y => Some y | None => step end.
Proof.
  cbn [rmatch rest]. cbn [star_loop]. cbn [rmatch clear_groups rest caps groups fold_right].
  destruct (p x); [|reflexivity].
  unfold progressed. cbn [rest length].
  destruct (Nat.ltb_spec (length r) (S (length r))); [reflexivity | lia].
Qed.

Lemma star_cls_nil g p c k :
  rmatch input (Star g (Cls p)) (MState [] c) k = k (MState [] c).
Proof. cbn. destruct g; [reflexivity|]. destruct (k _); reflexivity. Qed.

Lemma star_greedy_stop p r c k :
  run_ends p r ->
  rmatch input (Star true (Cls p)) (MState r c) k = k (MState r c).
Proof.
  destruct r as [|x r]; intros H; [apply star_cls_nil|].
  rewrite star_cls_cons. simpl in H. rewrite H. reflexivity.
Qed.

(** A greedy run takes the whole run when the rest of the pattern
    accepts there. *)
Lemma star_greedy_run p w : forall r c k y,
  Forall (fun x => p x = true) w -> run_ends p r ->
  k (MState r c) = Some y ->
  rmatch input (Star true (Cls p)) (MState (w ++ r) c) k = Some y.
Proof.
  induction w as [|x w IH]; intros r c k y Hw Hr Hk.
  - cbn [app]. rewrite star_greedy_stop by exact Hr. exact Hk.
  - inversion Hw; subst. cbn [app]. rewrite star_cls_cons. cbn zeta.
    rewrite H1, (IH r c k y) by assumption. reflexivity.
Qed.

Lemma plus_greedy_run p w r c k y :
  w <> [] -> Forall (fun x => p x = true) w -> run_ends p r ->
  k (MState r c) = Some y ->
  rmatch input (Plus (Cls p)) (MState (w ++ r) c) k = Some y.
Proof.
  intros Hne Hw Hr Hk. destruct w as [|x w]; [contradiction|]. inversion Hw; subst.
  unfold Plus. rewrite rmatch_seq. cbn [app]. rewrite rmatch_cls by assumption.
  apply star_greedy_run; assumption.
Qed.

(** A lazy run passes over text at which the rest of the pattern fails. *)
Lemma star_lazy_skip p w : forall r c k,
  Forall (fun x => p x = true) w ->
  (forall w1 w2, w = w1 ++ w2 -> w2 <> [] -> k (MState (w2 ++ r) c) = None) ->
  rmatch input (Star false (Cls p)) (MState (w ++ r) c) k
  = rmatch input (Star false (Cls p)) (MState r c) k.
Proof.
  induction w as [|x w IH]; intros r c k Hw Hk; [reflexivity|].
  inversion Hw; subst. cbn [app]. rewrite star_cls_cons. cbn zeta.
  pose proof (Hk [] (x :: w) eq_refl ltac:(discriminate)) as H0.
  cbn [app] in H0. rewrite H0, H1. apply IH; [assumption|].
  intros w1 w2 -> Hne. apply (Hk (x :: w1)); [reflexivity | exact Hne].
Qed.

Lemma star_lazy_stop p r c k y :
  k (MState r c) = Some y ->
  rmatch input (Star false (Cls p)) (MState r c) k = Some y.
Proof.
  intros Hk. destruct r as [|x r].
  - rewrite star_cls_nil. exact Hk.
  - rewrite star_cls_cons. rewrite Hk. reflexivity.
Qed.

Lemma rmatch_group i a st k :
  rmatch input (Group i a) st k
  = rmatch input a st (fun st1 =>
      k (MState (rest st1) (set_cap i (Some (consumed st st1)) (caps st1)))).
Proof. reflexivity. Qed.

Lemma rmatch_opt_skip a st k :
  rmatch input a (clear_groups a st)
    (fun st1 => if progressed st st1 then k st1 else None) = None ->
  rmatch input (Opt a) st k = k st.
Proof. intros H. cbn [rmatch]. rewrite H. reflexivity. Qed.

Lemma rmatch_opt_take a st k y :
  rmatch input a (clear_groups a st)
    (fun st1 => if progressed st st1 then k st1 else None) = Some y ->
  rmatch input (Opt a) st k = Some y.
Proof. intros H. cbn [rmatch]. rewrite H. reflexivity. Qed.

Lemma consumed_app w r c c1 : consumed (MState (w ++ r) c) (MState r c1) = w.
Proof.
  unfold consumed. cbn [rest]. rewrite length_app.
  replace (length w + length r - length r)%nat with (length w) by lia.
  apply take_app_length.
Qed.

(** ** Searching *)
Lemma search_cons_fail r x from :
  rmatch input r (MState (x :: from) no_caps) Some = None ->
  search input r (x :: from) = search input r from.
Proof. intros H. cbn [search]. rewrite H. reflexivity. Qed.

Lemma search_found r from st :
  rmatch input r (MState from no_caps) Some = Some st ->
  search input r from = Some (MatchResult from (rest st) (caps st)).
Proof. intros H. destruct from; cbn [search]; rewrite H; reflexivity. Qed.

Lemma search_skip_lit a s r w from :
  Forall (fun x => x <> a) w ->
  search input (Seq (Lit (a :: s)) r) (w ++ from)
  = search input (Seq (Lit (a :: s)) r) from.
Proof.
  induction 1 as [|x w Hx _ IH]; [reflexivity|].
  cbn [app]. rewrite search_cons_fail; [exact IH|].
  rewrite rmatch_seq. apply rmatch_lit_head. congruence.
Qed.
End Symbolic.

Lemma forallb_Forall_ok {A} (p : A -> bool) l : forallb p l = true -> Forall (fun x => p x = true) l.
Proof.
  induction l as [|x l IH]; simpl; [constructor|].
  intros H. apply andb_prop in H as [H1 H2]. constructor; auto.
Qed.

Lemma is_digits_inv s :
  is_digits s = true -> s <> [] /\ Forall (fun x => is_digit x = true) s.
Proof.
  unfold is_digits. intros H. apply andb_prop in H as [H1 H2]. split.
  - destruct s; [discriminate | discriminate].
  - apply forallb_Forall_ok, H2.
Qed.

Lemma trimStart_app_nonblank a b :
  trimStart a <> [] -> trimStart (a ++ b) = trimStart a ++ b.
Proof.
  unfold trimStart. induction a as [|x a IH]; simpl; [congruence|].
  destruct (is_space x); [exact IH | reflexivity].
Qed.

Lemma trimEnd_snoc_space s x : is_space x = true -> trimEnd (s ++ [x]) = trimEnd s.
Proof. intros H. unfold trimEnd. rewrite rev_app_distr. simpl. rewrite H. reflexivity. Qed.

Lemma trimStart_snoc_space s x : is_space x = true ->
  trimEnd (trimStart (s ++ [x])) = trimEnd (trimStart s).
Proof.
  intros H. destruct (trimStart s) as [|y t] eqn:Hs.
  - unfold trimStart in *. apply drop_while_nil_all in Hs.
    rewrite drop_while_all; [reflexivity|]. apply Forall_app. split; [exact Hs|].
    constructor; [exact H | constructor].
  - rewrite trimStart_app_nonblank by (rewrite Hs; discriminate).
    rewrite Hs. apply trimEnd_snoc_space, H.
Qed.

Lemma trim_snoc_space s : trim (s ++ u " ") = trim s.
Proof. unfold trim. apply (trimStart_snoc_space s 32). reflexivity. Qed.

Section TaskLine.
Variable input : jsstring.

Lemma rmatch_lit_fail s r c k :
  strip_lit s r = None -> rmatch input (Lit s) (MState r c) k = None.
Proof. intros H. cbn [rmatch rest]. rewrite H. reflexivity. Qed.

Lemma rmatch_cls_app p x r c k :
  p x = true -> rmatch input (Cls p) (MState ([x] ++ r) c) k = k (MState r c).
Proof. apply rmatch_cls. Qed.

Lemma consumed_suffix st st1 w : rest st = w ++ rest st1 -> consumed st st1 = w.
Proof.
  intros H. unfold consumed. rewrite H, length_app.
  replace (length w + length (rest st1) - length (rest st1))%nat with (length w) by lia.
  apply take_app_length.
Qed.

Lemma task_line_match t tail :
  task_ok t = true ->
  exists c, rmatch input taskRegex (MState (task_line t ++ LF :: tail) no_caps) Some
            = Some (MState (LF :: tail) c)
    /\ task_of_match (MatchResult (task_line t ++ LF :: tail) (LF :: tail) c) = raw_task t.
Proof.
  intros Hok. unfold task_ok in Hok.
  apply andb_prop in Hok as [Hok Hcontent]. apply andb_prop in Hok as [Hok Htext].
  apply andb_prop in Hok as [Hmaj Hmin].
  apply is_digits_inv in Hmaj as [Hmaj0 Hmaj]. apply is_digits_inv in Hmin as [Hmin0 Hmin].
  apply forallb_Forall_ok in Htext.
  assert (Hrun : Forall (fun x => not_arrow_nl x = true) (ct_text t)).
  { eapply Forall_impl; [exact Htext|]. intros x Hx.
    unfold task_text_char, not_arrow_nl in *.
    destruct (x =? LF), (x =? LARROW); try reflexivity; discriminate. }
  destruct t as [checked major minor text current].
  cbn [ct_checked ct_major ct_minor ct_text ct_current] in *.
  unfold task_line. cbn [ct_checked ct_major ct_minor ct_text ct_current].
  assert (Htext0 : text <> []) by (destruct text; [discriminate Hcontent | discriminate]).
  set (box := if checked then 120 else 32).
  assert (Hbox : space_or_x box = true) by (subst box; destruct checked; reflexivity).
  assert (Hstar : strip_lit (u "**") (major ++ u "." ++ minor ++ u " " ++ text
                    ++ (if current then u " ← CURRENT" else []) ++ LF :: tail) = None).
  { destruct major as [|x major]; [contradiction|]. inversion Hmaj; subst.
    apply (strip_lit_head 42 [42] x). intros <-. discriminate. }
  destruct current; eexists; (split; [|shelve]); unfold taskRegex; cbn [seqs];
    rewrite <- !app_assoc;
    rewrite rmatch_seq, rmatch_lit_app;
    rewrite rmatch_seq, rmatch_group, rmatch_cls_app by exact Hbox;
    cbn [rest caps]; rewrite (consumed_suffix _ _ [box]) by reflexivity;
    rewrite rmatch_seq, rmatch_lit_app;
    (rewrite rmatch_seq, rmatch_opt_skip;
     [|rewrite rmatch_group; apply rmatch_lit_fail; unfold clear_groups; cbn [rest];
       rewrite <- ?app_assoc in Hstar; exact Hstar]);
    rewrite rmatch_seq, rmatch_group; cbn [seqs];
    rewrite rmatch_seq;
    (eapply plus_greedy_run; [exact Hmaj0 | exact Hmaj | reflexivity |]);
    rewrite rmatch_seq, rmatch_lit_app;
    (eapply plus_greedy_run; [exact Hmin0 | exact Hmin | reflexivity |]);
    cbn [rest caps];
    rewrite (consumed_suffix _ _ (major ++ u "." ++ minor))
      by (cbn [rest]; rewrite <- !app_assoc; reflexivity);
    rewrite rmatch_seq, rmatch_lit_app;
    rewrite rmatch_seq, rmatch_group.
  - (* marked *)
    change (u " ← CURRENT") with (u " " ++ u "← CURRENT"). rewrite <- !app_assoc.
    rewrite (app_assoc text (u " ")).
    eapply plus_greedy_run.
    { destruct text; discriminate. }
    { apply Forall_app. split; [exact Hrun | repeat constructor]. }
    { reflexivity. }
    cbn [rest caps]. rewrite (consumed_suffix _ _ (text ++ u " ")) by reflexivity.
    rewrite rmatch_seq. eapply rmatch_opt_take.
    rewrite rmatch_group. unfold clear_groups. cbn [rest caps groups fold_right].
    rewrite rmatch_lit_app. cbn [rest caps]. unfold progressed. cbn [rest].
    assert (Hp : (length (LF :: tail) <? length (u "← CURRENT" ++ LF :: tail))%nat = true).
    { apply Nat.ltb_lt. rewrite length_app. vm_compute (length (u "← CURRENT")). lia. }
    rewrite Hp. rewrite (consumed_suffix _ _ (u "← CURRENT")) by reflexivity.
    rewrite rmatch_seq. apply star_lazy_stop.
    rewrite rmatch_opt_skip; [reflexivity|].
    rewrite rmatch_group. apply rmatch_lit_fail. reflexivity.
  - (* not marked *)
    rewrite app_nil_l.
    eapply plus_greedy_run; [exact Htext0 | exact Hrun | reflexivity |].
    cbn [rest caps]. rewrite (consumed_suffix _ _ text) by reflexivity.
    rewrite rmatch_seq, rmatch_opt_skip.
    2: { rewrite rmatch_group. apply rmatch_lit_fail. reflexivity. }
    rewrite rmatch_seq. apply star_lazy_stop.
    rewrite rmatch_opt_skip; [reflexivity|].
    rewrite rmatch_group. apply rmatch_lit_fail. reflexivity.
  Unshelve.
  all: unfold task_of_match, group, raw_task;
    cbn [m_caps set_cap Nat.eqb default from_option id fmap option_fmap option_map
         ct_checked ct_major ct_minor ct_text ct_current];
    unfold id; rewrite ?trim_snoc_space; subst box; destruct checked; reflexivity.
Qed.
End TaskLine.


Section TaskLoop.
Variable input : jsstring.



End TaskLoop.


(** ** What a match tells of the text *)

Section Inversion.
Variable input : jsstring.

Lemma rmatch_lit_inv s rr c k y :
  rmatch input (Lit s) (MState rr c) k = Some y ->
  exists r, rr = s ++ r /\ k (MState r c) = Some y.
Proof.
  cbn [rmatch rest caps]. destruct (strip_lit s rr) as [r|] eqn:Hs; [|discriminate].
  intros H. exists r. split; [apply strip_lit_Some, Hs | exact H].
Qed.

Lemma rmatch_cls_inv p rr c k y :
  rmatch input (Cls p) (MState rr c) k = Some y ->
  exists x r, rr = x :: r /\ p x = true /\ k (MState r c) = Some y.
Proof.
  cbn [rmatch rest caps]. destruct rr as [|x r]; [discriminate|].
  destruct (p x) eqn:Hp; [|discriminate]. intros H. exists x, r. auto.
Qed.

Lemma rmatch_rep_cls_inv p n : forall rr c k y,
  rmatch input (Rep n (Cls p)) (MState rr c) k = Some y ->
  exists w r, rr = w ++ r /\ length w = n /\ Forall (fun x => p x = true) w
              /\ k (MState r c) = Some y.
Proof.
  induction n as [|n IH]; intros rr c k y H.
  - exists [], rr. repeat split; [constructor | exact H].
  - cbn [Rep] in H. rewrite rmatch_seq in H.
    apply rmatch_cls_inv in H as (x & r & -> & Hp & H).
    apply IH in H as (w & r' & -> & Hl & Hw & H).
    exists (x :: w), r'. repeat split; [simpl; lia | constructor; assumption | exact H].
Qed.

Lemma star_cls_inv p g n : forall rr c k y,
  star_loop (fun s => rmatch input (Cls p) (clear_groups (Cls p) s)) g k n (MState rr c)
    = Some y ->
  exists w r, rr = w ++ r /\ Forall (fun x => p x = true) w /\ k (MState r c) = Some y.
Proof.
  induction n as [|n IH]; intros rr c k y H; [discriminate|].
  cbn [star_loop] in H.
  assert (Hbody : forall z,
    rmatch input (Cls p) (clear_groups (Cls p) (MState rr c))
      (fun st1 => if progressed (MState rr c) st1
                  then star_loop (fun s => rmatch input (Cls p) (clear_groups (Cls p) s)) g k n st1
                  else None) = Some z ->
    exists w r, rr = w ++ r /\ Forall (fun x => p x = true) w /\ k (MState r c) = Some z).
  { intros z Hz. unfold clear_groups in Hz. cbn [rest caps groups fold_right] in Hz.
    apply rmatch_cls_inv in Hz as (x & r & -> & Hp & Hz).
    destruct (progressed _ _); [|discriminate].
    apply IH in Hz as (w & r' & -> & Hw & Hz).
    exists (x :: w), r'. repeat split; [constructor; assumption | exact Hz]. }
  assert (Hzero : forall z, k (MState rr c) = Some z ->
    exists w r, rr = w ++ r /\ Forall (fun x => p x = true) w /\ k (MState r c) = Some z).
  { intros z Hz. exists [], rr. repeat split; [constructor | exact Hz]. }
  destruct g.
  - destruct (rmatch input (Cls p) _ _) as [z|] eqn:Hz.
    + inversion H; subst z. apply Hbody. reflexivity.
    + apply Hzero, H.
  - destruct (k (MState rr c)) as [z|] eqn:Hz.
    + inversion H; subst z. apply Hzero. reflexivity.
    + apply Hbody, H.
Qed.

Lemma rmatch_plus_cls_inv p rr c k y :
  rmatch input (Plus (Cls p)) (MState rr c) k = Some y ->
  exists w r, w <> [] /\ rr = w ++ r /\ Forall (fun x => p x = true) w
              /\ k (MState r c) = Some y.
Proof.
  unfold Plus. rewrite rmatch_seq. intros H.
  apply rmatch_cls_inv in H as (x & r & -> & Hp & H).
  cbn [rmatch] in H. apply star_cls_inv in H as (w & r' & -> & Hw & H).
  exists (x :: w), r'. repeat split; [discriminate | constructor; assumption | exact H].
Qed.

Lemma rmatch_eos_inv rr c k y :
  rmatch input Eos (MState rr c) k = Some y -> rr = [] /\ k (MState rr c) = Some y.
Proof. cbn [rmatch rest]. destruct rr; [auto | discriminate]. Qed.
End Inversion.

(** ** Digits *)
Lemma is_digit_cases x : is_digit x = true ->
  x = 48 \/ x = 49 \/ x = 50 \/ x = 51 \/ x = 52 \/ x = 53 \/ x = 54 \/ x = 55 \/ x = 56 \/ x = 57.
Proof. unfold is_digit. rewrite andb_true_iff, !N.leb_le. lia. Qed.


Lemma digits_value_nonneg ds : (0 <= digits_value ds)%Z.
Proof.
  unfold digits_value.
  assert (H : forall acc, (0 <= acc)%Z ->
            (0 <= fold_left (fun acc c => acc * 10 + digit_val c) ds acc)%Z).
  { induction ds as [|c ds IH]; intros acc Hacc; [exact Hacc|].
    cbn [fold_left]. apply IH. unfold digit_val. lia. }
  apply H. lia.
Qed.

(** The integers a double holds exactly. *)
Lemma round_double_small m : (0 <= m < 2 ^ 53)%Z -> round_double m = m.
Proof.
  intros [H0 H]. unfold round_double.
  assert (Hl : (Z.log2 m < 53)%Z).
  { destruct (Z.eq_dec m 0%Z) as [->|Hne]; [reflexivity|].
    apply Z.log2_lt_pow2; lia. }
  destruct (Z.leb_spec (Z.log2 m - 52) 0%Z) as [_|Hgt]; [reflexivity | lia].
Qed.

Lemma number_of_small m : (0 <= m <= MAX_SAFE_INTEGER)%Z -> number_of false m = Num m.
Proof.
  intros [H0 H]. unfold number_of, MAX_SAFE_INTEGER in *.
  rewrite round_double_small by lia.
  destruct (Z.leb_spec (2 ^ 1024) m) as [Hbig|_]; [|reflexivity].
  exfalso. assert (2 ^ 53 < 2 ^ 1024)%Z by (apply Z.pow_lt_mono_r; lia). lia.
Qed.


Lemma lit_no (a : N) s :
  forallb (fun x => negb (x =? a)) s = true -> Forall (fun x => x <> a) s.
Proof.
  intros H. apply forallb_Forall_ok in H. eapply Forall_impl; [exact H|].
  intros x Hx ->. rewrite N.eqb_refl in Hx. discriminate.
Qed.



(** A heading is written on one line: what follows the line break does not
    matter. *)
Lemma strip_lit_line lit : Forall (fun x => x <> LF) lit -> forall s more,
  strip_lit lit (s ++ LF :: more) = (fun r => r ++ LF :: more) <$> strip_lit lit s.
Proof.
  induction 1 as [|a lit Ha _ IH]; intros s more; [reflexivity|].
  destruct s as [|b s]; cbn [app strip_lit].
  - destruct (N.eqb_spec a LF); [contradiction | reflexivity].
  - destruct (a =? b); [apply IH | reflexivity].
Qed.








Section PhaseBlock.
Variable input : jsstring.






End PhaseBlock.

Lemma no_hash_neq s : forallb no_hash s = true -> Forall (fun x => x <> HASH) s.
Proof.
  intros H. apply forallb_Forall_ok in H. eapply Forall_impl; [exact H|].
  intros x Hx ->. discriminate.
Qed.

Lemma digit_no_hash s : Forall (fun x => is_digit x = true) s -> Forall (fun x => x <> HASH) s.
Proof.
  intros H. eapply Forall_impl; [exact H|]. intros x Hx ->. discriminate.
Qed.




Section PhaseMatch.
Variable input : jsstring.

End PhaseMatch.



Section PhaseLoop.
Variable input : jsstring.


(** Text without a hash cannot start a heading. *)
Lemma search_skip_no_hash s r w from :
  Forall (fun x => x <> HASH) w ->
  search input (Seq (Lit (HASH :: s)) r) (w ++ from)
  = search input (Seq (Lit (HASH :: s)) r) from.
Proof.
  intros H. apply search_skip_lit. eapply Forall_impl; [exact H|]. auto.
Qed.
End PhaseLoop.





Lemma fence_free_no_lf w r : Forall (fun x => x <> LF) w -> fence_free w r.
Proof.
  intros H w1 w2 -> Hne. apply Forall_app in H as [_ H].
  destruct w2 as [|x w2]; [contradiction|]. inversion H; subst.
  apply (strip_lit_head LF (u "---") x). congruence.
Qed.

Lemma fence_free_app a b r :
  fence_free a (b ++ r) -> fence_free b r -> fence_free (a ++ b) r.
Proof.
  intros Ha Hb w1 w2 Hw Hne.
  apply app_eq_app in Hw as (l & [[Ha' Hw2]|[Hw1 Hb']]).
  - subst w2. destruct l as [|x l].
    + simpl. apply (Hb [] b); [reflexivity|]. simpl in Hne. exact Hne.
    + rewrite <- app_assoc. apply (Ha w1 (x :: l)); [exact Ha' | discriminate].
  - apply (Hb l w2); [exact Hb' | exact Hne].
Qed.













Lemma exec_loop_search_eq input fuel r a b :
  search input r a = search input r b ->
  exec_loop input fuel r a = exec_loop input fuel r b.
Proof. intros H. destruct fuel; [reflexivity|]. cbn [exec_loop]. rewrite H. reflexivity. Qed.







Section SchemaAccepts.
Variable defaultMessage : issue_code -> jsstring.












End SchemaAccepts.

Section SessionFacts.
Variable session_get : jsstring -> session_response.

Lemma loop_reaches_top n : forall fuel s top,
  (n < fuel)%nat -> parent_chain session_get n s top ->
  getRootSessionID_loop session_get fuel s = Return top.
Proof.
  induction n as [|n IH]; intros fuel s top Hlt Hc; destruct fuel as [|fuel]; try lia.
  - destruct Hc as [(data & Hg & Hp) ->]. simpl. rewrite Hg, Hp. reflexivity.
  - destruct Hc as (p & (data & Hg & Hp) & Hc). simpl. rewrite Hg, Hp.
    apply IH; [lia | exact Hc].
Qed.

Lemma loop_exhausted fuel : forall n s,
  (fuel <= n)%nat -> has_links session_get n s ->
  getRootSessionID_loop session_get fuel s = Throw depthExceeded.
Proof.
  induction fuel as [|fuel IH]; intros n s Hle Hl; [reflexivity|].
  destruct n as [|n]; [lia|].
  destruct Hl as (p & (data & Hg & Hp) & Hl). simpl. rewrite Hg, Hp.
  apply (IH n); [lia | exact Hl].
Qed.

Lemma has_links_le n : forall m s,
  (m <= n)%nat -> has_links session_get n s -> has_links session_get m s.
Proof.
  induction n as [|n IH]; intros m s Hle Hl.
  - assert (m = O) by lia. subst. exact I.
  - destruct m as [|m]; [exact I|].
    destruct Hl as (p & Hd & Hl). exists p. split; [exact Hd|].
    apply IH; [lia | exact Hl].
Qed.

(** C4. From a session with a chain of exactly 9 parent links
    [getRootSessionID] returns the topmost ancestor; when 11 or more parent
    links can be followed (a cycle included) it throws the depth-exceeded
    error. *)
Theorem getRootSessionID_depth_bound (s : jsstring) :
  s <> [] ->
  (forall top, parent_chain session_get 9 s top ->
     getRootSessionID session_get (Some s) = Return top)
  /\ (forall n, (11 <= n)%nat -> has_links session_get n s ->
     getRootSessionID session_get (Some s) = Throw depthExceeded).
Proof.
  intros Hs. destruct s as [|c s]; [congruence|]. split.
  - intros top Hc. unfold getRootSessionID.
    apply (loop_reaches_top 9); [lia | exact Hc].
  - intros n Hn Hl. unfold getRootSessionID.
    apply (loop_exhausted 10 n); [lia | exact Hl].
Qed.
End SessionFacts.

Section StoreFacts.
Variable defaultMessage : issue_code -> jsstring.
Variable path_join : list jsstring -> jsstring.
Variable homedir : jsstring.
Variable session_get : jsstring -> session_response.
Variable projectId : jsstring.

Let save := plan_save defaultMessage path_join homedir session_get projectId.
Let read := plan_read path_join homedir session_get projectId.
Let pathR := planPath_read path_join homedir projectId.
Let pathS := planPath_save path_join homedir projectId.
Let sessionDir r := path_join [baseDir path_join homedir projectId; r].

Lemma resolved_not_falsy sid r :
  getRootSessionID session_get sid = Return r -> falsy sid = false.
Proof. destruct sid as [[|c s]|]; simpl; intros H; congruence. Qed.

Lemma read_after_mkdir fs d p : fs_readFile (fs_mkdir fs d).1 p = fs_readFile fs p.
Proof. unfold fs_mkdir. destruct (fs_mkdir_error fs d); reflexivity. Qed.

Lemma files_after_mkdir fs d : fs_files (fs_mkdir fs d).1 = fs_files fs.
Proof. unfold fs_mkdir. destruct (fs_mkdir_error fs d); reflexivity. Qed.

(** C7. With a session that resolves to a root: a read that fails with a
    file-not-found error (an [Error] whose code is ENOENT), as when no plan
    file exists, makes [plan_read] return "No plan found."; every other error
    of the read is thrown again as it is. *)
Theorem plan_read_missing_file fs sid rootID :
  getRootSessionID session_get sid = Return rootID ->
  (forall e, fs_readFile fs (pathR rootID) = Throw e ->
     e_is_Error e = true -> e_code e = Some (u "ENOENT") ->
     read fs sid = Return (u "No plan found."))
  /\ (fs_read_error fs (pathR rootID) = None ->
      fs_files fs !! pathR rootID = None ->
      read fs sid = Return (u "No plan found."))
  /\ (forall e, fs_readFile fs (pathR rootID) = Throw e ->
     ~ (e_is_Error e = true /\ e_code e = Some (u "ENOENT")) ->
     read fs sid = Throw e).
Proof.
  intros Hroot. pose proof (resolved_not_falsy _ _ Hroot) as Hf.
  subst read pathR. unfold plan_read. rewrite Hf, Hroot.
  assert (Hen : forall e, fs_readFile fs (planPath_read path_join homedir projectId rootID) = Throw e ->
     e_is_Error e = true -> e_code e = Some (u "ENOENT") ->
     match fs_readFile fs (planPath_read path_join homedir projectId rootID) with
     | Throw error => if isNodeError error && bool_decide (e_code error = Some (u "ENOENT"))
                      then Return (u "No plan found.") else Throw error
     | r => r end = Return (u "No plan found.")).
  { intros e He H1 H2. rewrite He. unfold isNodeError. rewrite H1, H2. reflexivity. }
  split; [exact Hen|]. split.
  - intros Hr Hn. apply (Hen (ENOENT (planPath_read path_join homedir projectId rootID))); try reflexivity.
    unfold fs_readFile. rewrite Hr, Hn. reflexivity.
  - intros e He Hne. rewrite He.
    destruct (isNodeError e && bool_decide (e_code e = Some (u "ENOENT"))) eqn:Hb; [|reflexivity].
    exfalso. apply Hne. apply andb_prop in Hb as [H1 H2].
    unfold isNodeError in H1. apply andb_prop in H1 as [H1 _].
    apply bool_decide_eq_true in H2. split; assumption.
Qed.

(** C9. [plan_save] with content that fails validation writes no file: the
    files are as before and every read gives what it gave before; the call
    never answers "Plan saved", and it returns the formatted validation error
    whenever the session resolves and the session directory can be made. *)
Theorem plan_save_invalid_writes_nothing fs content sid error hint :
  parsePlanMarkdown defaultMessage (VString content) = Some (ParseError error hint) ->
  fs_files (save fs content sid).1 = fs_files fs
  /\ (forall p, fs_readFile (save fs content sid).1 p = fs_readFile fs p)
  /\ (forall w, (save fs content sid).2 <> Return (planSavedMessage w))
  /\ (forall rootID, getRootSessionID session_get sid = Return rootID ->
        fs_mkdir_error fs (sessionDir rootID) = None ->
        (save fs content sid).2 = Return (formatParseError error hint)).
Proof.
  intros Hparse. subst save sessionDir. unfold plan_save. rewrite Hparse.
  destruct (falsy sid) eqn:Hf.
  { simpl. split; [reflexivity|]. split; [reflexivity|]. split.
    - intros w H. inversion H.
    - intros r Hr. apply resolved_not_falsy in Hr. congruence. }
  destruct (getRootSessionID session_get sid) as [rootID|e|] eqn:Hroot; simpl.
  2,3: split; [reflexivity|]; split; [reflexivity|]; split;
       [intros w H; discriminate H | intros r Hr; discriminate Hr].
  set (d := path_join [baseDir path_join homedir projectId; rootID]).
  unfold fs_mkdir. destruct (fs_mkdir_error fs d) as [e|] eqn:Hmk; simpl.
  - split; [reflexivity|]. split; [reflexivity|]. split; [intros w H; discriminate H|].
    intros r Hr Hd. inversion Hr; subst r. fold d in Hd. congruence.
  - split; [reflexivity|]. split; [reflexivity|]. split.
    + intros w H. inversion H.
    + intros r Hr _. reflexivity.
Qed.

Lemma dir_chain_self n dir : dir ∈ dir_chain n dir.
Proof.
  destruct n as [|n]; cbn [dir_chain]; [apply list_elem_of_here|].
  destruct (bool_decide (dirname dir = dir)); apply list_elem_of_here.
Qed.

Lemma mkdir_makes fs dir :
  fs_mkdir_error fs dir = None -> dir ∈ fs_dirs (fs_mkdir fs dir).1.
Proof.
  intros H. unfold fs_mkdir. rewrite H. cbn [fst fs_dirs].
  apply elem_of_union_l, elem_of_list_to_set, dir_chain_self.
Qed.

Lemma toWellFormed_id : forall n s,
  (length s <= n)%nat -> isWellFormed s = true -> toWellFormed s = s.
Proof.
  induction n as [|n IH]; intros s Hlen Hs.
  - destruct s; [reflexivity | simpl in Hlen; lia].
  - destruct s as [|c r]; [reflexivity|]. cbn [isWellFormed toWellFormed] in *.
    destruct (is_high_surrogate c).
    + destruct r as [|d r']; [discriminate|].
      apply andb_prop in Hs as [Hd Hr]. rewrite Hd.
      rewrite (IH r') by (first [simpl in Hlen; lia | exact Hr]). reflexivity.
    + apply andb_prop in Hs as [Hc Hr]. apply negb_true_iff in Hc. rewrite Hc.
      rewrite (IH r) by (first [simpl in Hlen; lia | exact Hr]). reflexivity.
Qed.

(** A save that goes through, then a read: what is read is the content
    made well formed. *)
Lemma plan_save_then_read fs content sid1 sid2 rootID data warnings :
  parsePlanMarkdown defaultMessage (VString content) = Some (ParseOk data warnings) ->
  getRootSessionID session_get sid1 = Return rootID ->
  getRootSessionID session_get sid2 = Return rootID ->
  pathS rootID = pathR rootID ->
  dirname (pathS rootID) = sessionDir rootID ->
  fs_mkdir_error fs (sessionDir rootID) = None ->
  fs_write_error fs (pathS rootID) = None ->
  fs_read_error fs (pathR rootID) = None ->
  (save fs content sid1).2 = Return (planSavedMessage warnings)
  /\ read (save fs content sid1).1 sid2 = Return (toWellFormed content).
Proof.
  intros Hparse H1 H2 Hpath Hdir Hmk Hwr Hrd.
  pose proof (mkdir_makes fs _ Hmk) as Hmade.
  subst save read pathS pathR sessionDir. unfold plan_save, plan_read.
  rewrite (resolved_not_falsy _ _ H1), (resolved_not_falsy _ _ H2), H1, H2, Hparse.
  unfold planPath_save in *.
  destruct (fs_mkdir fs (path_join [baseDir path_join homedir projectId; rootID]))
    as [fs1 o] eqn:Emk.
  assert (Eo : o = Return tt) by (unfold fs_mkdir in Emk; rewrite Hmk in Emk; congruence).
  assert (Ew : fs_write_error fs1 = fs_write_error fs)
    by (unfold fs_mkdir in Emk; rewrite Hmk in Emk; inversion Emk; reflexivity).
  assert (Er : fs_read_error fs1 = fs_read_error fs)
    by (unfold fs_mkdir in Emk; rewrite Hmk in Emk; inversion Emk; reflexivity).
  cbn [fst] in Hmade. subst o. unfold fs_writeFile. rewrite Ew, Hwr, Hdir.
  rewrite (bool_decide_eq_true_2 _ Hmade). cbn [fst snd]. split; [reflexivity|].
  unfold fs_readFile. cbn [fs_read_error fs_files]. rewrite Er, Hrd, <- Hpath, lookup_insert_eq.
  reflexivity.
Qed.

(** C6. Round trip: when the content validates and has no surrogate
    without its partner, both sessions resolve to the same root, the plan
    file lies in the session directory and the file system raises no error
    for the directory, the write and the read, [plan_save] answers "Plan
    saved" and a following [plan_read] returns the content as it was given.
    Whatever the surrogates, what is read is the content made well formed. *)
Theorem plan_save_read_roundtrip fs content sid1 sid2 rootID data warnings :
  parsePlanMarkdown defaultMessage (VString content) = Some (ParseOk data warnings) ->
  getRootSessionID session_get sid1 = Return rootID ->
  getRootSessionID session_get sid2 = Return rootID ->
  pathS rootID = pathR rootID ->
  dirname (pathS rootID) = sessionDir rootID ->
  fs_mkdir_error fs (sessionDir rootID) = None ->
  fs_write_error fs (pathS rootID) = None ->
  fs_read_error fs (pathR rootID) = None ->
  (save fs content sid1).2 = Return (planSavedMessage warnings)
  /\ read (save fs content sid1).1 sid2 = Return (toWellFormed content)
  /\ (isWellFormed content = true ->
      read (save fs content sid1).1 sid2 = Return content).
Proof.
  intros Hparse H1 H2 Hpath Hdir Hmk Hwr Hrd.
  destruct (plan_save_then_read fs content sid1 sid2 rootID data warnings
              Hparse H1 H2 Hpath Hdir Hmk Hwr Hrd) as [Hs Hr].
  split; [exact Hs|]. split; [exact Hr|].
  intros Hwf. rewrite Hr, (toWellFormed_id (length content)) by (first [reflexivity | exact Hwf]).
  reflexivity.
Qed.
End StoreFacts.

(* ================================================================== *)
(** * Further properties *)
(* ================================================================== *)

(** ** What a successful test of a pattern tells *)

Lemma regex_test_bos r s :
  regex_test (Seq Bos r) s = true ->
  exists y, rmatch s r (MState s no_caps) Some = Some y.
Proof.
  unfold regex_test. rewrite search_bos.
  destruct (rmatch s r _ Some) as [y|]; [eauto | discriminate].
Qed.

Lemma Forall_is_digits w : w <> [] -> Forall (fun x => is_digit x = true) w -> is_digits w = true.
Proof.
  intros Hw H. unfold is_digits. apply andb_true_intro. split.
  - destruct w; [congruence | reflexivity].
  - apply forallb_forall. intros x Hx. rewrite Forall_forall in H. apply H.
    apply list_elem_of_In, Hx.
Qed.

Lemma taskId_test_inv id : regex_test taskIdRegex id = true -> task_id_shape id.
Proof.
  unfold taskIdRegex. cbn [seqs]. intros H. apply regex_test_bos in H as (y & H).
  rewrite rmatch_seq in H. apply rmatch_plus_cls_inv in H as (a & r & Ha0 & -> & Ha & H).
  rewrite rmatch_seq in H. apply rmatch_lit_inv in H as (r1 & -> & H).
  rewrite rmatch_seq in H. apply rmatch_plus_cls_inv in H as (b & r & Hb0 & -> & Hb & H).
  apply rmatch_eos_inv in H as [-> _].
  exists a, b. rewrite app_nil_r. repeat split; auto using Forall_is_digits.
Qed.

Lemma citation_test_inv c : regex_test citationRegex c = true -> citation_shape c.
Proof.
  unfold citationRegex. cbn [seqs]. intros H. apply regex_test_bos in H as (y & H).
  rewrite rmatch_seq in H. apply rmatch_lit_inv in H as (r0 & -> & H).
  rewrite rmatch_seq in H. apply rmatch_plus_cls_inv in H as (w1 & r & H10 & -> & H1 & H).
  rewrite rmatch_seq in H. apply rmatch_lit_inv in H as (r1 & -> & H).
  rewrite rmatch_seq in H. apply rmatch_plus_cls_inv in H as (w2 & r & H20 & -> & H2 & H).
  rewrite rmatch_seq in H. apply rmatch_lit_inv in H as (r2 & -> & H).
  rewrite rmatch_seq in H. apply rmatch_plus_cls_inv in H as (w3 & r & H30 & -> & H3 & H).
  apply rmatch_eos_inv in H as [-> _].
  exists w1, w2, w3. rewrite app_nil_r. repeat split; assumption.
Qed.

Lemma date_test_inv d : regex_test dateRegex d = true -> date_shape d = true.
Proof.
  unfold dateRegex. cbn [seqs]. intros H. apply regex_test_bos in H as (y & H).
  rewrite rmatch_seq in H. apply rmatch_rep_cls_inv in H as (w1 & r & -> & L1 & H1 & H).
  rewrite rmatch_seq in H. apply rmatch_lit_inv in H as (r1 & -> & H).
  rewrite rmatch_seq in H. apply rmatch_rep_cls_inv in H as (w2 & r & -> & L2 & H2 & H).
  rewrite rmatch_seq in H. apply rmatch_lit_inv in H as (r2 & -> & H).
  rewrite rmatch_seq in H. apply rmatch_rep_cls_inv in H as (w3 & r & -> & L3 & H3 & H).
  apply rmatch_eos_inv in H as [-> _].
  destruct w1 as [|y1 [|y2 [|y3 [|y4 [|]]]]]; try discriminate L1.
  destruct w2 as [|m1 [|m2 [|]]]; try discriminate L2.
  destruct w3 as [|d1 [|d2 [|]]]; try discriminate L3.
  repeat match goal with H : Forall _ (_ :: _) |- _ => inversion H; clear H; subst end.
  change (u "-") with [45]. cbn [app]. unfold date_shape. cbn [forallb].
  repeat match goal with H : is_digit _ = true |- _ => rewrite H; clear H end.
  reflexivity.
Qed.

(** ** Root sessions *)

Section RootFacts.
Variable session_get : jsstring -> session_response.

Lemma loop_returns fuel : forall s r,
  getRootSessionID_loop session_get fuel s = Return r ->
  exists n, (n < fuel)%nat /\ parent_chain session_get n s r.
Proof.
  induction fuel as [|fuel IH]; intros s r H; [discriminate|].
  cbn [getRootSessionID_loop] in H.
  destruct (session_get s) as [e|data] eqn:Hg; [discriminate|].
  destruct (parentID_of data) as [p|] eqn:Hp.
  - apply IH in H as (n & Hn & Hc). exists (S n). split; [lia|].
    exists p. split; [exists data; split; assumption | exact Hc].
  - inversion H; subst r. exists O. split; [lia|].
    split; [exists data; split; assumption | reflexivity].
Qed.

Lemma parentID_of_nonempty data p : parentID_of data = Some p -> p <> [].
Proof. destruct data as [[[|c q]|]|]; simpl; intros H; inversion H; discriminate. Qed.

Lemma parent_chain_top n : forall s r,
  parent_chain session_get n s r ->
  exists data, session_get r = SessionResponse data /\ parentID_of data = None.
Proof.
  induction n as [|n IH]; intros s r H.
  - destruct H as [Hd ->]. exact Hd.
  - destruct H as (p & _ & H). apply (IH p), H.
Qed.

Lemma parent_chain_nonempty n : forall s r,
  s <> [] -> parent_chain session_get n s r -> r <> [].
Proof.
  induction n as [|n IH]; intros s r Hs H.
  - destruct H as [_ ->]. exact Hs.
  - destruct H as (p & (data & _ & Hp) & H). apply (IH p); [|exact H].
    eapply parentID_of_nonempty, Hp.
Qed.

Lemma parent_chain_ancestor m : forall n s a r,
  ancestor session_get m s a -> parent_chain session_get n s r ->
  (m <= n)%nat -> parent_chain session_get (n - m) a r.
Proof.
  induction m as [|m IH]; intros n s a r Ha Hc Hle.
  - simpl in Ha. subst a. rewrite Nat.sub_0_r. exact Hc.
  - destruct n as [|n]; [lia|].
    destruct Ha as (p & (data & Hg & Hp) & Ha).
    destruct Hc as (p' & (data' & Hg' & Hp') & Hc).
    rewrite Hg in Hg'. inversion Hg'; subst data'. rewrite Hp in Hp'. inversion Hp'; subst p'.
    simpl. apply (IH n p); [exact Ha | exact Hc | lia].
Qed.

Lemma ancestor_within m : forall n s a r,
  ancestor session_get m s a -> parent_chain session_get n s r -> (m <= n)%nat.
Proof.
  induction m as [|m IH]; intros n s a r Ha Hc; [lia|].
  destruct Ha as (p & (data & Hg & Hp) & Ha).
  destruct n as [|n].
  - destruct Hc as [(data' & Hg' & Hp') _]. rewrite Hg in Hg'. inversion Hg'; subst data'.
    congruence.
  - destruct Hc as (p' & (data' & Hg' & Hp') & Hc).
    rewrite Hg in Hg'. inversion Hg'; subst data'. rewrite Hp in Hp'. inversion Hp'; subst p'.
    specialize (IH n p a r Ha Hc). lia.
Qed.

Lemma ancestor_nonempty m : forall s a, s <> [] -> ancestor session_get m s a -> a <> [].
Proof.
  induction m as [|m IH]; intros s a Hs Ha.
  - simpl in Ha. subst a. exact Hs.
  - destruct Ha as (p & (data & _ & Hp) & Ha). apply (IH p); [|exact Ha].
    eapply parentID_of_nonempty, Hp.
Qed.

(** X1. [getRootSessionID] returns a session exactly when fewer than ten
    parent links lead from the given session to one without a parent, and
    that session is the one returned. *)
Theorem getRootSessionID_returns_iff (s r : jsstring) :
  s <> [] ->
  (getRootSessionID session_get (Some s) = Return r
   <-> exists n, (n < 10)%nat /\ parent_chain session_get n s r).
Proof.
  intros Hs. destruct s as [|c s]; [congruence|]. unfold getRootSessionID. split.
  - apply loop_returns.
  - intros (n & Hn & Hc). apply (loop_reaches_top _ n); assumption.
Qed.

(** The root itself is an ancestor: it resolves to itself. *)
Lemma parent_chain_is_ancestor n : forall s r,
  parent_chain session_get n s r -> ancestor session_get n s r.
Proof.
  induction n as [|n IH]; intros s r H.
  - destruct H as [_ ->]. reflexivity.
  - destruct H as (p & Hd & H). exists p. split; [exact Hd | apply IH, H].
Qed.
(** X2. When a session resolves to a root, the root resolves to itself,
    and every session on the way up from the session resolves to the same
    root. *)
Theorem getRootSessionID_along_chain (s r : jsstring) :
  getRootSessionID session_get (Some s) = Return r ->
  getRootSessionID session_get (Some r) = Return r
  /\ (forall m a, ancestor session_get m s a ->
        getRootSessionID session_get (Some a) = Return r).
Proof.
  intros Hr. destruct s as [|c s]; [discriminate|].
  unfold getRootSessionID in Hr.
  apply loop_returns in Hr as (n & Hn & Hc).
  assert (Hall : forall m a, ancestor session_get m (c :: s) a ->
            getRootSessionID session_get (Some a) = Return r).
  { intros m a Ha.
    pose proof (ancestor_within _ _ _ _ _ Ha Hc) as Hle.
    pose proof (parent_chain_ancestor _ _ _ _ _ Ha Hc Hle) as Hc'.
    assert (Hne : a <> []) by (eapply ancestor_nonempty; [|exact Ha]; discriminate).
    destruct a as [|d a]; [congruence|]. unfold getRootSessionID.
    apply (loop_reaches_top _ (n - m)); [lia | exact Hc']. }
  split; [|exact Hall].
  apply (Hall n). apply parent_chain_is_ancestor, Hc.
Qed.
End RootFacts.

(** ** Runs of the plan store *)

Section StoreRunFacts.
Variable defaultMessage : issue_code -> jsstring.
Variable path_join : list jsstring -> jsstring.
Variable homedir : jsstring.
Variable session_get : jsstring -> session_response.
Variable projectId : jsstring.

Let save := plan_save defaultMessage path_join homedir session_get projectId.
Let read := plan_read path_join homedir session_get projectId.
Let pathR := planPath_read path_join homedir projectId.
Let pathS := planPath_save path_join homedir projectId.
Let sessionDir r := path_join [baseDir path_join homedir projectId; r].
Let saves := save_all defaultMessage path_join homedir session_get projectId.
Let valid := accepted defaultMessage.

Lemma plan_save_errors fs content sid :
  fs_mkdir_error (save fs content sid).1 = fs_mkdir_error fs
  /\ fs_write_error (save fs content sid).1 = fs_write_error fs
  /\ fs_read_error (save fs content sid).1 = fs_read_error fs.
Proof.
  unfold save, plan_save.
  destruct (falsy sid); [repeat split|].
  destruct (getRootSessionID session_get sid) as [rootID|e|]; [|repeat split..].
  unfold fs_mkdir. destruct (fs_mkdir_error fs _); [repeat split|].
  destruct (parsePlanMarkdown defaultMessage (VString content)) as [[data warnings|error hint]|];
    [|repeat split..].
  unfold fs_writeFile. cbn [fs_write_error fs_dirs].
  destruct (fs_write_error fs _); [repeat split|].
  destruct (bool_decide _); repeat split.
Qed.





Lemma save_all_errors calls : forall fs,
  fs_mkdir_error (saves fs calls) = fs_mkdir_error fs
  /\ fs_write_error (saves fs calls) = fs_write_error fs
  /\ fs_read_error (saves fs calls) = fs_read_error fs.
Proof.
  unfold saves, save_all.
  induction calls as [|c cs IH]; intros fs; [repeat split|].
  cbn [fold_left]. destruct (IH (save fs c.2 c.1).1) as (H1 & H2 & H3).
  destruct (plan_save_errors fs c.2 c.1) as (G1 & G2 & G3).
  unfold save in *. rewrite H1, H2, H3. repeat split; assumption.
Qed.

Lemma save_all_snoc fs calls c :
  saves fs (calls ++ [c]) = (save (saves fs calls) c.2 c.1).1.
Proof. unfold saves, save, save_all. rewrite fold_left_app. reflexivity. Qed.

Lemma plan_read_ext fs1 fs2 sid :
  fs_files fs1 = fs_files fs2 -> fs_read_error fs1 = fs_read_error fs2 ->
  read fs1 sid = read fs2 sid.
Proof.
  intros Hf He. unfold read, plan_read, fs_readFile. rewrite Hf, He. reflexivity.
Qed.

(** X4. After any run of [plan_save] calls from sessions of one root,
    [plan_read] returns the content, made well formed, of the last call
    whose content validated; when none did, it answers as it did before the
    run. *)
Theorem plan_read_latest_valid fs calls sid rootID :
  Forall (fun call => getRootSessionID session_get call.1 = Return rootID) calls ->
  getRootSessionID session_get sid = Return rootID ->
  pathS rootID = pathR rootID ->
  dirname (pathS rootID) = sessionDir rootID ->
  fs_mkdir_error fs (sessionDir rootID) = None ->
  fs_write_error fs (pathS rootID) = None ->
  fs_read_error fs (pathR rootID) = None ->
  read (saves fs calls) sid =
    match last (List.filter valid (calls.*2)) with
    | Some content => Return (toWellFormed content)
    | None => read fs sid
    end.
Proof.
  intros Hcalls H2 Hpath Hdir Hmk Hwr Hrd.
  induction calls as [|c cs IH] using rev_ind; [reflexivity|].
  apply Forall_app in Hcalls as [Hcs Hc]. inversion Hc as [|? ? H1 _]; subst.
  specialize (IH Hcs).
  rewrite save_all_snoc, fmap_app, List.filter_app. cbn [fmap list_fmap List.filter].
  destruct (save_all_errors cs fs) as (E1 & E2 & E3).
  set (fs1 := saves fs cs) in *.
  destruct (valid c.2) eqn:Hv.
  - rewrite last_snoc.
    unfold valid, accepted in Hv.
    destruct (parsePlanMarkdown defaultMessage (VString c.2)) as [[data warnings|error hint]|] eqn:Hp;
      try discriminate.
    assert (Hmk1 : fs_mkdir_error fs1 (sessionDir rootID) = None) by (rewrite E1; exact Hmk).
    pose proof (mkdir_makes fs1 _ Hmk1) as Hmade.
    unfold save, read, pathS, pathR, sessionDir, plan_save, plan_read in *.
    rewrite (resolved_not_falsy _ _ _ H1), (resolved_not_falsy _ _ _ H2), H1, H2, Hp.
    unfold planPath_save in *.
    unfold fs_mkdir in *. rewrite Hmk1 in *. cbn [fst] in Hmade.
    unfold fs_writeFile. cbn [fs_write_error fs_files fs_dirs]. rewrite E2, Hwr, Hdir.
    rewrite (bool_decide_eq_true_2 _ Hmade).
    unfold fs_readFile. cbn [fst fs_read_error fs_files]. rewrite E3, Hrd, <- Hpath, lookup_insert_eq.
    reflexivity.
  - rewrite app_nil_r, <- IH. apply plan_read_ext.
    + unfold valid, accepted in Hv.
      unfold save, plan_save.
      destruct (falsy c.1); [reflexivity|].
      destruct (getRootSessionID session_get c.1); [|reflexivity..].
      unfold fs_mkdir. destruct (fs_mkdir_error fs1 _); [reflexivity|].
      destruct (parsePlanMarkdown defaultMessage (VString c.2)) as [[data warnings|error hint]|];
        [discriminate|reflexivity..].
    + apply plan_save_errors.
Qed.
End StoreRunFacts.

(** ** Accepted plans *)

Section SchemaSound.
Variable defaultMessage : issue_code -> jsstring.

Lemma enum_issues_nil values path v :
  enum_issues defaultMessage values path v = [] ->
  exists s, v = Some (FStr s) /\ s ∈ values.
Proof.
  unfold enum_issues. destruct v as [[s|n]|]; try discriminate.
  destruct (bool_decide (s ∈ values)) eqn:Hb; [|discriminate].
  intros _. exists s. split; [reflexivity | apply bool_decide_eq_true_1 in Hb; exact Hb].
Qed.

Lemma positive_int_issues_nil path v :
  positive_int_issues defaultMessage path v = [] ->
  exists z, v = Some (FNum (Num z)) /\ (0 < z <= MAX_SAFE_INTEGER)%Z.
Proof.
  unfold positive_int_issues. destruct v as [[s|[|z|b]]|]; try discriminate.
  intros H. apply app_eq_nil in H as [H1 H2]. exists z. split; [reflexivity|].
  destruct (Z.ltb_spec MAX_SAFE_INTEGER z); [discriminate|].
  destruct (Z.ltb_spec 0 z); [lia | discriminate].
Qed.

Lemma string_regex_issues_nil re message path v :
  string_regex_issues defaultMessage re message path v = [] ->
  exists s, v = Some (FStr s) /\ regex_test re s = true.
Proof.
  unfold string_regex_issues. destruct v as [[s|n]|]; try discriminate.
  destruct (regex_test re s) eqn:Ht; [|discriminate]. eauto.
Qed.

Lemma string_min_issues_nil n message path v :
  string_min_issues defaultMessage n message path v = [] ->
  exists s, v = Some s /\ (n <= length s)%nat.
Proof.
  unfold string_min_issues. destruct v as [s|]; [|discriminate].
  destruct (Nat.leb_spec n (length s)); [|discriminate]. eauto.
Qed.

Lemma min1_issues_nil {A} message path (xs : list A) :
  min1_issues message path xs = [] -> xs <> [].
Proof. destruct xs; [discriminate | discriminate]. Qed.

Lemma concat_nil {A} (l : list (list A)) : concat l = [] -> Forall (fun x => x = []) l.
Proof.
  induction l as [|x l IH]; simpl; [constructor|].
  intros H. apply app_eq_nil in H as [-> H]. constructor; auto.
Qed.

Lemma array_issues_each {A} (f : list path_elem -> A -> list ZodIssue) path xs :
  array_issues f path xs = [] ->
  Forall (fun x => exists p, f p x = []) xs.
Proof.
  unfold array_issues. intros H. apply concat_nil in H.
  apply Forall_lookup. intros i x Hx.
  rewrite Forall_lookup in H.
  exists (path ++ [PIndex i]). apply (H i). rewrite list_lookup_imap, Hx. reflexivity.
Qed.

Lemma TaskSchema_sound path t :
  TaskSchema_issues defaultMessage path t = [] -> valid_task (TaskSchema_data t).
Proof.
  unfold TaskSchema_issues. intros H.
  apply app_eq_nil in H as [Hid H]. apply app_eq_nil in H as [Hc Hcit].
  apply string_regex_issues_nil in Hid as (s & Hs & Hid). inversion Hs; subst s.
  apply string_min_issues_nil in Hc as (s & Hs' & Hc). inversion Hs'; subst s.
  unfold valid_task, TaskSchema_data. cbn [t_id t_content t_citation]. split; [|split].
  - apply taskId_test_inv, Hid.
  - intros E. rewrite E in Hc. simpl in Hc. lia.
  - intros c Hx. rewrite Hx in Hcit.
    apply string_regex_issues_nil in Hcit as (s & Hs'' & Hcit). inversion Hs''; subst s.
    apply citation_test_inv, Hcit.
Qed.

Lemma PhaseSchema_sound path p :
  PhaseSchema_issues defaultMessage path p = [] -> valid_phase (PhaseSchema_data p).
Proof.
  unfold PhaseSchema_issues. intros H.
  apply app_eq_nil in H as [Hn H]. apply app_eq_nil in H as [Hname H].
  apply app_eq_nil in H as [Hst H]. apply app_eq_nil in H as [Hts Hmin].
  apply positive_int_issues_nil in Hn as (z & Hz & Hn). inversion Hz as [Hz'].
  apply string_min_issues_nil in Hname as (s & Hs & Hname). inversion Hs; subst s.
  apply enum_issues_nil in Hst as (s & Hs' & Hst). inversion Hs'; subst s.
  apply min1_issues_nil in Hmin. apply array_issues_each in Hts.
  unfold valid_phase, PhaseSchema_data. cbn [p_number p_name p_status p_tasks].
  rewrite Hz'. repeat split; try (exact Hst || lia).
  - intros E. rewrite E in Hname. simpl in Hname. lia.
  - intros E. apply map_eq_nil in E. contradiction.
  - apply Forall_map. eapply Forall_impl; [exact Hts|].
    intros t (q & Hq). eapply TaskSchema_sound, Hq.
Qed.

Lemma FrontmatterSchema_sound path fm :
  FrontmatterSchema_issues defaultMessage path fm = [] ->
  valid_frontmatter (FrontmatterSchema_data fm).
Proof.
  unfold FrontmatterSchema_issues. destruct fm as [o|]; [|discriminate]. intros H.
  apply app_eq_nil in H as [Hst H]. apply app_eq_nil in H as [Hph Hup].
  apply enum_issues_nil in Hst as (s & Hs & Hst).
  apply positive_int_issues_nil in Hph as (z & Hz & Hph).
  apply string_regex_issues_nil in Hup as (d & Hd & Hup).
  unfold valid_frontmatter, FrontmatterSchema_data. cbn [default from_option].
  assert (Hin : forall k v, o !! k = Some v -> k ∈ FrontmatterSchema_keys ->
            filter (fun kv : jsstring * fmvalue => kv.1 ∈ FrontmatterSchema_keys) o !! k = Some v).
  { intros k v Hk Hm. apply map_lookup_filter_Some. split; [exact Hk | exact Hm]. }
  split; [|split; [|split]].
  - exists s. split; [|exact Hst]. apply Hin; [exact Hs|].
    unfold FrontmatterSchema_keys. apply elem_of_cons. left. reflexivity.
  - exists z. split; [|exact Hph]. apply Hin; [exact Hz|].
    unfold FrontmatterSchema_keys. apply elem_of_cons. right. apply elem_of_cons. left. reflexivity.
  - exists d. split; [|apply date_test_inv, Hup]. apply Hin; [exact Hd|].
    unfold FrontmatterSchema_keys. do 2 (apply elem_of_cons; right). apply elem_of_cons. left.
    reflexivity.
  - intros k [v Hv]. apply map_lookup_filter_Some in Hv as [_ Hk]. exact Hk.
Qed.

Lemma PlanSchema_sound parts :
  PlanSchema_issues defaultMessage parts = [] ->
  valid_frontmatter (frontmatter (PlanSchema_data parts))
  /\ (10 <= length (goal (PlanSchema_data parts)))%nat
  /\ phases (PlanSchema_data parts) <> []
  /\ Forall valid_phase (phases (PlanSchema_data parts)).
Proof.
  unfold PlanSchema_issues. intros H.
  apply app_eq_nil in H as [Hfm H]. apply app_eq_nil in H as [Hg H].
  apply app_eq_nil in H as [Hps Hmin].
  apply string_min_issues_nil in Hg as (g & Hg0 & Hg).
  apply min1_issues_nil in Hmin. apply array_issues_each in Hps.
  unfold PlanSchema_data. cbn [frontmatter goal phases]. rewrite Hg0. cbn [default from_option].
  split; [eapply FrontmatterSchema_sound, Hfm|]. split; [exact Hg|]. split.
  - intros E. apply map_eq_nil in E. contradiction.
  - apply Forall_map. eapply Forall_impl; [exact Hps|].
    intros p (q & Hq). eapply PhaseSchema_sound, Hq.
Qed.

(** X5. Whatever text [parsePlanMarkdown] accepts, the plan it returns
    meets the schema: the three frontmatter keys and no other, with a known
    status, a positive safe integer as phase and a date of the shape
    YYYY-MM-DD; a goal of at least ten code units; at least one phase, each
    with a positive number, a name, a known status and at least one task;
    task ids of the shape N.M, contents that are not empty, citations of
    the shape ref:word-word-word; and at most one task marked current. *)
Theorem parsePlanMarkdown_sound content data warnings :
  parsePlanMarkdown defaultMessage content = Some (ParseOk data warnings) ->
  valid_plan data.
Proof.
  unfold parsePlanMarkdown, parsePlanMarkdown_with.
  destruct content as [| | | |text| | | |]; try discriminate.
  destruct (bool_decide (trim text = [])); [discriminate|].
  destruct (extractMarkdownParts text) as [parts|]; [|discriminate].
  cbn [mbind option_bind]. rewrite parts_eta. unfold PlanSchema_safeParse.
  destruct (PlanSchema_issues defaultMessage parts) as [|i more] eqn:Hi; [|discriminate].
  destruct (Nat.ltb_spec 1 (currentCount (PlanSchema_data parts))) as [|Hc]; [discriminate|].
  intros H. inversion H; subst data warnings.
  destruct (PlanSchema_sound parts Hi) as (H1 & H2 & H3 & H4).
  unfold valid_plan.
  split; [exact H1|]. split; [exact H2|]. split; [exact H3|]. split; [exact H4 | exact Hc].
Qed.

(** X6. An accepted plan carries at most one warning: none when at most
    one phase is IN PROGRESS, and otherwise the one about several phases in
    progress, which [plan_save] reports as "(1 warnings: ...)". *)
Theorem parsePlanMarkdown_warnings content data warnings :
  parsePlanMarkdown defaultMessage content = Some (ParseOk data warnings) ->
  ((inProgressCount data <= 1)%nat /\ warnings = []
   /\ planSavedMessage warnings = u "Plan saved.")
  \/ ((1 < inProgressCount data)%nat
      /\ warnings = [u "Multiple phases marked IN PROGRESS. Consider focusing on one phase at a time."]
      /\ planSavedMessage warnings
         = u "Plan saved. (1 warnings: Multiple phases marked IN PROGRESS. Consider focusing on one phase at a time.)").
Proof.
  unfold parsePlanMarkdown, parsePlanMarkdown_with.
  destruct content as [| | | |text| | | |]; try discriminate.
  destruct (bool_decide (trim text = [])); [discriminate|].
  destruct (extractMarkdownParts text) as [parts|]; [|discriminate].
  cbn [mbind option_bind]. unfold PlanSchema_safeParse.
  destruct (PlanSchema_issues defaultMessage _) as [|i more]; [|discriminate].
  destruct (1 <? currentCount _)%nat; [discriminate|].
  intros H. inversion H; subst data warnings.
  destruct (Nat.ltb_spec 1 (inProgressCount (PlanSchema_data
     {| x_frontmatter := x_frontmatter parts; x_goal := x_goal parts; x_phases := x_phases parts |}))).
  - right. split; [assumption|]. split; reflexivity.
  - left. split; [assumption|]. split; reflexivity.
Qed.
End SchemaSound.

(** ** Refused plans *)

Lemma search_lit_absent input lit r : forall from,
  ~ occurs lit from -> search input (Seq (Lit lit) r) from = None.
Proof.
  induction from as [|x from IH]; intros Hno.
  - cbn [search]. rewrite rmatch_seq.
    destruct (strip_lit lit []) as [r'|] eqn:Hs.
    + exfalso. apply Hno. apply strip_lit_Some in Hs. exists [], r'. exact Hs.
    + rewrite rmatch_lit_fail by exact Hs. reflexivity.
  - cbn [search]. rewrite rmatch_seq.
    destruct (strip_lit lit (x :: from)) as [r'|] eqn:Hs.
    + exfalso. apply Hno. apply strip_lit_Some in Hs. exists [], r'. exact Hs.
    + rewrite rmatch_lit_fail by exact Hs. apply IH.
      intros (pre & post & E). apply Hno. exists (x :: pre), post. rewrite E. reflexivity.
Qed.

Lemma join_with_cons sep x xs :
  exists more, join_with sep (x :: xs) = x ++ more.
Proof. destruct xs as [|y ys]; [exists []; simpl; rewrite app_nil_r | eexists]; reflexivity. Qed.

Lemma join_with_snoc sep xs x :
  exists pre, join_with sep (xs ++ [x]) = pre ++ x.
Proof.
  induction xs as [|y ys IH]; [exists []; reflexivity|].
  destruct IH as (pre & IH). cbn [app join_with].
  destruct (ys ++ [x]) as [|z zs] eqn:E; [destruct ys; discriminate|].
  exists (y ++ sep ++ pre). rewrite IH, <- !app_assoc. reflexivity.
Qed.

Section Rejections.
Variable defaultMessage : issue_code -> jsstring.

Lemma extract_frontmatter_needs_fence content :
  strip_lit (u "---
") content = None -> extract_frontmatter content = None.
Proof.
  intros H. unfold extract_frontmatter, str_match, frontmatterRegex. cbn [seqs].
  rewrite search_bos, rmatch_seq, rmatch_lit_fail by exact H. reflexivity.
Qed.

(** X7. A text that is not blank and does not begin with the line [---] is
    never accepted: [parsePlanMarkdown] returns a failure whose error text
    begins with the issue of the missing frontmatter. *)
Theorem parsePlanMarkdown_needs_fence content :
  trim content <> [] ->
  strip_lit (u "---
") content = None ->
  exists more,
    parsePlanMarkdown defaultMessage (VString content)
    = Some (ParseError (u "[frontmatter]: " ++ defaultMessage invalid_type ++ more)
                       skillHint).
Proof.
  intros Hnb Hfence. unfold parsePlanMarkdown, parsePlanMarkdown_with.
  rewrite bool_decide_eq_false_2 by exact Hnb.
  destruct (extractMarkdownParts_total content) as (parts & Hparts). rewrite Hparts.
  cbn [mbind option_bind]. rewrite parts_eta.
  unfold PlanSchema_safeParse, PlanSchema_issues.
  rewrite (extract_frontmatter_of _ _ Hparts), (extract_frontmatter_needs_fence _ Hfence).
  unfold FrontmatterSchema_issues. cbn [app]. unfold formatZodErrors. cbn [map].
  destruct (join_with_cons [LF]
    (format_issue (builtin defaultMessage [PKey (u "frontmatter")] invalid_type))
    (map format_issue
      (string_min_issues defaultMessage 10 (u "Goal must be at least 10 characters")
         [PKey (u "goal")] (x_goal parts) ++
       array_issues (PhaseSchema_issues defaultMessage) [PKey (u "phases")] (x_phases parts) ++
       min1_issues (u "Plan must have at least one phase") [PKey (u "phases")] (x_phases parts))))
    as (more & ->).
  exists more. reflexivity.
Qed.

Lemma extract_phases_none content :
  ~ occurs (u "## Phase ") content -> extract_phases content = Some [].
Proof.
  intros H. unfold extract_phases, exec_all, phaseRegex. cbn [seqs exec_loop].
  rewrite search_lit_absent by exact H. reflexivity.
Qed.

(** X8. A text in which [## Phase ] does not occur has no phase: when it
    is not blank, [parsePlanMarkdown] returns a failure whose error text
    ends with the line of the missing phases. *)
Theorem parsePlanMarkdown_needs_phase content :
  trim content <> [] ->
  ~ occurs (u "## Phase ") content ->
  exists before,
    parsePlanMarkdown defaultMessage (VString content)
    = Some (ParseError (before ++ u "[phases]: Plan must have at least one phase")
                       skillHint).
Proof.
  intros Hnb Hno. unfold parsePlanMarkdown, parsePlanMarkdown_with.
  rewrite bool_decide_eq_false_2 by exact Hnb.
  unfold extractMarkdownParts. rewrite (extract_phases_none _ Hno).
  cbn [mbind option_bind x_frontmatter x_goal x_phases].
  unfold PlanSchema_safeParse, PlanSchema_issues. cbn [x_frontmatter x_goal x_phases].
  unfold array_issues at 1. cbn [imap concat app min1_issues].
  set (first := FrontmatterSchema_issues defaultMessage [PKey (u "frontmatter")]
                  (extract_frontmatter content)
                ++ string_min_issues defaultMessage 10 (u "Goal must be at least 10 characters")
                     [PKey (u "goal")] (extract_goal content)).
  set (last := custom [PKey (u "phases")] too_small (u "Plan must have at least one phase")).
  replace (FrontmatterSchema_issues defaultMessage [PKey (u "frontmatter")]
             (extract_frontmatter content)
           ++ string_min_issues defaultMessage 10 (u "Goal must be at least 10 characters")
                [PKey (u "goal")] (extract_goal content) ++ [last])
    with (first ++ [last]) by (subst first; rewrite <- app_assoc; reflexivity).
  destruct (first ++ [last]) as [|i more] eqn:E; [destruct first; discriminate|].
  rewrite <- E. unfold formatZodErrors. rewrite map_app. cbn [map].
  destruct (join_with_snoc [LF] (map format_issue first) (format_issue last)) as (pre & ->).
  assert (E2 : format_issue last = u "[phases]: Plan must have at least one phase")
    by (subst last; vm_compute; reflexivity).
  rewrite E2. exists pre. reflexivity.
Qed.
End Rejections.

(** ** Frontmatter lines *)

Lemma split_on_nonempty c s : split_on c s <> [].
Proof.
  destruct s as [|x r]; simpl; [discriminate|].
  destruct (x =? c); [discriminate|]. destruct (split_on c r); discriminate.
Qed.

Lemma join_split c s : join_with [c] (split_on c s) = s.
Proof.
  induction s as [|x r IH]; [reflexivity|]. cbn [split_on].
  destruct (N.eqb_spec x c) as [->|Hne].
  - pose proof (split_on_nonempty c r) as Hn.
    destruct (split_on c r) as [|p ps] eqn:E; [congruence|].
    change (join_with [c] ([] :: p :: ps)) with (c :: join_with [c] (p :: ps)).
    rewrite IH. reflexivity.
  - pose proof (split_on_nonempty c r) as Hn.
    destruct (split_on c r) as [|p ps] eqn:E; [congruence|].
    destruct ps as [|q qs].
    + cbn [join_with] in *. rewrite IH. reflexivity.
    + change (join_with [c] ((x :: p) :: q :: qs))
        with (x :: join_with [c] (p :: q :: qs)).
      rewrite IH. reflexivity.
Qed.

Lemma add_line_any fm key v :
  key <> [] -> Forall (fun x => x <> COLON) key -> trim key <> u "__proto__" ->
  frontmatter_add_line fm (key ++ COLON :: v)
  = <[trim key := if bool_decide (trim key = u "phase")
                  then FNum (parseInt (trim v)) else FStr (trim v)]> fm.
Proof.
  intros Hk0 Hk Hproto. unfold frontmatter_add_line.
  rewrite split_on_line by exact Hk. rewrite join_split.
  rewrite (bool_decide_eq_true_2 _ Hk0).
  rewrite (bool_decide_eq_true_2 _ (split_on_nonempty COLON v)). cbn [andb].
  rewrite (bool_decide_eq_false_2 _ Hproto). reflexivity.
Qed.

(** X9. A frontmatter line [key: value] sets the trimmed key to everything
    after the first colon, trimmed, so a value keeps its own colons; it
    replaces what an earlier line gave the key. *)
Theorem frontmatter_line_sets_key lines key v :
  key <> [] -> Forall (fun x => x <> COLON) key ->
  trim key <> u "__proto__" -> trim key <> u "phase" ->
  frontmatter_of_lines (lines ++ [key ++ COLON :: v])
  = <[trim key := FStr (trim v)]> (frontmatter_of_lines lines).
Proof.
  intros Hk0 Hk Hproto Hphase. unfold frontmatter_of_lines.
  rewrite fold_left_app. cbn [fold_left].
  rewrite add_line_any by assumption.
  rewrite (bool_decide_eq_false_2 _ Hphase). reflexivity.
Qed.

Lemma parseInt_leading_digits ds t :
  is_digits ds = true -> run_ends is_digit t ->
  parseInt (ds ++ t) = number_of false (digits_value ds).
Proof.
  intros H Ht. apply is_digits_inv in H as [Hne Hd].
  destruct ds as [|x s]; [contradiction|]. inversion Hd as [|? ? Hx Hs]; subst.
  unfold parseInt. cbn [app].
  assert (Hsp : trimStart (x :: s ++ t) = x :: s ++ t).
  { unfold trimStart. simpl. destruct (is_space x) eqn:E; [|reflexivity].
    exfalso. clear -Hx E. class_facts. }
  rewrite Hsp.
  assert (Hsign : (match x :: s ++ t with
                   | 45 :: r => (true, r) | 43 :: r => (false, r) | _ => (false, x :: s ++ t)
                   end) = (false, x :: s ++ t)).
  { apply is_digit_cases in Hx.
    destruct Hx as [->|[->|[->|[->|[->|[->|[->|[->|[->| ->]]]]]]]]]; reflexivity. }
  rewrite Hsign.
  assert (Htw : take_while is_digit (x :: s ++ t) = x :: s).
  { cbn [take_while]. rewrite Hx. f_equal. clear -Hs Ht.
    induction Hs as [|y s Hy _ IH]; cbn [app take_while].
    - destruct t as [|z t]; [reflexivity|]. simpl in Ht. cbn [take_while]. rewrite Ht.
      reflexivity.
    - rewrite Hy, IH. reflexivity. }
  rewrite Htw. reflexivity.
Qed.

(** Rounding never brings a magnitude back under 2^53. *)
Lemma round_double_big m : (2 ^ 53 <= m)%Z -> (2 ^ 53 <= round_double m)%Z.
Proof.
  intros H. unfold round_double.
  assert (Hpos : (0 < m)%Z) by lia.
  pose proof (Z.log2_spec m Hpos) as [Hlo _].
  assert (Hl : (53 <= Z.log2 m)%Z).
  { apply Z.log2_le_pow2; [exact Hpos | exact H]. }
  set (e := (Z.log2 m - 52)%Z) in *.
  destruct (Z.leb_spec e 0%Z) as [He|He]; [lia|].
  assert (Hpe : (0 < 2 ^ e)%Z) by (apply Z.pow_pos_nonneg; lia).
  assert (Hsplit : (2 ^ Z.log2 m = 2 ^ 52 * 2 ^ e)%Z).
  { replace (Z.log2 m) with (52 + e)%Z by (unfold e; lia).
    apply Z.pow_add_r; lia. }
  assert (Hq : (2 ^ 52 <= Z.shiftr m e)%Z).
  { rewrite Z.shiftr_div_pow2 by lia. apply Z.div_le_lower_bound; [exact Hpe | lia]. }
  assert (H2e : (2 <= 2 ^ e)%Z).
  { change 2%Z with (2 ^ 1)%Z at 1. apply Z.pow_le_mono_r; lia. }
  rewrite Z.shiftl_mul_pow2 by lia.
  assert (Hq' : (2 ^ 52 <= (if (Z.shiftl 1 (e - 1) <? Z.land m (Z.ones e))%Z
                             || ((Z.land m (Z.ones e) =? Z.shiftl 1 (e - 1))%Z
                                 && Z.odd (Z.shiftr m e))
                           then Z.shiftr m e + 1 else Z.shiftr m e))%Z).
  { destruct (_ || _); lia. }
  change (2 ^ 53)%Z with (2 ^ 52 * 2)%Z. apply Z.mul_le_mono_nonneg; lia.
Qed.

(** X10. The [phase] line of the frontmatter is read by [parseInt]: the
    value is the double nearest to the number its leading digits spell, and
    whatever follows the digits is ignored.  Up to 2^53 - 1 it is that
    number itself; above, no such phase passes the schema. *)
Theorem frontmatter_phase_leading_digits fm v ds t :
  trim v = ds ++ t -> is_digits ds = true -> run_ends is_digit t ->
  frontmatter_add_line fm (u "phase" ++ COLON :: v)
  = <[u "phase" := FNum (number_of false (digits_value ds))]> fm
  /\ ((digits_value ds <= MAX_SAFE_INTEGER)%Z ->
      number_of false (digits_value ds) = Num (digits_value ds))
  /\ ((MAX_SAFE_INTEGER < digits_value ds)%Z ->
      forall defaultMessage path,
        positive_int_issues defaultMessage path
          (Some (FNum (number_of false (digits_value ds)))) <> []).
Proof.
  intros Hv Hd Ht. split; [|split].
  - rewrite add_line_any; [| discriminate | repeat constructor; discriminate | discriminate].
    change (trim (u "phase")) with (u "phase").
    rewrite bool_decide_eq_true_2 by reflexivity.
    rewrite Hv, parseInt_leading_digits by assumption. reflexivity.
  - intros Hsafe. apply number_of_small.
    split; [apply digits_value_nonneg | exact Hsafe].
  - intros Hbig defaultMessage path. unfold positive_int_issues, number_of.
    pose proof (round_double_big (digits_value ds)) as Hr.
    unfold MAX_SAFE_INTEGER in *.
    destruct (2 ^ 1024 <=? round_double (digits_value ds))%Z; [discriminate|].
    destruct (Z.ltb_spec 9007199254740991 (round_double (digits_value ds))) as [_|Hle].
    + discriminate.
    + exfalso. change (2 ^ 53)%Z with 9007199254740992%Z in Hr. lia.
Qed.

(** ** The shape and the cache of the identity *)

Lemma hex_test_inv n s :
  regex_test (seqs [Bos; Rep n (Cls is_hex); Eos]) s = true ->
  length s = n /\ Forall (fun c => is_hex c = true) s.
Proof.
  cbn [seqs]. intros H. apply regex_test_bos in H as (y & H).
  rewrite rmatch_seq in H. apply rmatch_rep_cls_inv in H as (w & r & -> & Hl & Hw & H).
  apply rmatch_eos_inv in H as [-> _]. rewrite app_nil_r. split; assumption.
Qed.

Section IdentityFacts.
Variable path_join : list jsstring -> jsstring.
Variable path_resolve : jsstring -> jsstring -> jsstring.
Variable sha256_hex : jsstring -> jsstring.

Let getId := getProjectId path_join path_resolve sha256_hex.
Let locate := locate_gitDir path_join path_resolve.
Let cacheFile gitDir := path_join [gitDir; u "opencode"].

Lemma hashPath_shape root :
  (forall s, length (sha256_hex s) = 64%nat
             /\ Forall (fun c => is_hex c = true) (sha256_hex s)) ->
  length (hashPath sha256_hex root) = 16%nat
  /\ Forall (fun c => is_hex c = true) (hashPath sha256_hex root).
Proof.
  intros Hsha. destruct (Hsha root) as [Hl Hh]. unfold hashPath. split.
  - rewrite length_take, Hl. reflexivity.
  - apply Forall_take, Hh.
Qed.

Lemma generate_id_shape r root file r' id :
  (forall s, length (sha256_hex s) = 64%nat
             /\ Forall (fun c => is_hex c = true) (sha256_hex s)) ->
  generate_id sha256_hex r root file = (r', Return id) ->
  (length id = 40%nat \/ length id = 16%nat) /\ Forall (fun c => is_hex c = true) id.
Proof.
  intros Hsha H.
  destruct (generate_id_returns sha256_hex r root file) as (r1 & id1 & E & [Ht| ->] & _);
    rewrite E in H; inversion H; subst.
  - apply hex_test_inv in Ht as [Hl Hh]. split; [left; exact Hl | exact Hh].
  - destruct (hashPath_shape root Hsha) as [Hl Hh]. split; [right; exact Hl | exact Hh].
Qed.

(** X11. Every identity [getProjectId] returns is 40 or 16 hexadecimal
    digits, given that the digest is 64 of them: a commit hash, a path
    hash, or a cache content of one of the two shapes. *)
Theorem getProjectId_identity_shape r root r' id :
  (forall s, length (sha256_hex s) = 64%nat
             /\ Forall (fun c => is_hex c = true) (sha256_hex s)) ->
  getId r root = (r', Return id) ->
  (length id = 40%nat \/ length id = 16%nat) /\ Forall (fun c => is_hex c = true) id.
Proof.
  intros Hsha H. unfold getId, getProjectId in H.
  destruct root as [|c root]; [discriminate|].
  destruct (locate_gitDir path_join path_resolve r (c :: root)) as [[gitDir|e|]|] eqn:Hloc;
    try discriminate.
  - unfold cached_or_generate in H.
    destruct (r_files r !! path_join [gitDir; u "opencode"]) as [text|].
    + destruct (regex_test hex40Regex (trim text)) eqn:H40.
      * cbn [orb] in H. inversion H; subst. apply hex_test_inv in H40 as [Hl Hh].
        split; [left; exact Hl | exact Hh].
      * cbn [orb] in H. destruct (regex_test hex16Regex (trim text)) eqn:H16.
        -- inversion H; subst. apply hex_test_inv in H16 as [Hl Hh].
           split; [right; exact Hl | exact Hh].
        -- eapply generate_id_shape; eassumption.
    + eapply generate_id_shape; eassumption.
  - inversion H; subst. destruct (hashPath_shape (c :: root) Hsha) as [Hl Hh].
    split; [right; exact Hl | exact Hh].
Qed.

(** X12. With a cache file whose trimmed content is 40 or 16 hexadecimal
    digits, [getProjectId] returns that content and writes nothing,
    whatever the run of git would give. *)
Theorem getProjectId_uses_cache r root gitDir text :
  root <> [] ->
  locate r root = Some (Return gitDir) ->
  r_files r !! cacheFile gitDir = Some text ->
  (length (trim text) = 40%nat \/ length (trim text) = 16%nat) ->
  Forall (fun c => is_hex c = true) (trim text) ->
  forall git,
    getId (mkRepo (r_stat r) (r_files r) git (r_write_error r)) root
    = (mkRepo (r_stat r) (r_files r) git (r_write_error r), Return (trim text)).
Proof.
  intros Hroot Hloc Hc Hlen Hhex git. unfold getId.
  rewrite (getId_located _ _ _ _ _ gitDir Hroot) by exact Hloc.
  unfold cached_or_generate. cbn [r_files]. unfold cacheFile in Hc. rewrite Hc.
  destruct Hlen as [Hl|Hl].
  - unfold hex40Regex. rewrite (hex_test 40 _ Hl Hhex). reflexivity.
  - unfold hex16Regex. rewrite (hex_test 16 _ Hl Hhex), orb_true_r. reflexivity.
Qed.

(** X13. [getProjectId] changes nothing but the cache file, and writes
    there only a root commit hash it returns: a path hash is never cached,
    and a call that throws writes nothing. *)
Theorem getProjectId_writes_only_cache r root :
  r_stat (getId r root).1 = r_stat r
  /\ r_git (getId r root).1 = r_git r
  /\ r_write_error (getId r root).1 = r_write_error r
  /\ (r_files (getId r root).1 = r_files r
      \/ exists gitDir id,
           locate r root = Some (Return gitDir)
           /\ (getId r root).2 = Return id
           /\ regex_test hex40Regex id = true
           /\ r_files (getId r root).1 = <[cacheFile gitDir := id]> (r_files r)).
Proof.
  unfold getId, getProjectId.
  destruct root as [|c root]; [repeat split; left; reflexivity|].
  unfold locate.
  destruct (locate_gitDir path_join path_resolve r (c :: root)) as [[gitDir|e|]|] eqn:Hloc;
    try (repeat split; left; reflexivity).
  assert (Hgen :
    r_stat (generate_id sha256_hex r (c :: root) (cacheFile gitDir)).1 = r_stat r
    /\ r_git (generate_id sha256_hex r (c :: root) (cacheFile gitDir)).1 = r_git r
    /\ r_write_error (generate_id sha256_hex r (c :: root) (cacheFile gitDir)).1
       = r_write_error r
    /\ (r_files (generate_id sha256_hex r (c :: root) (cacheFile gitDir)).1 = r_files r
        \/ exists gitDir0 id,
             Some (Return gitDir) = Some (Return gitDir0)
             /\ (generate_id sha256_hex r (c :: root) (cacheFile gitDir)).2 = Return id
             /\ regex_test hex40Regex id = true
             /\ r_files (generate_id sha256_hex r (c :: root) (cacheFile gitDir)).1
                = <[cacheFile gitDir0 := id]> (r_files r))).
  { destruct (generate_id_returns sha256_hex r (c :: root) (cacheFile gitDir))
      as (r1 & id1 & E & _ & [->|(Ht & _ & ->)]); rewrite E; cbn [fst snd r_stat r_git r_write_error r_files].
    - repeat split; left; reflexivity.
    - repeat split. right. exists gitDir, id1. repeat split; assumption. }
  unfold cached_or_generate. fold (cacheFile gitDir).
  destruct (r_files r !! cacheFile gitDir) as [text|]; [|exact Hgen].
  destruct (regex_test hex40Regex (trim text) || regex_test hex16Regex (trim text));
    [repeat split; left; reflexivity | exact Hgen].
Qed.
End IdentityFacts.

(** ** Worktrees *)

Lemma is_bol_start s : is_bol s s = true.
Proof. unfold is_bol. rewrite Nat.sub_diag. reflexivity. Qed.

Lemma rmatch_bol_start input r c k :
  rmatch input (Seq Bol r) (MState input c) k = rmatch input r (MState input c) k.
Proof. cbn [rmatch rest]. rewrite is_bol_start. reflexivity. Qed.

Lemma rmatch_eol_end input tail c k :
  tail = [] \/ (exists more, tail = LF :: more) ->
  rmatch input Eol (MState tail c) k = k (MState tail c).
Proof. intros [->|(more & ->)]; reflexivity. Qed.

Lemma gitdir_line_match sp p tail :
  Forall (fun x => is_space x = true) sp ->
  p <> [] -> Forall (fun x => dot_char x = true) p -> run_ends is_space p ->
  tail = [] \/ (exists more, tail = LF :: more) ->
  exists m, str_match gitdirRegex (u "gitdir:" ++ sp ++ p ++ tail) = Some m
            /\ group m 1 = p.
Proof.
  intros Hsp Hp0 Hp Hrun Htail.
  set (content := u "gitdir:" ++ sp ++ p ++ tail).
  assert (Hm : rmatch content gitdirRegex (MState content no_caps) Some
               = Some (MState tail (set_cap 1 (Some p) no_caps))).
  { unfold gitdirRegex. cbn [seqs]. rewrite rmatch_bol_start.
    subst content. rewrite rmatch_seq, rmatch_lit_app.
    rewrite rmatch_seq.
    eapply star_greedy_run; [exact Hsp | |].
    { destruct p as [|x p']; [contradiction|]. exact Hrun. }
    rewrite rmatch_seq, rmatch_group.
    eapply plus_greedy_run; [exact Hp0 | exact Hp | |].
    { destruct Htail as [->|(more & ->)]; [exact I | reflexivity]. }
    cbn [rest caps]. rewrite (consumed_suffix _ _ p) by reflexivity.
    rewrite rmatch_eol_end by exact Htail. reflexivity. }
  exists (MatchResult content tail (set_cap 1 (Some p) no_caps)). split.
  - unfold str_match. apply (search_found _ _ _ _ Hm).
  - reflexivity.
Qed.

Section WorktreeFacts.
Variable path_join : list jsstring -> jsstring.
Variable path_resolve : jsstring -> jsstring -> jsstring.
Variable sha256_hex : jsstring -> jsstring.

Let getId := getProjectId path_join path_resolve sha256_hex.
Let cacheFile gitDir := path_join [gitDir; u "opencode"].

(** X14. A linked worktree has the identity of the main checkout: when the
    [.git] file of the worktree holds a [gitdir:] line whose directory
    (through its [commondir] file, or two levels up without one) resolves
    to the [.git] directory of the main checkout, git lists the same
    commits from both, and the identity of the main checkout is a commit
    hash, [getProjectId] returns that hash for the worktree too. *)
Theorem getProjectId_worktree r main tree sp p tail id :
  main <> [] -> tree <> [] ->
  r_stat r (path_join [main; u ".git"]) = Some IsDirectory ->
  r_stat r (path_join [tree; u ".git"]) = Some IsFile ->
  r_files r !! path_join [tree; u ".git"] = Some (u "gitdir:" ++ sp ++ p ++ tail) ->
  Forall (fun x => is_space x = true) sp ->
  p <> [] -> Forall (fun x => dot_char x = true) p -> run_ends is_space p ->
  tail = [] \/ (exists more, tail = LF :: more) ->
  match r_files r !! path_join [path_resolve tree (trim p); u "commondir"] with
  | Some commondirContent =>
    path_resolve (path_resolve tree (trim p)) (trim commondirContent)
  | None => path_resolve (path_resolve tree (trim p)) (u "../..")
  end = path_join [main; u ".git"] ->
  r_git r tree = r_git r main ->
  (getId r main).2 = Return id ->
  regex_test hex40Regex id = true ->
  (getId r tree).2 = Return id.
Proof.
  intros Hmain Htree Hsd Hsf Hfile Hsp Hp0 Hp Hrun Htail Hcommon Hgit Hid H40.
  set (gitDir := path_join [main; u ".git"]) in *.
  assert (Hlm : locate_gitDir path_join path_resolve r main = Some (Return gitDir)).
  { unfold locate_gitDir. fold gitDir. rewrite Hsd. reflexivity. }
  assert (Hlt : locate_gitDir path_join path_resolve r tree = Some (Return gitDir)).
  { unfold locate_gitDir. rewrite Hsf. unfold resolve_worktree. rewrite Hfile.
    destruct (gitdir_line_match sp p tail Hsp Hp0 Hp Hrun Htail) as (m & -> & ->).
    cbv zeta. rewrite Hcommon. fold gitDir. rewrite Hsd. reflexivity. }
  unfold getId in *.
  rewrite (getId_located _ _ _ _ _ gitDir Hmain Hlm) in Hid.
  rewrite (getId_located _ _ _ _ _ gitDir Htree Hlt).
  unfold cached_or_generate in *.
  destruct (r_files r !! path_join [gitDir; u "opencode"]) as [text|] eqn:Hc.
  - destruct (regex_test hex40Regex (trim text) || regex_test hex16Regex (trim text));
      [exact Hid|].
    revert Hid. unfold generate_id. rewrite Hgit.
    destruct (r_git r main) as [e| |[| |] out err]; cbn [snd];
      try (intros Hid; inversion Hid; subst id;
           apply hex_test_inv in H40 as [Hl _]; unfold hashPath in Hl;
           rewrite length_take in Hl; lia).
    destruct (roots_of_output out) as [|root roots];
      [intros Hid; inversion Hid; subst id;
       apply hex_test_inv in H40 as [Hl _]; unfold hashPath in Hl;
       rewrite length_take in Hl; lia|].
    destruct (regex_test hex40Regex root); cbn [snd]; [exact (fun H => H)|].
    intros Hid; inversion Hid; subst id.
    apply hex_test_inv in H40 as [Hl _]. unfold hashPath in Hl.
    rewrite length_take in Hl. lia.
  - revert Hid. unfold generate_id. rewrite Hgit.
    destruct (r_git r main) as [e| |[| |] out err]; cbn [snd];
      try (intros Hid; inversion Hid; subst id;
           apply hex_test_inv in H40 as [Hl _]; unfold hashPath in Hl;
           rewrite length_take in Hl; lia).
    destruct (roots_of_output out) as [|root roots];
      [intros Hid; inversion Hid; subst id;
       apply hex_test_inv in H40 as [Hl _]; unfold hashPath in Hl;
       rewrite length_take in Hl; lia|].
    destruct (regex_test hex40Regex root); cbn [snd]; [exact (fun H => H)|].
    intros Hid; inversion Hid; subst id.
    apply hex_test_inv in H40 as [Hl _]. unfold hashPath in Hl.
    rewrite length_take in Hl. lia.
Qed.
End WorktreeFacts.

(** ** The path hash *)

Section FallbackFacts.
Variable path_join : list jsstring -> jsstring.
Variable path_resolve : jsstring -> jsstring -> jsstring.
Variable sha256_hex : jsstring -> jsstring.

Let getId := getProjectId path_join path_resolve sha256_hex.
Let locate := locate_gitDir path_join path_resolve.
Let cacheFile gitDir := path_join [gitDir; u "opencode"].

(** X15. Without a [.git] entry, or with no usable cache and a git run
    that throws, times out, exits with an error or prints nothing, the
    identity is the path hash of the project root, and nothing is written. *)
Theorem getProjectId_path_hash_fallback r root :
  root <> [] ->
  r_stat r (path_join [root; u ".git"]) = None
  \/ (exists gitDir,
        locate r root = Some (Return gitDir)
        /\ cache_unusable r (cacheFile gitDir)
        /\ match r_git r root with
           | Exited 0 output _ => output = []
           | _ => True
           end) ->
  getId r root = (r, Return (hashPath sha256_hex root)).
Proof.
  intros Hroot [Hnone|(gitDir & Hloc & Hcache & Hgit)]; unfold getId.
  - unfold getProjectId. destruct root as [|c root]; [congruence|].
    unfold locate_gitDir. rewrite Hnone. reflexivity.
  - rewrite (getId_located _ _ _ _ _ gitDir Hroot Hloc).
    rewrite cached_or_generate_unusable by exact Hcache.
    unfold generate_id.
    destruct (r_git r root) as [e| |[| |] out err]; try reflexivity.
    rewrite Hgit. reflexivity.
Qed.
End FallbackFacts.

(** ** The table of coder calls *)

Lemma sweep_fold (now : Z) (l : list (jsstring * Z)) : forall (m : coder_calls),
  NoDup l.*1 ->
  (forall k v, (k, v) ∈ l -> m !! k = Some v) ->
  forall id t,
    fold_left (sweep_entry now) l m !! id = Some t
    <-> m !! id = Some t
        /\ ((id, t) ∈ l -> (now - t <= STALE_CALL_TIMEOUT_MS)%Z).
Proof.
  induction l as [|[k v] l IH]; intros m Hnd Hin id t.
  - cbn [fold_left]. split; [intros H; split; [exact H|] | intros [H _]; exact H].
    intros Hx. inversion Hx.
  - cbn [fold_left]. rewrite fmap_cons in Hnd. apply NoDup_cons in Hnd as [Hk Hnd].
    assert (Hkl : forall v', (k, v') ∈ l -> False).
    { intros v' Hx. apply Hk. apply list_elem_of_fmap. exists (k, v'). split; [reflexivity | exact Hx]. }
    unfold sweep_entry at 2. cbn [fst snd].
    destruct (Z.ltb_spec STALE_CALL_TIMEOUT_MS (now - v)) as [Hstale|Hfresh].
    + rewrite IH; [|exact Hnd|].
      2:{ intros k' v' Hx. rewrite lookup_delete_ne.
          - apply Hin. apply elem_of_cons. right. exact Hx.
          - intros <-. eapply Hkl, Hx. }
      destruct (decide (id = k)) as [->|Hne].
      * rewrite lookup_delete_eq. split; [intros [H _]; discriminate|].
        intros [Hm Hl]. exfalso.
        assert (t = v).
        { specialize (Hin k v). rewrite Hin in Hm by (apply elem_of_cons; left; reflexivity).
          congruence. }
        subst t. specialize (Hl ltac:(apply elem_of_cons; left; reflexivity)). lia.
      * rewrite lookup_delete_ne by congruence. split; intros [Hm Hl]; (split; [exact Hm|]).
        -- intros Hx. apply elem_of_cons in Hx as [Hx|Hx]; [congruence | auto].
        -- intros Hx. apply Hl. apply elem_of_cons. right. exact Hx.
    + rewrite IH; [|exact Hnd|].
      2:{ intros k' v' Hx. apply Hin. apply elem_of_cons. right. exact Hx. }
      split; intros [Hm Hl]; (split; [exact Hm|]).
      * intros Hx. apply elem_of_cons in Hx as [Hx|Hx]; [|auto].
        inversion Hx; subst. exact Hfresh.
      * intros Hx. apply Hl. apply elem_of_cons. right. exact Hx.
Qed.

(** X16. The periodic sweep keeps exactly the calls that started at most
    fifteen minutes before it, each with its start time. *)
Theorem cleanup_keeps_fresh_calls (now : Z) (calls : coder_calls) (id : jsstring) (t : Z) :
  cleanupInterval_callback now calls !! id = Some t
  <-> calls !! id = Some t /\ (now - t <= STALE_CALL_TIMEOUT_MS)%Z.
Proof.
  unfold cleanupInterval_callback.
  rewrite sweep_fold.
  - split; intros [Hm Hl]; (split; [exact Hm|]).
    + apply Hl. apply elem_of_map_to_list, Hm.
    + intros _. exact Hl.
  - apply NoDup_fst_map_to_list.
  - intros k v Hx. apply elem_of_map_to_list, Hx.
Qed.

(** X17. A coder call the sweep has removed completes in silence: the
    after-hook leaves the output and the table as they are. *)
Theorem swept_call_completes_silently (now : Z) (calls : coder_calls)
    (call : jsstring) (t : Z) (output : jsstring) :
  calls !! call = Some t ->
  (STALE_CALL_TIMEOUT_MS < now - t)%Z ->
  tool_execute_after (u "task") (Some call) (cleanupInterval_callback now calls) output
  = (cleanupInterval_callback now calls, output).
Proof.
  intros Hm Hstale. unfold tool_execute_after.
  rewrite bool_decide_eq_false_2 by discriminate.
  destruct (falsy (Some call)) eqn:Hf; [reflexivity|].
  cbn [default from_option]. unfold id.
  rewrite bool_decide_eq_false_2; [reflexivity|].
  intros [t' Ht']. unfold cleanupInterval_callback in Ht'.
  apply sweep_fold in Ht' as [Hm' Hl].
  - rewrite Hm in Hm'. inversion Hm'; subst t'.
    specialize (Hl ltac:(apply elem_of_map_to_list; exact Hm)). lia.
  - apply NoDup_fst_map_to_list.
  - intros k v Hx. apply elem_of_map_to_list, Hx.
Qed.

Lemma before_coder_task (now : Z) (id : jsstring) (calls : coder_calls) :
  id <> [] ->
  tool_execute_before now (u "task") (Some id) (Some (u "coder")) calls
  = <[id := now]> calls.
Proof.
  intros Hid. unfold tool_execute_before.
  rewrite bool_decide_eq_false_2 by (intros H; apply H; reflexivity).
  destruct id as [|c s]; [congruence|]. cbn [falsy].
  rewrite bool_decide_eq_false_2 by (intros H; apply H; reflexivity).
  reflexivity.
Qed.

Lemma start_coder_tasks_dom (starts : list (jsstring * Z)) : forall calls : coder_calls,
  Forall (fun s : jsstring * Z => s.1 <> []) starts ->
  dom (start_coder_tasks starts calls) = list_to_set starts.*1 ∪ dom calls.
Proof.
  unfold start_coder_tasks.
  induction starts as [|[id now] starts IH]; intros calls Hne.
  - cbn [fold_left fmap list_fmap list_to_set]. rewrite (left_id_L ∅ (∪)). reflexivity.
  - inversion Hne as [|? ? Hid Hrest]; subst. cbn [fold_left fst snd].
    rewrite before_coder_task by exact Hid. rewrite IH by exact Hrest.
    rewrite dom_insert_L. cbn [fmap list_fmap list_to_set fst].
    rewrite (assoc_L (∪)), (comm_L (∪) (list_to_set starts.*1)). reflexivity.
Qed.

Lemma complete_tasks_all (ids : list jsstring) : forall calls : coder_calls,
  ids <> [] -> NoDup ids -> Forall (fun id => id <> []) ids ->
  dom calls = list_to_set ids ->
  complete_tasks ids calls
  = (∅, replicate (length ids - 1) [] ++ [coderCompleteReminder]).
Proof.
  induction ids as [|id ids IH]; intros calls Hne Hnd Hids Hdom; [congruence|].
  apply NoDup_cons in Hnd as [Hnotin Hnd]. inversion Hids as [|? ? Hid Hrest]; subst.
  assert (Hin : is_Some (calls !! id)).
  { apply elem_of_dom. rewrite Hdom. cbn [list_to_set].
    apply elem_of_union_l, elem_of_singleton. reflexivity. }
  assert (Hdel : dom (delete id calls) = list_to_set ids).
  { rewrite dom_delete_L, Hdom. cbn [list_to_set].
    rewrite difference_union_distr_l_L, difference_diag_L, (left_id_L ∅ (∪)).
    apply difference_disjoint_L, disjoint_singleton_r.
    rewrite elem_of_list_to_set. exact Hnotin. }
  cbn [complete_tasks]. unfold tool_execute_after.
  rewrite bool_decide_eq_false_2 by discriminate.
  destruct id as [|c s]; [congruence|]. cbn [falsy default from_option]. unfold Datatypes.id.
  rewrite (bool_decide_eq_true_2 _ Hin). cbn [fst snd].
  destruct ids as [|id' ids'].
  - assert (Hempty : delete (c :: s) calls = ∅).
    { apply dom_empty_inv_L. rewrite Hdel. reflexivity. }
    rewrite Hempty. cbn [complete_tasks fst snd length replicate app].
    rewrite bool_decide_eq_true_2 by apply map_size_empty. reflexivity.
  - rewrite bool_decide_eq_false_2.
    2:{ intros Hs. apply map_size_empty_inv in Hs.
        rewrite Hs, dom_empty_L in Hdel. cbn [list_to_set] in Hdel.
        assert (Hin' : id' ∈ (∅ : gset jsstring)).
        { rewrite Hdel. apply elem_of_union_l, elem_of_singleton. reflexivity. }
        apply elem_of_empty in Hin'. exact Hin'. }
    rewrite IH; [|discriminate|exact Hnd|exact Hrest|exact Hdel].
    cbn [fst snd length]. rewrite !Nat.sub_succ, !Nat.sub_0_r. reflexivity.
Qed.

(** X18. When coder tasks are started from an empty table and then all
    complete, in whatever order, the review reminder is added exactly once,
    to the output of the last one to complete, and the table is empty
    again. *)
Theorem coder_batch_reminder_once (starts : list (jsstring * Z)) (done : list jsstring) :
  starts <> [] ->
  NoDup starts.*1 ->
  Forall (fun s : jsstring * Z => s.1 <> []) starts ->
  done ≡ₚ starts.*1 ->
  complete_tasks done (start_coder_tasks starts ∅)
  = (∅, replicate (length starts - 1) [] ++ [coderCompleteReminder]).
Proof.
  intros Hne Hnd Hids Hperm.
  rewrite complete_tasks_all.
  - rewrite Hperm, length_fmap. reflexivity.
  - intros E. rewrite E in Hperm. apply Permutation_nil_l in Hperm.
    destruct starts; [congruence | discriminate].
  - rewrite Hperm. exact Hnd.
  - rewrite Hperm. apply Forall_fmap. exact Hids.
  - rewrite start_coder_tasks_dom by exact Hids. rewrite dom_empty_L.
    rewrite (list_to_set_perm_L _ _ Hperm), (right_id_L ∅ (∪)). reflexivity.
Qed.

(** ** The compaction hook *)

Lemma search_plain_lit_absent input lit : forall from,
  ~ occurs lit from -> search input (Lit lit) from = None.
Proof.
  induction from as [|x from IH]; intros Hno.
  - cbn [search].
    destruct (strip_lit lit []) as [r'|] eqn:Hs.
    + exfalso. apply Hno. apply strip_lit_Some in Hs. exists [], r'. exact Hs.
    + rewrite rmatch_lit_fail by exact Hs. reflexivity.
  - cbn [search].
    destruct (strip_lit lit (x :: from)) as [r'|] eqn:Hs.
    + exfalso. apply Hno. apply strip_lit_Some in Hs. exists [], r'. exact Hs.
    + rewrite rmatch_lit_fail by exact Hs. apply IH.
      intros (pre & post & E). apply Hno. exists (x :: pre), post. rewrite E. reflexivity.
Qed.

Lemma currentTask_unmarked planContent :
  ~ occurs (u "← CURRENT") planContent -> currentTask planContent = None.
Proof.
  intros H. unfold currentTask, str_match, currentRegex.
  rewrite search_plain_lit_absent by exact H. reflexivity.
Qed.

Section CompactingFacts.
Variable defaultMessage : issue_code -> jsstring.
Variable path_join : list jsstring -> jsstring.
Variable homedir : jsstring.
Variable session_get : jsstring -> session_response.
Variable projectId : jsstring.

Let save := plan_save defaultMessage path_join homedir session_get projectId.
Let compacting := session_compacting path_join homedir session_get projectId.
Let pathR := planPath_read path_join homedir projectId.
Let sessionDir r := path_join [baseDir path_join homedir projectId; r].

(** X19. The after-hook of [plan_save] adds the reminder that the plan was
    saved to whatever the tool returned: also to the validation failure
    that [plan_save] answers for content it refused to write. *)
Theorem refused_save_gets_saved_reminder (fs : filesystem) (content : jsstring)
    (sid : option jsstring) (rootID error hint : jsstring)
    (callID : option jsstring) (calls : coder_calls) :
  parsePlanMarkdown defaultMessage (VString content) = Some (ParseError error hint) ->
  getRootSessionID session_get sid = Return rootID ->
  fs_mkdir_error fs (sessionDir rootID) = None ->
  exists out,
    (save fs content sid).2 = Return out
    /\ fs_files (save fs content sid).1 = fs_files fs
    /\ tool_execute_after (u "plan_save") callID calls out
       = (calls, formatParseError error hint ++ planSavedReminder).
Proof.
  intros Hparse Hroot Hmk. exists (formatParseError error hint).
  unfold save, sessionDir, plan_save in *.
  rewrite (resolved_not_falsy _ _ _ Hroot), Hroot. unfold fs_mkdir. rewrite Hmk, Hparse.
  cbn [fst snd fs_files]. split; [reflexivity|]. split; [reflexivity|].
  unfold tool_execute_after. rewrite bool_decide_eq_true_2 by reflexivity. reflexivity.
Qed.

(** X20. The compaction hook adds nothing to the context when the root
    session has no plan file or an empty one, and it throws again every
    error of the read that is not a file-not-found error. *)
Theorem session_compacting_without_plan fs sid rootID (context : list jsstring) :
  getRootSessionID session_get sid = Return rootID ->
  (fs_read_error fs (pathR rootID) = None ->
   fs_files fs !! pathR rootID = None \/ fs_files fs !! pathR rootID = Some [] ->
   compacting fs sid context = Return context)
  /\ (forall e, fs_readFile fs (pathR rootID) = Throw e ->
        e_is_Error e = true -> e_code e = Some (u "ENOENT") ->
        compacting fs sid context = Return context)
  /\ (forall e, fs_readFile fs (pathR rootID) = Throw e ->
        ~ (e_is_Error e = true /\ e_code e = Some (u "ENOENT")) ->
        compacting fs sid context = Throw e).
Proof.
  intros Hroot. unfold compacting, pathR, session_compacting. rewrite Hroot.
  split; [|split].
  - intros Hr [Hn|Hn]; unfold fs_readFile; rewrite Hr, Hn; reflexivity.
  - intros e He H1 H2. rewrite He. unfold isNodeError. rewrite H1, H2. reflexivity.
  - intros e He Hne. rewrite He.
    destruct (negb (isNodeError e) || bool_decide (e_code e ≠ Some (u "ENOENT"))) eqn:Hb;
      [reflexivity|].
    exfalso. apply Hne. apply orb_false_elim in Hb as [H1 H2].
    apply negb_false_iff in H1. unfold isNodeError in H1. apply andb_prop in H1 as [H1 _].
    apply bool_decide_eq_false in H2. split; [exact H1|].
    destruct (decide (e_code e = Some (u "ENOENT"))); [assumption | contradiction].
Qed.

(** X21. For a stored plan that is not empty and in which the marker of
    the current task does not occur, the compaction hook adds one entry to
    the context: the plan as it is stored, and the resume point "No task
    marked as CURRENT". *)
Theorem session_compacting_unmarked fs sid rootID planContent (context : list jsstring) :
  getRootSessionID session_get sid = Return rootID ->
  fs_readFile fs (pathR rootID) = Return planContent ->
  planContent <> [] ->
  ~ occurs (u "← CURRENT") planContent ->
  compacting fs sid context
  = Return (context ++ [u "<workspace-context>
## Current Plan
" ++ planContent ++ u "

## Resume Point
" ++ u "No task marked as CURRENT" ++ u "

## Verification
To verify any cited decision, use `delegation_read(" ++ [QUOTE] ++ u "ref:id"
      ++ [QUOTE] ++ u ")`.
</workspace-context>"]).
Proof.
  intros Hroot Hread Hne Hno. unfold compacting, pathR, session_compacting in *.
  rewrite Hroot, Hread. destruct planContent as [|c p]; [congruence|].
  rewrite (currentTask_unmarked _ Hno). unfold workspaceContext. reflexivity.
Qed.
End CompactingFacts.

(** ** The resume point *)


Lemma search_skip_fail input r w from :
  (forall w1 w2, w = w1 ++ w2 -> w2 <> [] ->
     rmatch input r (MState (w2 ++ from) no_caps) Some = None) ->
  search input r (w ++ from) = search input r from.
Proof.
  induction w as [|x w IH]; intros H; [reflexivity|].
  cbn [app]. rewrite search_cons_fail.
  - apply IH. intros w1 w2 E Hne. apply (H (x :: w1) w2); [rewrite E; reflexivity | exact Hne].
  - apply (H [] (x :: w)); [reflexivity | discriminate].
Qed.





Section ResumePoint.
Variable input : jsstring.


End ResumePoint.



(** ** Task lines in a phase body *)

Lemma remove_double_star_end x :
  Forall (fun c => c <> STAR) x -> remove_double_star (x ++ u "**") = x.
Proof.
  induction 1 as [|a x Ha _ IH]; [reflexivity|].
  cbn [app]. cbn [remove_double_star].
  destruct (x ++ u "**") as [|b r] eqn:E; [destruct x; discriminate|].
  assert (Hs : (a =? STAR) = false) by (apply N.eqb_neq; exact Ha).
  rewrite Hs. cbn [andb]. rewrite IH. reflexivity.
Qed.

Lemma remove_double_star_none x :
  Forall (fun c => c <> STAR) x -> remove_double_star x = x.
Proof.
  induction 1 as [|a x Ha _ IH]; [reflexivity|].
  cbn [remove_double_star]. destruct x as [|b r]; [reflexivity|].
  assert (Hs : (a =? STAR) = false) by (apply N.eqb_neq; exact Ha).
  rewrite Hs. cbn [andb]. rewrite IH. reflexivity.
Qed.

Lemma trimEnd_snoc_nonspace s x : is_space x = false -> trimEnd (s ++ [x]) = s ++ [x].
Proof.
  intros H. unfold trimEnd. rewrite rev_app_distr. cbn [rev app drop_while]. rewrite H.
  change (x :: rev s) with ([x] ++ rev s). rewrite rev_app_distr, rev_involutive. reflexivity.
Qed.

Section BoldLine.
Variable input : jsstring.

Lemma bold_task_line_match t tail :
  bold_task_ok t = true ->
  exists c, rmatch input taskRegex (MState (bold_task_line t ++ LF :: tail) no_caps) Some
            = Some (MState (LF :: tail) c)
    /\ task_of_match (MatchResult (bold_task_line t ++ LF :: tail) (LF :: tail) c) = raw_task t.
Proof.
  intros Hok. unfold bold_task_ok in Hok.
  apply andb_prop in Hok as [Hok HtrimE]. apply andb_prop in Hok as [Hok HtrimS].
  apply andb_prop in Hok as [Hok Hstar].
  apply bool_decide_eq_true_1 in HtrimE. apply bool_decide_eq_true_1 in HtrimS.
  apply lit_no in Hstar.
  unfold task_ok in Hok.
  apply andb_prop in Hok as [Hok Hcontent]. apply andb_prop in Hok as [Hok Htext].
  apply andb_prop in Hok as [Hmaj Hmin].
  apply is_digits_inv in Hmaj as [Hmaj0 Hmaj]. apply is_digits_inv in Hmin as [Hmin0 Hmin].
  apply forallb_Forall_ok in Htext.
  assert (Hrun : Forall (fun x => not_arrow_nl x = true) (ct_text t)).
  { eapply Forall_impl; [exact Htext|]. intros x Hx.
    unfold task_text_char, not_arrow_nl in *.
    destruct (x =? LF), (x =? LARROW); try reflexivity; discriminate. }
  destruct t as [checked major minor text current].
  cbn [ct_checked ct_major ct_minor ct_text ct_current] in *.
  unfold bold_task_line. cbn [ct_checked ct_major ct_minor ct_text ct_current].
  assert (Htext0 : text <> []) by (destruct text; [discriminate Hcontent | discriminate]).
  assert (Hbold : Forall (fun x => not_arrow_nl x = true) (text ++ u "**")).
  { apply Forall_app. split; [exact Hrun | repeat constructor]. }
  assert (Htrim : trim (text ++ u "**") = text ++ u "**").
  { unfold trim. rewrite trimStart_app_nonblank by (rewrite HtrimS; exact Htext0).
    rewrite HtrimS. change (u "**") with ([42] ++ [42]). rewrite !app_assoc.
    apply trimEnd_snoc_nonspace. reflexivity. }
  assert (Hplain : remove_double_star (trim text) = text).
  { unfold trim. rewrite HtrimS, HtrimE. apply remove_double_star_none, Hstar. }
  set (box := if checked then 120 else 32).
  assert (Hbox : space_or_x box = true) by (subst box; destruct checked; reflexivity).
  assert (Hp2 : forall r : jsstring,
            (length (major ++ r) <? length (u "**" ++ major ++ r))%nat = true).
  { intros r. apply Nat.ltb_lt. rewrite (length_app (u "**")).
    vm_compute (length (u "**")). lia. }
  destruct current; eexists; (split; [|shelve]); unfold taskRegex; cbn [seqs];
    rewrite <- !app_assoc;
    rewrite rmatch_seq, rmatch_lit_app;
    rewrite rmatch_seq, rmatch_group, rmatch_cls_app by exact Hbox;
    cbn [rest caps]; rewrite (consumed_suffix _ _ [box]) by reflexivity;
    rewrite rmatch_seq, rmatch_lit_app;
    rewrite rmatch_seq; eapply rmatch_opt_take;
    rewrite rmatch_group; unfold clear_groups; cbn [rest caps groups fold_right];
    rewrite rmatch_lit_app; cbn [rest caps]; unfold progressed; cbn [rest];
    rewrite Hp2; rewrite (consumed_suffix _ _ (u "**")) by reflexivity;
    rewrite rmatch_seq, rmatch_group; cbn [seqs];
    rewrite rmatch_seq;
    (eapply plus_greedy_run; [exact Hmaj0 | exact Hmaj | reflexivity |]);
    rewrite rmatch_seq, rmatch_lit_app;
    (eapply plus_greedy_run; [exact Hmin0 | exact Hmin | reflexivity |]);
    cbn [rest caps];
    rewrite (consumed_suffix _ _ (major ++ u "." ++ minor))
      by (cbn [rest]; rewrite <- !app_assoc; reflexivity);
    rewrite rmatch_seq, rmatch_lit_app;
    rewrite rmatch_seq, rmatch_group.
  - (* marked *)
    change (u " ← CURRENT") with (u " " ++ u "← CURRENT"). rewrite <- !app_assoc.
    rewrite (app_assoc (u "**") (u " ")). rewrite (app_assoc text).
    eapply plus_greedy_run.
    { destruct text; discriminate. }
    { apply Forall_app. split; [exact Hrun | repeat constructor]. }
    { reflexivity. }
    cbn [rest caps]. rewrite (consumed_suffix _ _ (text ++ u "**" ++ u " ")) by reflexivity.
    rewrite rmatch_seq. eapply rmatch_opt_take.
    rewrite rmatch_group. unfold clear_groups. cbn [rest caps groups fold_right].
    rewrite rmatch_lit_app. cbn [rest caps]. unfold progressed. cbn [rest].
    assert (Hp : (length (LF :: tail) <? length (u "← CURRENT" ++ LF :: tail))%nat = true).
    { apply Nat.ltb_lt. rewrite length_app. vm_compute (length (u "← CURRENT")). lia. }
    rewrite Hp. rewrite (consumed_suffix _ _ (u "← CURRENT")) by reflexivity.
    rewrite rmatch_seq. apply star_lazy_stop.
    rewrite (rmatch_opt_skip input); [reflexivity|].
    rewrite rmatch_group. apply (rmatch_lit_fail input). reflexivity.
  - (* not marked *)
    rewrite app_nil_l. rewrite (app_assoc text).
    eapply plus_greedy_run; [destruct text; discriminate | exact Hbold | reflexivity |].
    cbn [rest caps]. rewrite (consumed_suffix _ _ (text ++ u "**")) by reflexivity.
    rewrite rmatch_seq, (rmatch_opt_skip input).
    2: { rewrite rmatch_group. apply (rmatch_lit_fail input). reflexivity. }
    rewrite rmatch_seq. apply star_lazy_stop.
    rewrite (rmatch_opt_skip input); [reflexivity|].
    rewrite rmatch_group. apply (rmatch_lit_fail input). reflexivity.
  Unshelve.
  all: unfold task_of_match, group, raw_task;
    cbn [m_caps set_cap Nat.eqb default from_option id fmap option_fmap option_map
         ct_checked ct_major ct_minor ct_text ct_current];
    unfold id; rewrite ?app_assoc, ?trim_snoc_space, <- ?app_assoc;
    rewrite Htrim, Hplain, remove_double_star_end by exact Hstar;
    subst box; destruct checked; reflexivity.
Qed.
End BoldLine.

Lemma render_task_items_cons item items after :
  render_task_items (item :: items) after
  = ti_before item
      ++ (if ti_bold item then bold_task_line (ti_task item) else task_line (ti_task item))
      ++ LF :: render_task_items items after.
Proof.
  unfold render_task_items, task_item_text. cbn [map concat].
  rewrite <- !app_assoc. reflexivity.
Qed.

Lemma taskRegex_hyphen :
  taskRegex
  = Seq (Lit (HYPHEN :: u " ["))
      (seqs [Group 1 (Cls space_or_x); Lit (u "] ");
             Opt (Group 2 (Lit (u "**")));
             Group 3 (seqs [Plus (Cls is_digit); Lit (u "."); Plus (Cls is_digit)]);
             Lit (u " ");
             Group 4 (Plus (Cls not_arrow_nl));
             Opt (Group 5 (Lit (u "← CURRENT")));
             Star false (Cls dot_char);
             Opt (Group 6 (seqs [Lit (u "`ref:"); Plus (Cls is_lower); Lit (u "-");
                                 Plus (Cls is_lower); Lit (u "-");
                                 Plus (Cls is_lower); Lit (u "`")]))]).
Proof. reflexivity. Qed.

Lemma search_task_skip input w from :
  Forall (fun x => x <> HYPHEN) w ->
  search input taskRegex (w ++ from) = search input taskRegex from.
Proof. intros H. rewrite taskRegex_hyphen. apply search_skip_lit, H. Qed.

Lemma exec_task_items input items after : forall w fuel,
  Forall (fun item => task_item_ok item = true) items ->
  Forall (fun x => x <> HYPHEN) after ->
  Forall (fun x => x <> HYPHEN) w ->
  (length (w ++ render_task_items items after) < fuel)%nat ->
  exists ms, exec_loop input fuel taskRegex (w ++ render_task_items items after) = Some ms
    /\ map task_of_match ms = map (fun item => raw_task (ti_task item)) items.
Proof.
  induction items as [|item items IH]; intros w fuel Hok Hafter Hw Hfuel.
  - destruct fuel as [|fuel]; [lia|]. exists []. split; [|reflexivity].
    cbn [exec_loop]. unfold render_task_items. cbn [map concat app].
    rewrite <- (app_nil_r (w ++ after)), search_task_skip.
    + reflexivity.
    + apply Forall_app. split; assumption.
  - destruct fuel as [|fuel]; [lia|].
    inversion Hok as [|? ? Hitem Hrest]; subst.
    rewrite render_task_items_cons in *.
    unfold task_item_ok in Hitem. apply andb_prop in Hitem as [Hbefore Hline].
    apply lit_no in Hbefore.
    destruct item as [before bold t]. cbn [ti_before ti_bold ti_task] in *.
    set (line := if bold then bold_task_line t else task_line t) in *.
    set (more := render_task_items items after) in *.
    assert (Hmatch : exists c,
      rmatch input taskRegex (MState (line ++ LF :: more) no_caps) Some
      = Some (MState (LF :: more) c)
      /\ task_of_match (MatchResult (line ++ LF :: more) (LF :: more) c) = raw_task t).
    { subst line. destruct bold; [apply bold_task_line_match | apply task_line_match];
        exact Hline. }
    destruct Hmatch as (c & Hm & Hraw).
    assert (Hlen : (1 <= length line)%nat).
    { subst line. destruct bold; unfold bold_task_line, task_line;
        rewrite length_app; vm_compute (length (u "- [")); lia. }
    cbn [exec_loop]. rewrite app_assoc, search_task_skip.
    2:{ apply Forall_app. split; assumption. }
    rewrite (search_found _ _ _ _ Hm). cbn [m_end rest].
    destruct (IH [LF] fuel Hrest Hafter) as (ms & Hms & Hmap).
    { repeat constructor. discriminate. }
    { subst more. rewrite !length_app in Hfuel. cbn [length app] in *. lia. }
    change (LF :: more) with ([LF] ++ more). subst more. rewrite Hms.
    eexists. split; [reflexivity|]. cbn [map ti_task]. rewrite Hmap. f_equal. exact Hraw.
Qed.

(** X23. In a phase body, the task lines are read in order, in the plain
    style or in bold as the README writes the current task (the stars are
    not part of the id or of the text), and free text without a hyphen
    before, between and after them, such as blank lines, is passed over. *)
Theorem extract_tasks_items (items : list TaskItem) (after : jsstring) :
  Forall (fun item => task_item_ok item = true) items ->
  Forall (fun x => x <> HYPHEN) after ->
  extract_tasks (render_task_items items after)
  = Some (map (fun item => raw_task (ti_task item)) items).
Proof.
  intros Hok Hafter. unfold extract_tasks, exec_all.
  destruct (exec_task_items (render_task_items items after) items after []
              (S (length (render_task_items items after))) Hok Hafter) as (ms & Hms & Hmap).
  - constructor.
  - cbn [app]. lia.
  - cbn [app] in Hms. rewrite Hms. cbn [fmap option_fmap option_map]. rewrite Hmap.
    reflexivity.
Qed.

(** ** The system prompt *)

Section TransformFacts.
Variable PLAN_RULES BUILD_RULES : jsstring.

(** X24. The system-prompt hook only adds: the entries already there stay
    in place, the date block follows with the date part of the ISO time,
    and the rules follow it for the agents plan and build, and for no
    other. *)
Theorem system_transform_adds (date time : jsstring) (year : nat)
    (agent : option jsstring) (system : list jsstring) :
  Forall (fun x => x <> 84) date ->
  system_transform PLAN_RULES BUILD_RULES (date ++ 84 :: time) year agent system
  = system ++ dateAwareness date (nat_to_string year)
      :: match agent with
         | Some name =>
           if bool_decide (name = u "plan") then [PLAN_RULES]
           else if bool_decide (name = u "build") then [BUILD_RULES]
           else []
         | None => []
         end.
Proof.
  intros Hd. unfold system_transform. rewrite split_on_line by exact Hd.
  cbn [head default from_option]. unfold id. cbn [app]. f_equal. f_equal.
  destruct agent as [name|].
  - destruct (decide (name = u "plan")) as [->|Hp].
    + rewrite !bool_decide_eq_true_2 by reflexivity. reflexivity.
    + rewrite (bool_decide_eq_false_2 (Some name = Some (u "plan"))) by congruence.
      rewrite (bool_decide_eq_false_2 (name = u "plan")) by exact Hp.
      destruct (decide (name = u "build")) as [->|Hb].
      * rewrite !bool_decide_eq_true_2 by reflexivity. reflexivity.
      * rewrite (bool_decide_eq_false_2 (Some name = Some (u "build"))) by congruence.
        rewrite (bool_decide_eq_false_2 (name = u "build")) by exact Hb. reflexivity.
  - rewrite !bool_decide_eq_false_2 by discriminate. reflexivity.
Qed.
End TransformFacts.

(** ** The goal line *)

(** X25. The goal is the text that follows the first [## Goal] heading
    line, up to the first line break or hash sign, trimmed; a goal that is
    blank up to there is no goal. *)
Theorem extract_goal_first_line (before g tail : jsstring) :
  Forall (fun x => x <> HASH) before ->
  g <> [] -> Forall (fun x => not_nl_hash x = true) g ->
  run_ends not_nl_hash tail ->
  extract_goal (before ++ u "## Goal
" ++ g ++ tail)
  = match trim g with
    | [] => None
    | text => Some text
    end.
Proof.
  intros Hbefore Hg0 Hg Hrun. unfold extract_goal, str_match, goalRegex. cbn [seqs].
  change (u "## Goal
") with (HASH :: u "# Goal
").
  rewrite search_skip_no_hash by exact Hbefore.
  change (HASH :: u "# Goal
") with (u "## Goal
").
  erewrite search_found.
  2: { rewrite rmatch_seq, rmatch_lit_app, rmatch_group.
       eapply plus_greedy_run; [exact Hg0 | exact Hg | exact Hrun |].
       cbn [rest caps]. rewrite (consumed_suffix _ _ g) by reflexivity.
       reflexivity. }
  unfold group. cbn [m_caps caps set_cap Nat.eqb default from_option]. unfold id.
  reflexivity.
Qed.

(** ** Broken worktrees, and checkbox lines without an id *)

Lemma search_bol_lit_absent input lit r : forall from,
  ~ occurs lit from -> search input (Seq Bol (Seq (Lit lit) r)) from = None.
Proof.
  assert (Hfail : forall from, strip_lit lit from = None ->
            rmatch input (Seq Bol (Seq (Lit lit) r)) (MState from no_caps) Some = None).
  { intros from Hs. cbn [rmatch rest caps]. rewrite Hs.
    destruct (is_bol input from); reflexivity. }
  induction from as [|x from IH]; intros Hno.
  - cbn [search].
    destruct (strip_lit lit []) as [r'|] eqn:Hs.
    + exfalso. apply Hno. apply strip_lit_Some in Hs. exists [], r'. exact Hs.
    + rewrite Hfail by exact Hs. reflexivity.
  - cbn [search].
    destruct (strip_lit lit (x :: from)) as [r'|] eqn:Hs.
    + exfalso. apply Hno. apply strip_lit_Some in Hs. exists [], r'. exact Hs.
    + rewrite Hfail by exact Hs. apply IH.
      intros (pre & post & E). apply Hno. exists (x :: pre), post. rewrite E. reflexivity.
Qed.

Section WorktreeErrors.
Variable path_join : list jsstring -> jsstring.
Variable path_resolve : jsstring -> jsstring -> jsstring.
Variable sha256_hex : jsstring -> jsstring.

Let getId := getProjectId path_join path_resolve sha256_hex.

(** X26. When [.git] is a file in which [gitdir:] does not occur,
    [getProjectId] throws the error of the invalid format, naming the file,
    and writes nothing: no identity is made up for a broken worktree. *)
Theorem getProjectId_invalid_git_file r root content :
  root <> [] ->
  r_stat r (path_join [root; u ".git"]) = Some IsFile ->
  r_files r !! path_join [root; u ".git"] = Some content ->
  ~ occurs (u "gitdir:") content ->
  getId r root
  = (r, Throw (Error (u "getProjectId: .git file exists but has invalid format at "
                        ++ path_join [root; u ".git"]))).
Proof.
  intros Hroot Hstat Hfile Hno. unfold getId, getProjectId.
  destruct root as [|c root]; [congruence|].
  unfold locate_gitDir. rewrite Hstat. unfold resolve_worktree. rewrite Hfile.
  unfold str_match, gitdirRegex. cbn [seqs].
  rewrite search_bol_lit_absent by exact Hno. reflexivity.
Qed.
End WorktreeErrors.

Lemma idless_line_fails input box x text after :
  space_or_x box = true ->
  is_digit x = false -> x <> STAR ->
  rmatch input taskRegex
    (MState (u "- [" ++ [box] ++ u "] " ++ (x :: text) ++ after) no_caps) Some
  = None.
Proof.
  intros Hbox Hx Hstar. unfold taskRegex. cbn [seqs].
  rewrite rmatch_seq, rmatch_lit_app.
  rewrite rmatch_seq, rmatch_group, rmatch_cls_app by exact Hbox.
  cbn [rest caps]. rewrite (consumed_suffix _ _ [box]) by reflexivity.
  rewrite rmatch_seq, rmatch_lit_app.
  rewrite rmatch_seq, (rmatch_opt_skip input).
  - rewrite rmatch_seq, rmatch_group. cbn [seqs]. rewrite rmatch_seq. unfold Plus.
    rewrite rmatch_seq. cbn [rmatch rest app]. rewrite Hx. reflexivity.
  - rewrite rmatch_group. apply (rmatch_lit_fail input). unfold clear_groups. cbn [rest app].
    apply (strip_lit_head 42 [42] x). intros E. apply Hstar. symmetry. exact E.
Qed.

(** X27. A checkbox line whose text does not begin with an id of the
    shape N.M, plain or after two stars, gives no task: it is passed over
    without an error. *)
Theorem checkbox_without_id_is_no_task (box x : N) (text after : jsstring) :
  space_or_x box = true ->
  is_digit x = false -> x <> STAR ->
  Forall (fun c => c <> HYPHEN) (x :: text ++ after) ->
  extract_tasks (u "- [" ++ [box] ++ u "] " ++ (x :: text) ++ after) = Some [].
Proof.
  intros Hbox Hx Hstar Hfree. unfold extract_tasks, exec_all.
  set (line := u "- [" ++ [box] ++ u "] " ++ (x :: text) ++ after).
  cbn [exec_loop].
  set (tail0 := u " [" ++ [box] ++ u "] " ++ (x :: text) ++ after).
  assert (Hs : search line taskRegex line = None).
  { change (search line taskRegex line) with (search line taskRegex (HYPHEN :: tail0)).
    rewrite search_cons_fail.
    2:{ change (HYPHEN :: tail0) with line. subst line.
        apply idless_line_fails; assumption. }
    rewrite <- (app_nil_r tail0), search_task_skip; [reflexivity|].
    subst tail0.
    apply Forall_app. split; [repeat constructor; discriminate|].
    apply Forall_app. split.
    - constructor; [|constructor]. unfold space_or_x in Hbox.
      intros ->. discriminate Hbox.
    - apply Forall_app. split; [repeat constructor; discriminate | exact Hfree]. }
  rewrite Hs. reflexivity.
Qed.

(** ** The lines of an error text *)

Lemma split_join_lines c (l : list jsstring) :
  l <> [] -> Forall (Forall (fun x => x <> c)) l ->
  split_on c (join_with [c] l) = l.
Proof.
  intros Hne H. induction H as [|x l Hx Hl IH]; [congruence|].
  destruct l as [|y l'].
  - cbn [join_with]. apply split_on_no_sep, Hx.
  - change (join_with [c] (x :: y :: l')) with (x ++ c :: join_with [c] (y :: l')).
    rewrite split_on_line by exact Hx. rewrite IH by discriminate. reflexivity.
Qed.

Lemma one_line_app a b : one_line a -> one_line b -> one_line (a ++ b).
Proof. intros Ha Hb. apply Forall_app. split; assumption. Qed.

Lemma one_line_lit s : forallb (fun x => negb (x =? LF)) s = true -> one_line s.
Proof. apply lit_no. Qed.

Lemma one_line_join sep parts :
  one_line sep -> Forall one_line parts -> one_line (join_with sep parts).
Proof.
  intros Hsep H. induction H as [|p ps Hp Hps IH]; [constructor|].
  destruct ps as [|q qs]; [exact Hp|].
  change (join_with sep (p :: q :: qs)) with (p ++ sep ++ join_with sep (q :: qs)).
  apply one_line_app; [exact Hp|]. apply one_line_app; [exact Hsep | exact IH].
Qed.

Lemma uint_chars_one_line d : one_line (uint_chars d).
Proof. induction d; cbn [uint_chars]; constructor; (discriminate || assumption). Qed.

Lemma nat_to_string_one_line n : one_line (nat_to_string n).
Proof. apply uint_chars_one_line. Qed.

Lemma format_issue_one_line issue : clean_issue issue -> one_line (format_issue issue).
Proof.
  intros (Hpath & Hmsg & Hvalues & Hinput). unfold format_issue.
  apply one_line_app.
  - destruct (i_path issue) as [|e p] eqn:E; [apply one_line_lit; reflexivity|].
    apply one_line_app; [apply one_line_lit; reflexivity|].
    apply one_line_app; [|apply one_line_lit; reflexivity].
    apply one_line_join; [apply one_line_lit; reflexivity|].
    apply Forall_map. exact Hpath.
  - apply one_line_app; [apply one_line_lit; reflexivity|].
    rewrite Hinput.
    destruct (i_code issue); try exact Hmsg.
    apply one_line_app; [apply one_line_lit; reflexivity|].
    apply one_line_app; [apply one_line_lit; reflexivity|].
    apply one_line_app; [apply one_line_lit; reflexivity|].
    apply one_line_app; [apply one_line_lit; reflexivity|].
    apply one_line_app; [apply one_line_lit; reflexivity|].
    destruct (i_values issue) as [values|] eqn:Ev; [|apply one_line_lit; reflexivity].
    apply one_line_join; [apply one_line_lit; reflexivity|]. apply Hvalues. reflexivity.
Qed.

Section IssueLines.
Variable defaultMessage : issue_code -> jsstring.
Hypothesis defaultMessage_one_line : forall code, one_line (defaultMessage code).

Lemma clean_path_key path k :
  clean_path path -> forallb (fun x => negb (x =? LF)) k = true ->
  clean_path (path ++ [PKey k]).
Proof.
  intros Hp Hk. apply Forall_app. split; [exact Hp|].
  constructor; [apply one_line_lit, Hk | constructor].
Qed.

Lemma clean_path_index path i : clean_path path -> clean_path (path ++ [PIndex i]).
Proof.
  intros Hp. apply Forall_app. split; [exact Hp|].
  constructor; [apply nat_to_string_one_line | constructor].
Qed.

Lemma builtin_clean path code : clean_path path -> clean_issue (builtin defaultMessage path code).
Proof using defaultMessage_one_line.
  intros Hp. repeat split; try assumption.
  - apply defaultMessage_one_line.
  - intros values H. discriminate H.
Qed.

Lemma custom_clean path code message :
  clean_path path -> forallb (fun x => negb (x =? LF)) message = true ->
  clean_issue (custom path code message).
Proof.
  intros Hp Hm. repeat split; try assumption.
  - apply one_line_lit, Hm.
  - intros values H. discriminate H.
Qed.

Lemma enum_issues_clean values path v :
  clean_path path -> Forall one_line values ->
  Forall clean_issue (enum_issues defaultMessage values path v).
Proof using defaultMessage_one_line.
  intros Hp Hv.
  assert (Hi : clean_issue
            (mkIssue path invalid_value (defaultMessage invalid_value) (Some values) None)).
  { repeat split; try assumption.
    - apply defaultMessage_one_line.
    - intros vs H. inversion H; subst. exact Hv. }
  unfold enum_issues. destruct v as [[s|n]|]; try (constructor; [exact Hi | constructor]).
  destruct (bool_decide (s ∈ values)); constructor; [exact Hi | constructor].
Qed.

Lemma positive_int_issues_clean path v :
  clean_path path -> Forall clean_issue (positive_int_issues defaultMessage path v).
Proof using defaultMessage_one_line.
  intros Hp. unfold positive_int_issues.
  destruct v as [[s|[|z|b]]|]; try (constructor; [apply builtin_clean, Hp | constructor]).
  apply Forall_app. split.
  - destruct (MAX_SAFE_INTEGER <? z)%Z; [constructor; [apply builtin_clean, Hp | constructor]|].
    destruct (z <? - MAX_SAFE_INTEGER)%Z; constructor; [apply builtin_clean, Hp | constructor].
  - destruct (0 <? z)%Z; constructor; [apply builtin_clean, Hp | constructor].
Qed.

Lemma string_regex_issues_clean re message path v :
  clean_path path -> forallb (fun x => negb (x =? LF)) message = true ->
  Forall clean_issue (string_regex_issues defaultMessage re message path v).
Proof using defaultMessage_one_line.
  intros Hp Hm. unfold string_regex_issues.
  destruct v as [[s|n]|]; try (constructor; [apply builtin_clean, Hp | constructor]).
  destruct (regex_test re s); constructor; [apply custom_clean; assumption | constructor].
Qed.

Lemma string_min_issues_clean n message path v :
  clean_path path -> forallb (fun x => negb (x =? LF)) message = true ->
  Forall clean_issue (string_min_issues defaultMessage n message path v).
Proof using defaultMessage_one_line.
  intros Hp Hm. unfold string_min_issues.
  destruct v as [s|]; [|constructor; [apply builtin_clean, Hp | constructor]].
  destruct (n <=? length s)%nat; constructor; [apply custom_clean; assumption | constructor].
Qed.

Lemma min1_issues_clean {A} message path (xs : list A) :
  clean_path path -> forallb (fun x => negb (x =? LF)) message = true ->
  Forall clean_issue (min1_issues message path xs).
Proof.
  intros Hp Hm. unfold min1_issues.
  destruct xs; constructor; [apply custom_clean; assumption | constructor].
Qed.

Lemma array_issues_clean {A} (f : list path_elem -> A -> list ZodIssue) path xs :
  clean_path path ->
  (forall p x, clean_path p -> Forall clean_issue (f p x)) ->
  Forall clean_issue (array_issues f path xs).
Proof.
  intros Hp Hf. unfold array_issues. apply Forall_concat, Forall_forall.
  intros l Hl. apply elem_of_lookup_imap in Hl as (i & x & -> & _).
  apply Hf, clean_path_index, Hp.
Qed.

Lemma TaskSchema_issues_clean path t :
  clean_path path -> Forall clean_issue (TaskSchema_issues defaultMessage path t).
Proof using defaultMessage_one_line.
  intros Hp. unfold TaskSchema_issues.
  apply Forall_app. split.
  { apply string_regex_issues_clean; [apply clean_path_key; [exact Hp|] |]; reflexivity. }
  apply Forall_app. split.
  { apply string_min_issues_clean; [apply clean_path_key; [exact Hp|] |]; reflexivity. }
  destruct (x_citation t); [|constructor].
  apply string_regex_issues_clean; [apply clean_path_key; [exact Hp|] |]; reflexivity.
Qed.

Lemma PhaseSchema_issues_clean path p :
  clean_path path -> Forall clean_issue (PhaseSchema_issues defaultMessage path p).
Proof using defaultMessage_one_line.
  intros Hp. unfold PhaseSchema_issues.
  apply Forall_app. split.
  { apply positive_int_issues_clean, clean_path_key; [exact Hp | reflexivity]. }
  apply Forall_app. split.
  { apply string_min_issues_clean; [apply clean_path_key; [exact Hp|] |]; reflexivity. }
  apply Forall_app. split.
  { apply enum_issues_clean; [apply clean_path_key; [exact Hp | reflexivity]|].
    repeat constructor; discriminate. }
  apply Forall_app. split.
  { apply array_issues_clean; [apply clean_path_key; [exact Hp | reflexivity]|].
    intros q t Hq. apply TaskSchema_issues_clean, Hq. }
  apply min1_issues_clean; [apply clean_path_key; [exact Hp|] |]; reflexivity.
Qed.

Lemma PlanSchema_issues_clean parts :
  Forall clean_issue (PlanSchema_issues defaultMessage parts).
Proof using defaultMessage_one_line.
  assert (Hroot : forall k, forallb (fun x => negb (x =? LF)) k = true -> clean_path [PKey k]).
  { intros k Hk. apply (clean_path_key [] k); [constructor | exact Hk]. }
  unfold PlanSchema_issues.
  apply Forall_app. split.
  { unfold FrontmatterSchema_issues.
    destruct (x_frontmatter parts) as [o|];
      [|constructor; [apply builtin_clean, Hroot; reflexivity | constructor]].
    apply Forall_app. split.
    { apply enum_issues_clean; [apply clean_path_key; [apply Hroot|]; reflexivity|].
      repeat constructor; discriminate. }
    apply Forall_app. split.
    { apply positive_int_issues_clean, clean_path_key; [apply Hroot|]; reflexivity. }
    apply string_regex_issues_clean; [apply clean_path_key; [apply Hroot|] |]; reflexivity. }
  apply Forall_app. split.
  { apply string_min_issues_clean; [apply Hroot|]; reflexivity. }
  apply Forall_app. split.
  { apply array_issues_clean; [apply Hroot; reflexivity|].
    intros q p Hq. apply PhaseSchema_issues_clean, Hq. }
  apply min1_issues_clean; [apply Hroot|]; reflexivity.
Qed.

(** X28. When the schema refuses a text, the error shows every issue, one
    per line, in the order of the schema, given that the library's own
    messages are of one line: splitting the error text at its line breaks
    gives back the formatted issues. *)
Theorem schema_errors_one_per_line content parts issue issues :
  trim content <> [] ->
  extractMarkdownParts content = Some parts ->
  PlanSchema_issues defaultMessage parts = issue :: issues ->
  parsePlanMarkdown defaultMessage (VString content)
  = Some (ParseError (formatZodErrors (issue :: issues)) skillHint)
  /\ split_on LF (formatZodErrors (issue :: issues)) = map format_issue (issue :: issues).
Proof using defaultMessage_one_line.
  intros Hnb Hparts Hissues. split.
  - unfold parsePlanMarkdown, parsePlanMarkdown_with.
    rewrite bool_decide_eq_false_2 by exact Hnb. rewrite Hparts.
    cbn [mbind option_bind]. rewrite parts_eta. unfold PlanSchema_safeParse.
    rewrite Hissues. reflexivity.
  - unfold formatZodErrors. apply split_join_lines; [discriminate|].
    apply Forall_map. rewrite <- Hissues.
    eapply Forall_impl; [apply PlanSchema_issues_clean|].
    intros i Hi. apply format_issue_one_line, Hi.
Qed.
End IssueLines.

(** ** Lines with other keys between the fences *)

Lemma occursb_eq lit s :
  occursb lit s
  = match strip_lit lit s with
    | Some _ => true
    | None => match s with [] => false | _ :: s' => occursb lit s' end
    end.
Proof. destruct s; reflexivity. Qed.

Lemma occursb_false lit s : occursb lit s = false -> ~ occurs lit s.
Proof.
  intros H (pre & post & ->). revert H.
  induction pre as [|x pre IH]; cbn [app]; rewrite occursb_eq.
  - rewrite strip_lit_app. discriminate.
  - destruct (strip_lit lit (x :: pre ++ lit ++ post)); [discriminate | exact IH].
Qed.

Section InputFree.
Variables i1 i2 : jsstring.

Lemma star_loop_input body1 body2 g :
  (forall s k, body1 s k = body2 s k) -> local_cont body2 ->
  forall n k st, star_loop body1 g k n st = star_loop body2 g k n st.
Proof.
  intros Hb Hl. induction n as [|n IH]; intros k st; [reflexivity|].
  cbn [star_loop]. rewrite (Hb st).
  rewrite (Hl st _ (fun st1 => if progressed st st1 then star_loop body2 g k n st1 else None)).
  - reflexivity.
  - intros st1 _. destruct (progressed st st1); [apply IH | reflexivity].
Qed.

Lemma rmatch_input r :
  anchor_free r = true -> forall st k, rmatch i1 r st k = rmatch i2 r st k.
Proof.
  induction r as [|s|p|a IHa b IHb|a IHa b IHb|g a IHa|a IHa|i a IHa|a IHa| | | |];
    intros Hr st k; cbn [rmatch anchor_free] in *; try reflexivity; try discriminate.
  - apply andb_prop in Hr as [Ha Hb]. rewrite (IHa Ha).
    apply rmatch_local. intros st1 _. apply (IHb Hb).
  - apply andb_prop in Hr as [Ha Hb]. rewrite (IHa Ha), (IHb Hb). reflexivity.
  - apply star_loop_input.
    + intros s j. apply (IHa Hr).
    + intros s j1 j2 Hj. apply rmatch_local. exact Hj.
  - rewrite (IHa Hr). reflexivity.
  - rewrite (IHa Hr). reflexivity.
  - rewrite (IHa Hr). reflexivity.
Qed.

Lemma search_input r : anchor_free r = true ->
  forall from, search i1 r from = search i2 r from.
Proof.
  intros Hr. induction from as [|x from IH]; cbn [search]; rewrite (rmatch_input r Hr).
  - reflexivity.
  - rewrite IH. reflexivity.
Qed.

Lemma exec_loop_input r : anchor_free r = true ->
  forall fuel from, exec_loop i1 fuel r from = exec_loop i2 fuel r from.
Proof.
  intros Hr. induction fuel as [|f IH]; intros from; [reflexivity|].
  cbn [exec_loop]. rewrite (search_input r Hr).
  destruct (search i2 r from) as [m|]; [|reflexivity]. rewrite IH. reflexivity.
Qed.
End InputFree.

Lemma exec_loop_fuel input r : consuming input r ->
  forall f1 f2 from, (length from < f1)%nat -> (length from < f2)%nat ->
    exec_loop input f1 r from = exec_loop input f2 r from.
Proof.
  intros Hc. induction f1 as [|f1 IH]; intros f2 from H1 H2; [lia|].
  destruct f2 as [|f2]; [lia|]. cbn [exec_loop].
  destruct (search input r from) as [m|] eqn:Hs; [|reflexivity].
  pose proof (search_end_shorter _ _ _ _ Hc Hs) as Hlen.
  rewrite (IH f2 (m_end m)) by lia. reflexivity.
Qed.

Lemma strip_lit_app_split a : forall b s,
  strip_lit (a ++ b) s
  = match strip_lit a s with Some r => strip_lit b r | None => None end.
Proof.
  induction a as [|x a IH]; intros b s; [reflexivity|].
  destruct s as [|y s]; cbn [app strip_lit]; [reflexivity|].
  destruct (x =? y); [apply IH | reflexivity].
Qed.

Lemma occursb_nowhere lit s : occursb lit s = false -> starts_nowhere lit s.
Proof.
  intros H s1 s2 ->. revert H.
  induction s1 as [|x s1 IH]; cbn [app]; rewrite occursb_eq.
  - destruct (strip_lit lit s2); [discriminate | reflexivity].
  - destruct (strip_lit lit (x :: s1 ++ s2)); [discriminate | exact IH].
Qed.

(** What starts nowhere in the lines starts nowhere in their join. *)
Lemma starts_nowhere_join lit lines :
  lit <> [] -> Forall (fun x => x <> LF) lit ->
  Forall (starts_nowhere lit) lines ->
  forall s1 s2 tail, join_with [LF] lines = s1 ++ s2 ->
    strip_lit lit (s2 ++ LF :: tail) = None.
Proof.
  intros Hne Hlf H. induction H as [|l ls Hl _ IH]; intros s1 s2 tail E.
  - symmetry in E. apply app_eq_nil in E as [_ ->]. cbn [app].
    destruct lit as [|a lit]; [contradiction|]. inversion Hlf; subst.
    apply strip_lit_head. assumption.
  - assert (Hline : forall l1 l2 more, l = l1 ++ l2 ->
              strip_lit lit (l2 ++ LF :: more) = None).
    { intros l1 l2 more El. rewrite strip_lit_line by exact Hlf.
      rewrite (Hl l1 l2 El). reflexivity. }
    destruct ls as [|l' ls'].
    + cbn [join_with] in E. apply (Hline s1 s2 tail E).
    + change (join_with [LF] (l :: l' :: ls')) with (l ++ LF :: join_with [LF] (l' :: ls')) in E.
      apply app_eq_app in E as [m [[E1 E2]|[E1 E2]]].
      * subst s2. rewrite <- app_assoc. apply (Hline s1 m _ E1).
      * destruct m as [|y m].
        -- cbn [app] in E2. rewrite <- E2. rewrite app_nil_r in E1. cbn [app].
           rewrite <- (app_nil_l (LF :: _)).
           change (strip_lit lit ([] ++ LF :: join_with [LF] (l' :: ls') ++ LF :: tail) = None).
           apply (Hline l [] _). rewrite app_nil_r. reflexivity.
        -- cbn [app] in E2. inversion E2 as [[Ey E3]]. apply (IH m s2 tail E3).
Qed.

Lemma fm_line_ok_inv line :
  fm_line_ok line = true ->
  Forall (fun x => x <> LF) line /\ strip_lit (u "---") line = None
  /\ starts_nowhere (u "## Goal") line /\ starts_nowhere (u "## Phase ") line.
Proof.
  unfold fm_line_ok. rewrite !andb_true_iff, !negb_true_iff.
  intros (((Hlf & Hfence) & Hgoal) & Hphase).
  split; [apply lit_no, Hlf|]. split.
  - apply bool_decide_eq_false_1 in Hfence.
    destruct (strip_lit (u "---") line) eqn:E; [|reflexivity].
    exfalso. apply Hfence. eauto.
  - split; apply occursb_nowhere; assumption.
Qed.

Lemma fence_free_lf s : strip_lit (u "---") s = None -> fence_free [LF] s.
Proof.
  intros H w1 w2 Hw Hne. destruct w1 as [|y w1].
  - simpl in Hw. subst w2. cbn [app].
    change (u "
---") with (LF :: u "---"). cbn [strip_lit]. rewrite N.eqb_refl. exact H.
  - inversion Hw. destruct w1; [|discriminate]. simpl in *. subst. contradiction.
Qed.

Lemma join_head_line l ls x :
  exists y, join_with [LF] (l :: ls) ++ LF :: x = l ++ LF :: y.
Proof.
  destruct ls as [|l' ls'].
  - exists x. reflexivity.
  - change (join_with [LF] (l :: l' :: ls')) with (l ++ LF :: join_with [LF] (l' :: ls')).
    rewrite <- app_assoc. cbn [app]. eauto.
Qed.

Lemma lines_fence_free lines after :
  Forall (fun l => fm_line_ok l = true) lines ->
  fence_free (join_with [LF] lines) (LF :: after).
Proof.
  induction 1 as [|l ls Hl Hls IH].
  - intros w1 w2 Hw Hne. symmetry in Hw. apply app_eq_nil in Hw as [_ ->]. contradiction.
  - apply fm_line_ok_inv in Hl as (Hlf & _).
    destruct ls as [|l' ls'].
    + cbn [join_with]. apply fence_free_no_lf, Hlf.
    + change (join_with [LF] (l :: l' :: ls'))
        with (l ++ [LF] ++ join_with [LF] (l' :: ls')).
      apply fence_free_app; [apply fence_free_no_lf, Hlf|].
      apply fence_free_app; [|exact IH].
      apply fence_free_lf.
      destruct (join_head_line l' ls' after) as (y & ->).
      inversion Hls as [|? ? Hl' _]; subst.
      apply fm_line_ok_inv in Hl' as (Hlf' & Hf' & _).
      rewrite strip_lit_line by (apply lit_no; reflexivity).
      rewrite Hf'. reflexivity.
Qed.

Lemma fm_doc_split lines after :
  fm_doc lines after = u "---
" ++ join_with [LF] lines ++ u "
---" ++ after.
Proof. reflexivity. Qed.

Lemma extract_frontmatter_doc lines after :
  Forall (fun l => fm_line_ok l = true) lines ->
  extract_frontmatter (fm_doc lines after)
  = Some (frontmatter_of_lines (split_on LF (join_with [LF] lines))).
Proof.
  intros Hok. unfold extract_frontmatter, str_match.
  change frontmatterRegex with (Seq Bos (seqs [Lit (u "---
"); Group 1 (Star false (Cls any_char)); Lit (u "
---")])).
  rewrite search_bos. rewrite fm_doc_split. cbn [seqs].
  rewrite rmatch_seq, rmatch_lit_app, rmatch_seq, rmatch_group.
  rewrite star_lazy_skip.
  - erewrite star_lazy_stop.
    2: { cbn [rest caps]. rewrite rmatch_lit_app. reflexivity. }
    unfold group. cbn [m_caps caps set_cap Nat.eqb default from_option]. unfold id.
    rewrite (consumed_suffix _ _ (join_with [LF] lines)) by reflexivity. reflexivity.
  - apply Forall_forall. intros x _. reflexivity.
  - intros w1 w2 Hw Hne. cbn [rest caps]. apply rmatch_lit_fail.
    change (u "
---" ++ after) with (LF :: u "---" ++ after).
    apply (lines_fence_free lines _ Hok w1 w2 Hw Hne).
Qed.

Lemma frontmatter_of_joined lines :
  Forall (fun l => fm_line_ok l = true) lines ->
  frontmatter_of_lines (split_on LF (join_with [LF] lines)) = frontmatter_of_lines lines.
Proof.
  intros Hok. destruct lines as [|l ls]; [reflexivity|].
  rewrite split_join_lines; [reflexivity | discriminate |].
  eapply Forall_impl; [exact Hok|]. intros x Hx. apply fm_line_ok_inv in Hx as [Hx _]. exact Hx.
Qed.

(** The search for a heading passes over the frontmatter. *)
Lemma search_doc input lit0 lit1 r lines after :
  lit0 <> [] -> head lit0 = Some HASH -> Forall (fun x => x <> LF) lit0 ->
  Forall (starts_nowhere lit0) lines ->
  search input (Seq (Lit (lit0 ++ lit1)) r) (fm_doc lines after)
  = search input (Seq (Lit (lit0 ++ lit1)) r) after.
Proof.
  intros Hne Hhash Hlf Hlines. rewrite fm_doc_split.
  destruct lit0 as [|a lit0']; [contradiction|]. cbn [head] in Hhash. inversion Hhash; subst a.
  assert (Hskip : forall w from, forallb no_hash w = true ->
            search input (Seq (Lit ((HASH :: lit0') ++ lit1)) r) (w ++ from)
            = search input (Seq (Lit ((HASH :: lit0') ++ lit1)) r) from).
  { intros w from Hw. apply search_skip_lit. apply no_hash_neq, Hw. }
  rewrite Hskip by reflexivity.
  rewrite search_skip_fail.
  - apply Hskip. reflexivity.
  - intros w1 w2 Hw _. rewrite rmatch_seq. apply rmatch_lit_fail.
    rewrite strip_lit_app_split.
    change (u "
---" ++ after) with (LF :: u "---" ++ after).
    rewrite (starts_nowhere_join (HASH :: lit0') lines Hne Hlf Hlines w1 w2 _ Hw).
    reflexivity.
Qed.

Lemma lines_nowhere lines :
  Forall (fun l => fm_line_ok l = true) lines ->
  Forall (starts_nowhere (u "## Goal")) lines
  /\ Forall (starts_nowhere (u "## Phase ")) lines.
Proof.
  intros H. split; (eapply Forall_impl; [exact H|]); intros l Hl;
    apply fm_line_ok_inv in Hl as (_ & _ & Hg & Hp); assumption.
Qed.

Lemma extract_goal_doc lines after :
  Forall (fun l => fm_line_ok l = true) lines ->
  extract_goal (fm_doc lines after)
  = match search [] goalRegex after with
    | Some goalMatch =>
      match trim (group goalMatch 1) with
      | [] => None
      | g => Some g
      end
    | None => None
    end.
Proof.
  intros Hok. apply lines_nowhere in Hok as [Hg _].
  unfold extract_goal, str_match.
  change goalRegex with (Seq (Lit (u "## Goal" ++ [LF])) (Group 1 (Plus (Cls not_nl_hash)))).
  rewrite search_doc; [| discriminate | reflexivity | apply lit_no; reflexivity | exact Hg].
  rewrite (search_input (fm_doc lines after) []) by reflexivity. reflexivity.
Qed.

Lemma extract_phases_doc lines after :
  Forall (fun l => fm_line_ok l = true) lines ->
  extract_phases (fm_doc lines after) = extract_phases after.
Proof.
  intros Hok. apply lines_nowhere in Hok as [_ Hp].
  unfold extract_phases, exec_all. f_equal.
  set (doc := fm_doc lines after).
  assert (Hlen : (length after <= length doc)%nat).
  { unfold doc. rewrite fm_doc_split, !length_app. lia. }
  rewrite (exec_loop_search_eq doc _ phaseRegex doc after).
  - rewrite (exec_loop_input doc after) by reflexivity.
    apply exec_loop_fuel; [apply phaseRegex_consuming | lia | lia].
  - unfold doc. 
    change phaseRegex with (Seq (Lit (u "## Phase " ++ []))
      (seqs [Group 1 (Plus (Cls is_digit)); Lit (u ": ");
        Group 2 (Plus (Cls not_lbrack)); Lit (u "[");
        Group 3 (Plus (Cls not_rbrack)); Lit (u "]
");
        Group 4 (Star false (Cls any_char));
        Look (Alt (seqs [Lit (u "## Phase "); Plus (Cls is_digit); Lit (u ":")])
             (Alt (Lit (u "## Notes"))
             (Alt (Lit (u "## Blockers"))
                  Eos)))])).
    apply search_doc; [discriminate | reflexivity | apply lit_no; reflexivity | exact Hp].
Qed.

Lemma fm_doc_not_blank lines after : trim (fm_doc lines after) <> [].
Proof.
  intros H. apply trim_nil_blank in H. rewrite fm_doc_split in H.
  inversion H as [|? ? Hc _]. discriminate Hc.
Qed.

Section ExtraLines.
Variable defaultMessage : issue_code -> jsstring.

(** C10 (amended). Lines with other keys between the fences are ignored:
    when no line between the fences starts a fence or writes [## Goal] or
    [## Phase ], the document parses to what it parses to without the lines
    that set none of [status], [phase] and [updated]; and the frontmatter of
    a validated plan has exactly these three keys. *)
Theorem frontmatter_extra_keys_ignored lines after :
  Forall (fun l => fm_line_ok l = true) lines ->
  parsePlanMarkdown defaultMessage (VString (fm_doc lines after))
  = parsePlanMarkdown defaultMessage
      (VString (fm_doc (List.filter is_schema_line lines) after))
  /\ (forall data warnings,
        parsePlanMarkdown defaultMessage (VString (fm_doc lines after))
        = Some (ParseOk data warnings) ->
        dom (frontmatter data) = ({[ u "status"; u "phase"; u "updated" ]} : gset jsstring)).
Proof.
  intros Hok.
  assert (Hok' : Forall (fun l => fm_line_ok l = true) (List.filter is_schema_line lines)).
  { apply List.Forall_forall. intros l Hl. apply List.filter_In in Hl as [Hl _].
    rewrite List.Forall_forall in Hok. apply Hok, Hl. }
  split.
  - unfold parsePlanMarkdown, parsePlanMarkdown_with.
    rewrite !bool_decide_eq_false_2 by apply fm_doc_not_blank.
    unfold extractMarkdownParts.
    rewrite !extract_phases_doc, !extract_goal_doc, !extract_frontmatter_doc,
      !frontmatter_of_joined by assumption.
    destruct (extract_phases after) as [phases|]; [|reflexivity].
    cbn [mbind option_bind x_frontmatter x_goal x_phases].
    unfold PlanSchema_safeParse, PlanSchema_issues, PlanSchema_data.
    cbn [x_frontmatter x_goal x_phases].
    rewrite (FrontmatterSchema_issues_agree defaultMessage _ _ _
               (frontmatter_of_lines_agree lines)).
    rewrite (FrontmatterSchema_data_agree _ _ (frontmatter_of_lines_agree lines)).
    reflexivity.
  - intros data warnings Hparse.
    apply parse_ok_inv in Hparse as (parts & Hex & Hi & ->).
    unfold extractMarkdownParts in Hex.
    destruct (extract_phases (fm_doc lines after)) as [phases|]; [|discriminate].
    cbn [mbind option_bind] in Hex. inversion Hex; subst parts.
    unfold PlanSchema_issues in Hi. cbn [x_frontmatter] in Hi.
    apply app_eq_nil in Hi as [Hi _].
    apply FrontmatterSchema_issues_nil in Hi as (o & s & p & d & Ho & Hs & Hp & Hd).
    unfold PlanSchema_data. cbn [frontmatter x_frontmatter]. rewrite Ho.
    apply (FrontmatterSchema_data_dom _ _ _ _ Hs Hp Hd).
Qed.
End ExtraLines.

(* ================================================================== *)
(** * The claims at concrete inputs *)
(* ================================================================== *)

(** The layout of scenario A is its text. *)
Lemma scenarioA_rendered : render_plan scenarioA_plan = scenarioA.
Proof. vm_compute. reflexivity. Qed.

Lemma issue_plan_rendered : render_plan issue_plan = issue_plan_text.
Proof. vm_compute. reflexivity. Qed.

Lemma ordered_plan_rendered : render_plan ordered_plan = ordered_plan_text.
Proof. vm_compute. reflexivity. Qed.



(** C2, witness: scenario B. *)
Lemma parsePlanMarkdown_multiple_current_witness :
  parsePlanMarkdown plainMessages (VString scenarioB)
  = Some (ParseError
            (u "Multiple tasks marked ← CURRENT (found "
               ++ nat_to_string (length (marked_tasks scenarioB_parts))
               ++ u "). Only one task may be current.")
            skillHint).
Proof.
  apply (parsePlanMarkdown_multiple_current plainMessages scenarioB scenarioB_parts
           (PlanSchema_data scenarioB_parts)).
  - vm_compute. reflexivity.
  - vm_compute. reflexivity.
  - vm_compute. lia.
Defined.

(** C2, counterexample: for scenario B, with exactly two tasks marked, the
    error is not the sentence the claim quotes: a second sentence follows. *)
Lemma scenarioB_error_text :
  length (marked_tasks scenarioB_parts) = 2%nat
  /\ parsePlanMarkdown plainMessages (VString scenarioB)
     = Some (ParseError
               (u "Multiple tasks marked ← CURRENT (found 2). Only one task may be current.")
               skillHint)
  /\ u "Multiple tasks marked ← CURRENT (found 2). Only one task may be current."
     <> u "Multiple tasks marked ← CURRENT (found 2).".
Proof. split; [|split]; [vm_compute; reflexivity.. | discriminate]. Qed.

(** C3, witness: two root commits listed with the larger first, and a cache
    file holding text that is no hash. *)
Lemma getProjectId_deterministic_witness :
  (exists id,
      (getProjectId slash_join slash_resolve zero_digest repo_two_roots (u "/repo")).2
      = Return id
      /\ least [hash_a; hash_b] id
      /\ forall id', least [hash_a; hash_b] id' -> id' = id)
  /\ (getProjectId slash_join slash_resolve zero_digest repo_bad_cache (u "/repo")
      = generate_id zero_digest repo_bad_cache (u "/repo") (u "/repo/.git/opencode")
      /\ exists id,
          (getProjectId slash_join slash_resolve zero_digest repo_bad_cache (u "/repo")).2
          = Return id /\ id <> trim (u "not-a-hash
")).
Proof.
  assert (Hhash : Forall is_hash [hash_a; hash_b]).
  { repeat constructor; apply forallb_Forall_ok; reflexivity. }
  split.
  - apply (proj1 (getProjectId_deterministic slash_join slash_resolve zero_digest
                    repo_two_roots (u "/repo") (u "/repo/.git")
                    ltac:(discriminate) eq_refl)
             [hash_a; hash_b] [hash_b; hash_a] []).
    + exact I.
    + discriminate.
    + exact Hhash.
    + apply perm_swap.
    + reflexivity.
  - apply (proj2 (proj2 (getProjectId_deterministic slash_join slash_resolve zero_digest
                    repo_bad_cache (u "/repo") (u "/repo/.git")
                    ltac:(discriminate) eq_refl))
             (u "not-a-hash
")).
    + intros s. split; [reflexivity | apply forallb_Forall_ok; reflexivity].
    + vm_compute. reflexivity.
    + split; vm_compute; reflexivity.
Defined.

(** The identity of the witness is the smaller hash. *)
Lemma repo_two_roots_identity :
  (getProjectId slash_join slash_resolve zero_digest repo_two_roots (u "/repo")).2
  = Return hash_a.
Proof. vm_compute. reflexivity. Qed.

(** C4, witness: a chain of nine links, and a cycle. *)
Lemma getRootSessionID_depth_bound_witness :
  getRootSessionID (chain_get 9) (Some (u "s0")) = Return (u "s9")
  /\ getRootSessionID cycle_get (Some (u "loop")) = Throw depthExceeded.
Proof.
  split.
  - apply (proj1 (getRootSessionID_depth_bound (chain_get 9) (u "s0") ltac:(discriminate))).
    vm_compute. repeat (eexists; split; [eexists; split; reflexivity|]).
    split; [eexists; split; reflexivity | reflexivity].
  - apply (proj2 (getRootSessionID_depth_bound cycle_get (u "loop") ltac:(discriminate)) 11%nat).
    + lia.
    + simpl. repeat (eexists; split; [eexists; split; reflexivity|]). exact I.
Defined.

(** Ten links are one too many already. *)
Lemma getRootSessionID_ten_links :
  getRootSessionID (chain_get 10) (Some (u "s0")) = Throw depthExceeded.
Proof. vm_compute. reflexivity. Qed.

(** C5. The task lines of [cited_plan_text] end in a citation, the second
    after the current marker; the plan validates, and neither task has a
    citation: the first keeps the token inside its content, the second loses
    it. *)
Theorem citation_not_captured :
  exists data warnings,
    parsePlanMarkdown plainMessages (VString cited_plan_text) = Some (ParseOk data warnings)
    /\ concat (map p_tasks (phases data))
       = [mkTask (u "1.1") true
            (u "Research dark mode best practices `ref:swift-tiger-moon`")
            (Some false) None;
          mkTask (u "1.2") true (u "Audit existing color usage") (Some true) None].
Proof. eexists. eexists. split; vm_compute; reflexivity. Qed.

(** The citation is captured when nothing stands between the marker and
    it. *)
Lemma citation_captured_when_adjacent :
  extract_tasks (u "- [x] 1.2 Audit existing color usage ← CURRENT`ref:bold-eagle-star`
")
  = Some [mkRawTask (u "1.2") true (u "Audit existing color usage") true
            (Some (u "ref:bold-eagle-star"))].
Proof. vm_compute. reflexivity. Qed.

(** C6, witness: saved from a child session, read from its root. *)
Lemma plan_save_read_roundtrip_witness :
  (plan_save plainMessages slash_join home family_get some_project
     empty_fs scenarioA (Some (u "ses_child"))).2 = Return (planSavedMessage [])
  /\ plan_read slash_join home family_get some_project
       (plan_save plainMessages slash_join home family_get some_project
          empty_fs scenarioA (Some (u "ses_child"))).1
       (Some (u "ses_root"))
     = Return scenarioA.
Proof.
  destruct (plan_save_read_roundtrip plainMessages slash_join home family_get some_project
           empty_fs scenarioA (Some (u "ses_child")) (Some (u "ses_root")) (u "ses_root")
           (plan_of scenarioA_plan) []) as (Hs & _ & Hr).
  - vm_compute. reflexivity.
  - vm_compute. reflexivity.
  - vm_compute. reflexivity.
  - vm_compute. reflexivity.
  - vm_compute. reflexivity.
  - reflexivity.
  - reflexivity.
  - reflexivity.
  - split; [exact Hs|]. apply Hr. vm_compute. reflexivity.
Defined.

(** C6, counterexample: a plan that validates and has half of a surrogate
    pair in a task text is saved, and what is read back is not the text
    that was given: U+FFFD stands where the surrogate was. *)
Lemma lone_surrogate_not_read_back :
  accepted plainMessages lone_surrogate_text = true
  /\ (plan_save plainMessages slash_join home family_get some_project
        empty_fs lone_surrogate_text (Some (u "ses_child"))).2
     = Return (planSavedMessage [])
  /\ plan_read slash_join home family_get some_project
       (plan_save plainMessages slash_join home family_get some_project
          empty_fs lone_surrogate_text (Some (u "ses_child"))).1
       (Some (u "ses_root"))
     = Return (toWellFormed lone_surrogate_text)
  /\ toWellFormed lone_surrogate_text <> lone_surrogate_text.
Proof.
  assert (Hp : exists data, parsePlanMarkdown plainMessages (VString lone_surrogate_text)
                            = Some (ParseOk data [])).
  { eexists. vm_compute. reflexivity. }
  destruct Hp as (data & Hp).
  split; [unfold accepted; rewrite Hp; reflexivity|].
  destruct (plan_save_then_read plainMessages slash_join home family_get some_project
           empty_fs lone_surrogate_text (Some (u "ses_child")) (Some (u "ses_root"))
           (u "ses_root") data [] Hp) as [Hs Hr].
  - vm_compute. reflexivity.
  - vm_compute. reflexivity.
  - vm_compute. reflexivity.
  - vm_compute. reflexivity.
  - reflexivity.
  - reflexivity.
  - reflexivity.
  - split; [exact Hs|]. split; [exact Hr|]. vm_compute. discriminate.
Qed.

(** C7, witness: no file, and a file that cannot be read. *)
Lemma plan_read_missing_file_witness :
  plan_read slash_join home family_get some_project empty_fs (Some (u "ses_child"))
  = Return (u "No plan found.")
  /\ plan_read slash_join home family_get some_project fs_unreadable (Some (u "ses_child"))
     = Throw unreadable.
Proof.
  split.
  - apply (proj1 (proj2 (plan_read_missing_file slash_join home family_get some_project
                    empty_fs (Some (u "ses_child")) (u "ses_root") eq_refl)));
      reflexivity.
  - apply (proj2 (proj2 (plan_read_missing_file slash_join home family_get some_project
                    fs_unreadable (Some (u "ses_child")) (u "ses_root") eq_refl))).
    + reflexivity.
    + intros [_ H]. discriminate H.
Defined.

(** C8, witness: spaces, a tab and a line break. *)
Lemma parsePlanMarkdown_blank_witness :
  parsePlanMarkdown plainMessages (VString (u "  	
"))
  = Some (ParseError (u "Empty content provided")
            (u "Load skill('plan-protocol') for the full format spec.")).
Proof.
  apply (proj1 (parsePlanMarkdown_blank plainMessages (u "  	
")
                  ltac:(repeat constructor))).
Defined.

(** C9, witness: scenario C is refused and the stored plan stays. *)
Lemma plan_save_invalid_writes_nothing_witness :
  fs_readFile
    (plan_save plainMessages slash_join home family_get some_project
       fs_with_plan scenarioC (Some (u "ses_child"))).1 stored_path
  = fs_readFile fs_with_plan stored_path
  /\ (plan_save plainMessages slash_join home family_get some_project
        fs_with_plan scenarioC (Some (u "ses_child"))).2
     = Return (formatParseError (u "[frontmatter.updated]: Date must be YYYY-MM-DD")
                                skillHint).
Proof.
  pose proof (plan_save_invalid_writes_nothing plainMessages slash_join home family_get
                some_project fs_with_plan scenarioC (Some (u "ses_child"))
                (u "[frontmatter.updated]: Date must be YYYY-MM-DD") skillHint
                ltac:(vm_compute; reflexivity)) as (_ & Hread & _ & Hret).
  split; [apply Hread|].
  apply (Hret (u "ses_root")); reflexivity.
Defined.

Lemma extra_keys_text_lines : fm_doc extra_keys_lines extra_keys_after = extra_keys_text.
Proof. vm_compute. reflexivity. Qed.

(** C10, witness: the [owner] and [tags] lines among the three change
    nothing, and the validated frontmatter has the three keys. *)
Lemma frontmatter_extra_keys_ignored_witness :
  parsePlanMarkdown plainMessages (VString (fm_doc extra_keys_lines extra_keys_after))
  = parsePlanMarkdown plainMessages
      (VString (fm_doc [u "status: in-progress"; u "phase: 2"; u "updated: 2026-01-07"]
                       extra_keys_after))
  /\ exists data warnings,
       parsePlanMarkdown plainMessages (VString (fm_doc extra_keys_lines extra_keys_after))
       = Some (ParseOk data warnings)
       /\ dom (frontmatter data) = ({[ u "status"; u "phase"; u "updated" ]} : gset jsstring).
Proof.
  assert (Hok : Forall (fun l => fm_line_ok l = true) extra_keys_lines).
  { repeat constructor. }
  destruct (frontmatter_extra_keys_ignored plainMessages extra_keys_lines extra_keys_after Hok)
    as [Hsame Hdom].
  split; [exact Hsame|].
  assert (Hparse : exists data warnings,
    parsePlanMarkdown plainMessages (VString (fm_doc extra_keys_lines extra_keys_after))
    = Some (ParseOk data warnings)).
  { eexists. eexists. vm_compute. reflexivity. }
  destruct Hparse as (data & warnings & Hparse).
  exists data, warnings. split; [exact Hparse | exact (Hdom data warnings Hparse)].
Defined.

(** C10, counterexample: scenario A parses; with one more line between the
    fences, of the key [note], it is refused: the value of the line writes a
    phase heading, which the search for phases finds first. *)
Lemma frontmatter_line_with_heading_rejected :
  fm_doc (List.filter is_schema_line noted_lines) scenarioA_after = scenarioA
  /\ List.filter (fun l => negb (is_schema_line l)) noted_lines
     = [u "note: ## Phase 9: x [PENDING]"]
  /\ parsePlanMarkdown plainMessages (VString scenarioA)
     = Some (ParseOk (plan_of scenarioA_plan) [])
  /\ parsePlanMarkdown plainMessages (VString (fm_doc noted_lines scenarioA_after))
     = Some (ParseError (u "[phases.0.tasks]: Phase must have at least one task")
               skillHint).
Proof. vm_compute. repeat split; reflexivity. Qed.

(** Scenarios A and C of the specification. *)
Lemma scenarioA_parses :
  parsePlanMarkdown plainMessages (VString scenarioA)
  = Some (ParseOk (plan_of scenarioA_plan) []).
Proof. vm_compute. reflexivity. Qed.

Lemma scenarioC_rejected :
  parsePlanMarkdown plainMessages (VString scenarioC)
  = Some (ParseError (u "[frontmatter.updated]: Date must be YYYY-MM-DD") skillHint).
Proof. vm_compute. reflexivity. Qed.

(* ================================================================== *)
(** * The further properties at concrete inputs *)
(* ================================================================== *)

(** X1, witness: three links lead from [s0] to [s3]. *)
Lemma getRootSessionID_returns_iff_witness :
  getRootSessionID (chain_get 3) (Some (u "s0")) = Return (u "s3")
  <-> exists n, (n < 10)%nat /\ parent_chain (chain_get 3) n (u "s0") (u "s3").
Proof.
  apply (getRootSessionID_returns_iff (chain_get 3) (u "s0") (u "s3")). discriminate.
Defined.

(** X2, witness: the sessions on the way from [s0] to [s3]. *)
Lemma getRootSessionID_along_chain_witness :
  getRootSessionID (chain_get 3) (Some (u "s3")) = Return (u "s3")
  /\ getRootSessionID (chain_get 3) (Some (u "s2")) = Return (u "s3").
Proof.
  pose proof (getRootSessionID_along_chain (chain_get 3) (u "s0") (u "s3")
                ltac:(vm_compute; reflexivity)) as [Hroot Hall].
  split; [exact Hroot|].
  apply (Hall 2%nat). simpl.
  repeat (eexists; split; [eexists; split; reflexivity|]). reflexivity.
Defined.

(** X4, witness: scenario A saved by the child session, then a plan with
    other frontmatter keys saved by the root session, then the refused
    scenario C; the second is what is read. *)
Lemma plan_read_latest_valid_witness :
  plan_read slash_join home family_get some_project
    (save_all plainMessages slash_join home family_get some_project empty_fs
       [(Some (u "ses_child"), scenarioA); (Some (u "ses_root"), extra_keys_text);
        (Some (u "ses_child"), scenarioC)])
    (Some (u "ses_root"))
  = Return extra_keys_text.
Proof.
  apply (plan_read_latest_valid plainMessages slash_join home family_get some_project
           empty_fs
           [(Some (u "ses_child"), scenarioA); (Some (u "ses_root"), extra_keys_text);
            (Some (u "ses_child"), scenarioC)]
           (Some (u "ses_root")) (u "ses_root")).
  - repeat constructor; vm_compute; reflexivity.
  - vm_compute. reflexivity.
  - vm_compute. reflexivity.
  - vm_compute. reflexivity.
  - reflexivity.
  - reflexivity.
  - reflexivity.
Defined.

(** X5, witness: the plan of scenario A. *)
Lemma parsePlanMarkdown_sound_witness : valid_plan (plan_of scenarioA_plan).
Proof.
  apply (parsePlanMarkdown_sound plainMessages (VString scenarioA)
           (plan_of scenarioA_plan) []).
  vm_compute. reflexivity.
Defined.

(** X6, witness: two phases in progress. *)
Lemma parsePlanMarkdown_warnings_witness :
  exists data,
    parsePlanMarkdown plainMessages (VString two_in_progress_text)
    = Some (ParseOk data
              [u "Multiple phases marked IN PROGRESS. Consider focusing on one phase at a time."])
    /\ inProgressCount data = 2%nat
    /\ planSavedMessage
         [u "Multiple phases marked IN PROGRESS. Consider focusing on one phase at a time."]
       = u "Plan saved. (1 warnings: Multiple phases marked IN PROGRESS. Consider focusing on one phase at a time.)".
Proof.
  assert (Hparse : exists data,
    parsePlanMarkdown plainMessages (VString two_in_progress_text)
    = Some (ParseOk data
              [u "Multiple phases marked IN PROGRESS. Consider focusing on one phase at a time."])
    /\ inProgressCount data = 2%nat).
  { eexists. split; vm_compute; reflexivity. }
  destruct Hparse as (data & Hparse & Hcount).
  exists data. split; [exact Hparse|]. split; [exact Hcount|].
  destruct (parsePlanMarkdown_warnings plainMessages (VString two_in_progress_text) data _ Hparse)
    as [(_ & Hw & _)|(_ & _ & Hmsg)]; [discriminate Hw | exact Hmsg].
Defined.

(** X7, witness: scenario A after a blank line. *)
Lemma parsePlanMarkdown_needs_fence_witness :
  exists more,
    parsePlanMarkdown plainMessages (VString late_fence_text)
    = Some (ParseError (u "[frontmatter]: " ++ plainMessages invalid_type ++ more) skillHint).
Proof.
  apply (parsePlanMarkdown_needs_fence plainMessages late_fence_text).
  - vm_compute. discriminate.
  - reflexivity.
Defined.

(** X8, witness: scenario A cut before its phase. *)
Lemma parsePlanMarkdown_needs_phase_witness :
  exists before,
    parsePlanMarkdown plainMessages (VString no_phase_text)
    = Some (ParseError (before ++ u "[phases]: Plan must have at least one phase")
                       skillHint).
Proof.
  apply (parsePlanMarkdown_needs_phase plainMessages no_phase_text).
  - vm_compute. discriminate.
  - apply occursb_false. vm_compute. reflexivity.
Defined.

(** X9, witness: a [tags] line whose value has a colon, after a first
    [tags] line. *)
Lemma frontmatter_line_sets_key_witness :
  frontmatter_of_lines [u "tags: first"; u "tags" ++ COLON :: u " dark-mode: css"]
  = <[u "tags" := FStr (u "dark-mode: css")]> (frontmatter_of_lines [u "tags: first"]).
Proof.
  apply (frontmatter_line_sets_key [u "tags: first"] (u "tags") (u " dark-mode: css")).
  - discriminate.
  - repeat constructor; discriminate.
  - vm_compute. discriminate.
  - vm_compute. discriminate.
Defined.

(** X10, witness: [phase: 2nd] is phase 2, and the digits of 2^53 + 1 are
    read as 2^53. *)
Lemma frontmatter_phase_leading_digits_witness :
  frontmatter_add_line ∅ (u "phase" ++ COLON :: u " 2nd")
  = <[u "phase" := FNum (Num 2)]> ∅
  /\ frontmatter_add_line ∅ (u "phase" ++ COLON :: u " 9007199254740993.")
     = <[u "phase" := FNum (Num 9007199254740992)]> ∅.
Proof.
  split.
  - apply (proj1 (frontmatter_phase_leading_digits ∅ (u " 2nd") (u "2") (u "nd")
                    eq_refl eq_refl eq_refl)).
  - apply (proj1 (frontmatter_phase_leading_digits ∅ (u " 9007199254740993.")
                    (u "9007199254740993") (u ".") eq_refl eq_refl eq_refl)).
Defined.

(** X11, witness: the identity of the repository with two roots. *)
Lemma getProjectId_identity_shape_witness :
  (length hash_a = 40%nat \/ length hash_a = 16%nat)
  /\ Forall (fun c => is_hex c = true) hash_a.
Proof.
  apply (getProjectId_identity_shape slash_join slash_resolve zero_digest
           repo_two_roots (u "/repo")
           (write_cache repo_two_roots (u "/repo/.git/opencode") hash_a) hash_a).
  - intros s. split; [reflexivity | apply forallb_Forall_ok; reflexivity].
  - vm_compute. reflexivity.
Defined.

(** X12, witness: a cached hash, with a git run that times out and with
    one that lists other commits. *)
Lemma getProjectId_uses_cache_witness :
  getProjectId slash_join slash_resolve zero_digest repo_cached (u "/repo")
  = (repo_cached, Return hash_b)
  /\ (getProjectId slash_join slash_resolve zero_digest
        (mkRepo plain_stat (r_files repo_cached)
                (fun _ => Exited 0 (git_output [hash_a]) []) quiet) (u "/repo")).2
     = Return hash_b.
Proof.
  assert (Hhex : Forall (fun c => is_hex c = true) (trim (hash_b ++ [LF]))).
  { apply forallb_Forall_ok. vm_compute. reflexivity. }
  split.
  - apply (getProjectId_uses_cache slash_join slash_resolve zero_digest repo_cached
             (u "/repo") (u "/repo/.git") (hash_b ++ [LF])
             ltac:(discriminate) eq_refl eq_refl
             ltac:(left; vm_compute; reflexivity) Hhex (fun _ => TimedOut)).
  - exact (f_equal snd
             (getProjectId_uses_cache slash_join slash_resolve zero_digest repo_cached
                (u "/repo") (u "/repo/.git") (hash_b ++ [LF])
                ltac:(discriminate) eq_refl eq_refl
                ltac:(left; vm_compute; reflexivity) Hhex
                (fun _ => Exited 0 (git_output [hash_a]) []))).
Defined.

(** X14, witness: the worktree at [/tree] of the checkout at [/main]. *)
Lemma getProjectId_worktree_witness :
  (getProjectId slash_join abs_resolve zero_digest repo_worktree (u "/tree")).2
  = Return hash_a.
Proof.
  apply (getProjectId_worktree slash_join abs_resolve zero_digest repo_worktree
           (u "/main") (u "/tree") (u " ") (u "/main/.git/worktrees/tree") [LF] hash_a).
  - discriminate.
  - discriminate.
  - reflexivity.
  - reflexivity.
  - vm_compute. reflexivity.
  - repeat constructor.
  - discriminate.
  - apply forallb_Forall_ok. vm_compute. reflexivity.
  - reflexivity.
  - right. exists []. reflexivity.
  - vm_compute. reflexivity.
  - reflexivity.
  - vm_compute. reflexivity.
  - vm_compute. reflexivity.
Defined.

(** X17, witness: a call that started at 0, swept at 1000000. *)
Lemma swept_call_completes_silently_witness :
  tool_execute_after (u "task") (Some (u "call_a"))
    (cleanupInterval_callback 1000000 one_old_call) (u "done")
  = (cleanupInterval_callback 1000000 one_old_call, u "done").
Proof.
  apply (swept_call_completes_silently 1000000 one_old_call (u "call_a") 0 (u "done")).
  - reflexivity.
  - reflexivity.
Defined.

(** X18, witness: three coder tasks that complete in another order. *)
Lemma coder_batch_reminder_once_witness :
  complete_tasks [u "call_c"; u "call_a"; u "call_b"] (start_coder_tasks three_starts ∅)
  = (∅, [[]; []; coderCompleteReminder]).
Proof.
  apply (coder_batch_reminder_once three_starts [u "call_c"; u "call_a"; u "call_b"]).
  - discriminate.
  - apply (bool_decide_unpack (NoDup three_starts.*1)). vm_compute. exact I.
  - repeat constructor; discriminate.
  - cbn [three_starts fmap list_fmap fst].
    etrans; [apply perm_swap|]. apply perm_skip. apply perm_swap.
Defined.

(** X19, witness: scenario C, refused, and the text the agent gets. *)
Lemma refused_save_gets_saved_reminder_witness :
  exists out,
    (plan_save plainMessages slash_join home family_get some_project
       empty_fs scenarioC (Some (u "ses_child"))).2 = Return out
    /\ fs_files (plan_save plainMessages slash_join home family_get some_project
                   empty_fs scenarioC (Some (u "ses_child"))).1 = fs_files empty_fs
    /\ tool_execute_after (u "plan_save") (Some (u "call_a")) ∅ out
       = (∅, formatParseError (u "[frontmatter.updated]: Date must be YYYY-MM-DD") skillHint
               ++ planSavedReminder).
Proof.
  apply (refused_save_gets_saved_reminder plainMessages slash_join home family_get
           some_project empty_fs scenarioC (Some (u "ses_child")) (u "ses_root")
           (u "[frontmatter.updated]: Date must be YYYY-MM-DD") skillHint
           (Some (u "call_a")) ∅).
  - vm_compute. reflexivity.
  - vm_compute. reflexivity.
  - reflexivity.
Defined.

(** X20, witness: no plan file, and a plan file that cannot be read. *)
Lemma session_compacting_without_plan_witness :
  session_compacting slash_join home family_get some_project empty_fs
    (Some (u "ses_child")) [u "earlier"]
  = Return [u "earlier"]
  /\ session_compacting slash_join home family_get some_project fs_unreadable
       (Some (u "ses_child")) [u "earlier"]
     = Throw unreadable.
Proof.
  split.
  - apply (proj1 (session_compacting_without_plan slash_join home family_get some_project
                    empty_fs (Some (u "ses_child")) (u "ses_root") [u "earlier"] eq_refl)).
    + reflexivity.
    + left. reflexivity.
  - apply (proj2 (proj2 (session_compacting_without_plan slash_join home family_get
                    some_project fs_unreadable (Some (u "ses_child")) (u "ses_root")
                    [u "earlier"] eq_refl))).
    + reflexivity.
    + intros [_ H]. discriminate H.
Defined.

(** X21, witness: a stored plan without a marker. *)
Lemma session_compacting_unmarked_witness :
  session_compacting slash_join home family_get some_project fs_unmarked_plan
    (Some (u "ses_child")) []
  = Return [u "<workspace-context>
## Current Plan
" ++ issue_plan_text ++ u "

## Resume Point
" ++ u "No task marked as CURRENT" ++ u "

## Verification
To verify any cited decision, use `delegation_read(" ++ [QUOTE] ++ u "ref:id"
      ++ [QUOTE] ++ u ")`.
</workspace-context>"].
Proof.
  apply (session_compacting_unmarked slash_join home family_get some_project
           fs_unmarked_plan (Some (u "ses_child")) (u "ses_root") issue_plan_text []).
  - vm_compute. reflexivity.
  - vm_compute. reflexivity.
  - vm_compute. discriminate.
  - apply occursb_false. vm_compute. reflexivity.
Defined.


(** The example plan of the README validates. *)
Lemma readme_plan_parses :
  exists data, parsePlanMarkdown plainMessages (VString readme_plan) = Some (ParseOk data []).
Proof. eexists. vm_compute. reflexivity. Qed.

(** X23, witness: a plain line and the bold line of the README, with a
    note and blank lines around them. *)
Lemma extract_tasks_items_witness :
  render_task_items styled_items [LF] = styled_items_text
  /\ extract_tasks (render_task_items styled_items [LF])
     = Some [mkRawTask (u "2.1") true (u "Create CSS custom property system") false None;
             mkRawTask (u "2.2") false (u "Add theme toggle component") true None].
Proof.
  split; [vm_compute; reflexivity|].
  apply (extract_tasks_items styled_items [LF]).
  - repeat constructor; vm_compute; reflexivity.
  - repeat constructor. discriminate.
Defined.

(** X24, witness: the plan agent on 7 January 2026. *)
Lemma system_transform_adds_witness :
  system_transform (u "PLAN") (u "BUILD") (u "2026-01-07" ++ 84 :: u "09:30:00.000Z")
    2026 (Some (u "plan")) [u "base"]
  = [u "base"] ++ [dateAwareness (u "2026-01-07") (nat_to_string 2026); u "PLAN"].
Proof.
  apply (system_transform_adds (u "PLAN") (u "BUILD") (u "2026-01-07") (u "09:30:00.000Z")
           2026 (Some (u "plan")) [u "base"]).
  apply lit_no. vm_compute. reflexivity.
Defined.

(** X15, witness: a directory without a [.git] entry. *)
Lemma getProjectId_path_hash_fallback_witness :
  getProjectId slash_join slash_resolve zero_digest no_repo (u "/notes")
  = (no_repo, Return (repeat 48 16)).
Proof.
  apply (getProjectId_path_hash_fallback slash_join slash_resolve zero_digest
           no_repo (u "/notes")).
  - discriminate.
  - left. reflexivity.
Defined.

(** X25, witness: the goal line of the plan that mentions an issue number
    is read up to the hash sign. *)
Lemma extract_goal_first_line_witness :
  issue_plan_text
  = u "---
status: in-progress
phase: 1
updated: 2025-01-01
---
" ++ u "## Goal
" ++ u "Fix bug " ++ u "#7 in the parser
## Phase 1: Setup [PENDING]
- [ ] 1.1 Do it
"
  /\ extract_goal (u "---
status: in-progress
phase: 1
updated: 2025-01-01
---
" ++ u "## Goal
" ++ u "Fix bug " ++ u "#7 in the parser
## Phase 1: Setup [PENDING]
- [ ] 1.1 Do it
")
     = Some (u "Fix bug").
Proof.
  split; [vm_compute; reflexivity|].
  apply (extract_goal_first_line (u "---
status: in-progress
phase: 1
updated: 2025-01-01
---
") (u "Fix bug ") (u "#7 in the parser
## Phase 1: Setup [PENDING]
- [ ] 1.1 Do it
")).
  - apply lit_no. vm_compute. reflexivity.
  - discriminate.
  - apply forallb_Forall_ok. vm_compute. reflexivity.
  - reflexivity.
Defined.

(** X26, witness: a [.git] file that is no pointer to a git directory. *)
Lemma getProjectId_invalid_git_file_witness :
  getProjectId slash_join abs_resolve zero_digest repo_broken_worktree (u "/tree")
  = (repo_broken_worktree,
     Throw (Error (u "getProjectId: .git file exists but has invalid format at "
                     ++ slash_join [u "/tree"; u ".git"]))).
Proof.
  apply (getProjectId_invalid_git_file slash_join abs_resolve zero_digest
           repo_broken_worktree (u "/tree") (u "not a git file
")).
  - discriminate.
  - reflexivity.
  - vm_compute. reflexivity.
  - apply occursb_false. vm_compute. reflexivity.
Defined.

(** X27, witness: a checkbox line without an id. *)
Lemma checkbox_without_id_is_no_task_witness :
  extract_tasks (u "- [" ++ [32] ++ u "] " ++ (87 :: u "rite the docs") ++ [LF]) = Some [].
Proof.
  apply (checkbox_without_id_is_no_task 32 87 (u "rite the docs") [LF]).
  - reflexivity.
  - reflexivity.
  - discriminate.
  - apply lit_no. vm_compute. reflexivity.
Defined.

(** X28, witness: an unknown status and a date of the wrong shape give two
    lines. *)
Lemma schema_errors_one_per_line_witness :
  parsePlanMarkdown plainMessages (VString two_issues_text)
  = Some (ParseError (formatZodErrors [status_issue; updated_issue]) skillHint)
  /\ split_on LF (formatZodErrors [status_issue; updated_issue])
     = map format_issue [status_issue; updated_issue].
Proof.
  apply (schema_errors_one_per_line plainMessages
           ltac:(intros code; apply lit_no; reflexivity)
           two_issues_text
           (default no_parts (extractMarkdownParts two_issues_text))
           status_issue [updated_issue]).
  - vm_compute. discriminate.
  - vm_compute. reflexivity.
  - vm_compute. reflexivity.
Defined.

(** The two lines of it. *)
Lemma two_issues_lines :
  map format_issue [status_issue; updated_issue]
  = [u "[frontmatter.status]: Invalid value " ++ [QUOTE] ++ u "undefined" ++ [QUOTE]
       ++ u ". Expected: not-started | in-progress | complete | blocked";
     u "[frontmatter.updated]: Date must be YYYY-MM-DD"].
Proof. vm_compute. reflexivity. Qed.
